(** * ketos train: geometry resolution, corpus partitioning and the epoch loop

    A shallow embedding of the [train] command of [kraken/ketos.py].

    Conventions of the embedding:
    - a Python text string is a [list ascii], each [ascii] standing for one
      code point in U+0000..U+00FF; literals are written as [string] and
      converted with [list_ascii_of_string];
    - Python integers are [Z]; Python floats are [spec_float] values of the
      binary64 format, with the Standard Library's IEEE 754 operations;
    - exceptions are values of [exn]; a computation that can raise returns a
      [result];
    - calls into torch, numpy, click and the other kraken modules are
      answered by a [World] record, so that every run of [train] is a
      function of its arguments and of the world's answers. *)

From Stdlib Require Import ZArith Ascii String DecimalString Lia.
From Stdlib Require Import Floats.SpecFloat.
From stdpp Require Import base list.

Local Open Scope Z_scope.

(** ** Exceptions and results *)

(** The exceptions [train] can raise.  [click.BadOptionUsage] carries the
    positional arguments of the call that builds it, as written in the
    source; what click makes of them is click's business. *)
Inductive exn : Type :=
| BadOptionUsage (args : list string)   (* click.BadOptionUsage(args...) *)
| KrakenInputException (msg : string)
| IndexError
| AttributeError
| UnboundLocalError
| ZeroDivisionError
| ValueError
| OverflowError.

Inductive result (A : Type) : Type :=
| Ok (a : A)
| Raise (e : exn).
Arguments Ok {A} a.
Arguments Raise {A} e.

#[global] Instance result_ret : MRet result := fun _ a => Ok a.

#[global] Instance result_bind : MBind result := fun _ _ k r =>
  match r with
  | Ok a => k a
  | Raise e => Raise e
  end.

(** ** Text primitives *)

Module Text.

Definition text := list ascii.

Definition lit (s : string) : text := list_ascii_of_string s.
Definition show (t : text) : string := string_of_list_ascii t.

(** [str.isspace] on the code points below U+0100. *)
Definition is_space (c : ascii) : bool :=
  let n := N.to_nat (N_of_ascii c) in
  ((9 <=? n) && (n <=? 13) || (28 <=? n) && (n <=? 32)
   || (n =? 133) || (n =? 160))%nat.

(** The class [\d] on the code points below U+0100. *)
Definition is_digit (c : ascii) : bool :=
  let n := N.to_nat (N_of_ascii c) in ((48 <=? n) && (n <=? 57))%nat.

Definition digit_value (c : ascii) : Z := Z.of_N (N_of_ascii c) - 48.

Fixpoint lstrip (s : text) : text :=
  match s with
  | [] => []
  | c :: s' => if is_space c then lstrip s' else s
  end.

Definition rstrip (s : text) : text := rev (lstrip (rev s)).

(** [s.strip()] *)
Definition strip (s : text) : text := rstrip (lstrip s).

(** [s[0]] and [s[-1]]: both raise IndexError on the empty string. *)
Definition first (s : text) : result ascii :=
  match s with
  | [] => Raise IndexError
  | c :: _ => Ok c
  end.

Definition final (s : text) : result ascii :=
  match rev s with
  | [] => Raise IndexError
  | c :: _ => Ok c
  end.

(** [s[1:-1]] *)
Definition inner (s : text) : text := removelast (tl s).

(** [s.split(' ')[0]]: the text up to the first U+0020. *)
Fixpoint first_block (s : text) : text :=
  match s with
  | [] => []
  | c :: s' => if Ascii.eqb c " " then [] else c :: first_block s'
  end.

(** The longest run of digits at the head of [s], and the rest. *)
Fixpoint span_digits (s : text) : text * text :=
  match s with
  | [] => ([], [])
  | c :: s' =>
      if is_digit c
      then let (d, r) := span_digits s' in (c :: d, r)
      else ([], s)
  end.

(** One group [(\d+)]: digits and commas are disjoint, so the greedy
    match is the longest run and never backtracks. *)
Definition re_digits (s : text) : option (text * text) :=
  match span_digits s with
  | ([], _) => None
  | (d, r) => Some (d, r)
  end.

Definition re_comma (s : text) : option text :=
  match s with
  | c :: s' => if Ascii.eqb c "," then Some s' else None
  | [] => None
  end.

(** [int(x)] on a run of decimal digits. *)
Definition int_of_digits (d : text) : Z :=
  fold_left (fun acc c => 10 * acc + digit_value c) d 0.

End Text.

(** ** Geometry resolution (ketos.py, lines 97-128) *)

(** The value bound to [scale]: an integer or a pair. *)
Inductive Scale : Type :=
| ScaleInt (v : Z)
| ScalePair (h w : Z).

Record Geometry : Type := mkGeometry {
  batch : Z;
  height : Z;
  width : Z;
  channels : Z;
  format : Z * Z * Z;
  scale : Scale;
  pad : Z
}.

(** [re.match(r'(\d+),(\d+),(\d+),(\d+)', tok)]: anchored at the start of
    the token only; [m.groups()] on success. *)
Definition re_match_input (tok : Text.text)
  : option (Text.text * Text.text * Text.text * Text.text) :=
  match Text.re_digits tok with
  | None => None
  | Some (g1, r1) =>
    match Text.re_comma r1 with
    | None => None
    | Some r1' =>
      match Text.re_digits r1' with
      | None => None
      | Some (g2, r2) =>
        match Text.re_comma r2 with
        | None => None
        | Some r2' =>
          match Text.re_digits r2' with
          | None => None
          | Some (g3, r3) =>
            match Text.re_comma r3 with
            | None => None
            | Some r3' =>
              match Text.re_digits r3' with
              | None => None
              | Some (g4, _) => Some (g1, g2, g3, g4)
              end
            end
          end
        end
      end
    end
  end.

(** Lines 99-106: strip, bracket test, first block, regular expression,
    conversion of the four groups. *)
Definition preparse (spec : Text.text) : result (Z * Z * Z * Z) :=
  let spec := Text.strip spec in
  c0 ← Text.first spec;
  c1 ← Text.final spec;
  if negb (Ascii.eqb c0 "[") || negb (Ascii.eqb c1 "]")
  then Raise (BadOptionUsage
                [("VGSL spec " ++ Text.show spec ++ " not bracketed")%string])
  else
    let block0 := Text.first_block (Text.inner spec) in
    match re_match_input block0 with
    | None =>
        Raise (BadOptionUsage
                 [("Invalid input spec " ++ Text.show block0)%string])
    | Some (g1, g2, g3, g4) =>
        Ok (Text.int_of_digits g1, Text.int_of_digits g2,
            Text.int_of_digits g3, Text.int_of_digits g4)
    end.

(** [channels in (1, 3)] *)
Definition in_1_3 (c : Z) : bool := (c =? 1) || (c =? 3).

(** Lines 109-128: the [if]/[elif] chain; [pad0] is the [--pad] option. *)
Definition classify (pad0 : Z) (block0 : Text.text) (b h w c : Z)
  : result Geometry :=
  if (h =? 1) && (w =? 0) && (c >? 3) then
    Ok (mkGeometry b h w c (1, 0, 2) (ScaleInt c) pad0)
  else if (h >? 1) && (w =? 0) && in_1_3 c then
    Ok (mkGeometry b h w c (0, 1, 2) (ScaleInt h) pad0)
  else if (h >? 0) && (w >? 0) && in_1_3 c then
    Ok (mkGeometry b h w c (0, 1, 2) (ScalePair h w) 0)
  else if (h =? 0) && (w =? 0) && in_1_3 c then
    Ok (mkGeometry b h w c (0, 1, 2) (ScaleInt 0) 0)
  else
    Raise (BadOptionUsage
             [("Invalid input spec " ++ Text.show block0
               ++ " (variable height and fixed width not supported)")%string]).

Definition block0_of (spec : Text.text) : Text.text :=
  Text.first_block (Text.inner (Text.strip spec)).

Definition resolve (pad0 : Z) (spec : Text.text) : result Geometry :=
  '(b, h, w, c) ← preparse spec;
  classify pad0 (block0_of spec) b h w c.

(** The specification's reading of [scale] and [format]. *)
Inductive scale_mode : Type :=
| NoScale
| ScaleToHeight (v : Z)
| ScaleToFixed (h w : Z).

Definition scale_mode_of (s : Scale) : scale_mode :=
  match s with
  | ScaleInt 0 => NoScale
  | ScaleInt v => ScaleToHeight v
  | ScalePair h w => ScaleToFixed h w
  end.

Definition axis_default : Z * Z * Z := (0, 1, 2).
Definition axis_swapped : Z * Z * Z := (1, 0, 2).

(** ** Python floats and the partition of the ground truth (lines 136-139) *)

Module PyFloat.

(** The binary64 format. *)
Definition prec : Z := 53.
Definition emax : Z := 1024.

Definition mul : spec_float -> spec_float -> spec_float := SFmul prec emax.
Definition valid : spec_float -> bool := valid_binary prec emax.
Definition zero : spec_float := S754_zero false.
Definition one : spec_float := Eval cbv in SFone prec emax.

(** Conversion of a Python [int] operand of a mixed [int * float]
    product: the nearest double, ties to even. *)
Definition of_int (n : Z) : spec_float := binary_normalize prec emax n 0 false.

(** The magnitude [m * 2^e] cut to an integer. *)
Definition trunc_mag (m : positive) (e : Z) : Z :=
  if 0 <=? e then Z.pos m * 2 ^ e else Z.pos m / 2 ^ (- e).

(** [int(x)]: truncation toward zero; NaN and the infinities raise. *)
Definition to_int (x : spec_float) : result Z :=
  match x with
  | S754_nan => Raise ValueError
  | S754_infinity _ => Raise OverflowError
  | S754_zero _ => Ok 0
  | S754_finite s m e => Ok (cond_Zopp s (trunc_mag m e))
  end.

(** [math.floor(x)], the integer the specification names. *)
Definition floor (x : spec_float) : result Z :=
  match x with
  | S754_nan => Raise ValueError
  | S754_infinity _ => Raise OverflowError
  | S754_zero _ => Ok 0
  | S754_finite false m e => Ok (trunc_mag m e)
  | S754_finite true m e =>
      Ok (if 0 <=? e then - (Z.pos m * 2 ^ e) else (- Z.pos m) / 2 ^ (- e))
  end.

(** [0 < x <= 1] on doubles. *)
Definition in_unit_interval (x : spec_float) : bool :=
  valid x && SFltb zero x && SFleb x one.

End PyFloat.

(** A Python slice bound [k] on a sequence of length [n]: negative bounds
    count from the end, and every bound is clipped to [0..n]. *)
Definition slice_bound (k : Z) (n : nat) : nat :=
  if k <? 0 then Z.to_nat (Z.max (k + Z.of_nat n) 0)
  else Z.to_nat (Z.min k (Z.of_nat n)).

(** [l[:k]] and [l[k:]] *)
Definition slice_to {A} (k : Z) (l : list A) : list A :=
  take (slice_bound k (length l)) l.
Definition slice_from {A} (k : Z) (l : list A) : list A :=
  drop (slice_bound k (length l)) l.

(** [x[i], x[j] = x[j], x[i]] on a list; nothing is written when an index
    is out of range (the shuffle below never produces one). *)
Definition swap {A} (l : list A) (i j : nat) : list A :=
  match l !! i, l !! j with
  | Some xi, Some xj => <[j:=xi]> (<[i:=xj]> l)
  | _, _ => l
  end.

(** [np.random.shuffle(x)] on a Python list: the Fisher-Yates loop
    [for i in reversed(range(1, n)): j = rk_interval(i); swap x[i], x[j]],
    with the generator's draw for [i] given by [rk]; [rk_interval(i)]
    lies in [0..i]. *)
Fixpoint shuffle_from {A} (rk : nat -> nat) (i : nat) (l : list A) : list A :=
  match i with
  | O => l
  | S i' => shuffle_from rk i' (swap l i (rk i mod S i))
  end.

Definition shuffle {A} (rk : nat -> nat) (l : list A) : list A :=
  shuffle_from rk (pred (length l)) l.

(** [int(len(ground_truth) * partition)] *)
Definition cut_index (n : nat) (ratio : spec_float) : result Z :=
  PyFloat.to_int (PyFloat.mul (PyFloat.of_int (Z.of_nat n)) ratio).

(** Lines 136-139: shuffle, then the two slices. *)
Definition partition_ground_truth {A} (rk : nat -> nat) (ground_truth : list A)
    (ratio : spec_float) : result (list A * list A) :=
  let ground_truth := shuffle rk ground_truth in
  k ← cut_index (length ground_truth) ratio;
  k' ← cut_index (length ground_truth) ratio;
  Ok (slice_to k ground_truth, slice_from k' ground_truth).

(** 0.9 and 0.7 as doubles. *)
Definition f0_9 : spec_float := S754_finite false 8106479329266893 (-53).
Definition f0_7 : spec_float := S754_finite false 6305039478318694 (-53).

(** ** The command's arguments, its collaborators and its effects *)

Inductive optimizer_name : Type := SGD | Adam | RMSprop.
Inductive normal_form : Type := NFD | NFKD | NFC | NFKC.

(** The parameters of [train], as click passes them.  [savefreq] is a click
    FLOAT; the embedding covers its integral values, on which the float
    remainder [epoch % savefreq] is the integer one. *)
Record Args : Type := mkArgs {
  arg_pad : Z;
  arg_output : string;
  arg_spec : string;
  arg_load : option string;
  arg_savefreq : Z;
  arg_report : Z;
  arg_epochs : Z;
  arg_device : string;
  arg_optimizer : optimizer_name;
  arg_lrate : spec_float;
  arg_wdecay : spec_float;
  arg_partition : spec_float;
  arg_normalization : option normal_form;
  arg_codec : option string;
  arg_reorder : bool;
  arg_ground_truth : list string;
  arg_verbose : Z                       (* ctx.meta['verbose'] *)
}.

(** The answers of numpy, torch and [kraken.lib] on which the control flow
    of [train] depends.  A call that is not listed returns normally. *)
Record World : Type := mkWorld {
  rk_interval : nat -> nat;             (* np.random.shuffle's draws *)
  alphabet : list string -> list string;  (* dataset.alphabet after the adds *)
  codec_size : option string -> list string -> Z;   (* len(gt_set.codec) *)
  n_batches : list string -> nat;       (* len(train_loader) *)
  forward_size2 : Z -> nat -> Z;        (* o.size(2) at (epoch, trial) *)
  save_model : string -> option exn;    (* what nn.save_model(file) raises *)
  compute_error : list string -> Z * Z  (* compute_error(rec, test pairs) *)
}.

Inductive role : Type := TrainSet | TestSet.

(** The keyword arguments of one [GroundTruthDataset(...)] call; [None] for
    [ds_scale] means that the call passes no [scale]. *)
Record DatasetCfg : Type := mkDatasetCfg {
  ds_images : list string;
  ds_normalization : option normal_form;
  ds_reorder : bool;
  ds_scale : option Scale;
  ds_pad : Z;
  ds_format : Z * Z * Z
}.

(** The texts written with [click.echo], by template. *)
Inductive message : Type :=
| MsgBuilding (lines : nat)
| MsgAdding (r : role) (im : string)
| MsgBlank
| MsgSizes
| MsgAlphabetMismatch (diff : list string)
| MsgGraphemeTable                      (* lines 173-179 *)
| MsgEncoding
| MsgLoading (file : string)
| MsgCreating (spec : string) (outputs : nat)
| MsgOptimizer (lr wd : spec_float)
| MsgSaveFailed (e : exn)
| MsgSaving (output : string) (epoch : Z)
| MsgAccuracy (epoch : Z) (accuracy : Z * Z) (c e : Z).

Inductive event : Type :=
| Spin (msg : string)
| Echo (msg : message)
| Tick                                   (* the green check mark *)
| NewDataset (r : role) (cfg : DatasetCfg)
| AddLine (r : role) (im : string)
| NewLoader
| Encode (codec : option string)
| LoadModel (file : string)
| NewModel (spec : string)
| NewOptimizer (kind : optimizer_name) (lr wd : spec_float)
| Forward (epoch : Z) (trial : nat)
| OptimStep (epoch : Z) (trial : nat)
| SaveModel (file : string).

(** The state [train] owns: the loop variable [epoch] (unbound before the
    first iteration) and everything it has done so far, oldest first. *)
Record TrainingState : Type := mkState {
  st_epoch : option Z;
  st_log : list event
}.

Definition init_state : TrainingState := mkState None [].

(** Computations that read and write the state and may raise. *)
Definition M (A : Type) : Type := TrainingState -> result A * TrainingState.

#[global] Instance M_ret : MRet M := fun _ a s => (Ok a, s).

#[global] Instance M_bind : MBind M := fun _ _ k m s =>
  match m s with
  | (Ok a, s') => k a s'
  | (Raise e, s') => (Raise e, s')
  end.

Definition raise {A} (e : exn) : M A := fun s => (Raise e, s).

Definition lift {A} (r : result A) : M A := fun s => (r, s).

Definition emit (ev : event) : M unit :=
  fun s => (Ok tt, mkState (st_epoch s) (st_log s ++ [ev])).

Definition bind_epoch (epoch : Z) : M unit :=
  fun s => (Ok tt, mkState (Some epoch) (st_log s)).

Definition skip : M unit := mret tt.

(** [try: m except Exception as e: h e] *)
Definition try_except {A} (m : M A) (h : exn -> M A) : M A :=
  fun s =>
    match m s with
    | (Ok a, s') => (Ok a, s')
    | (Raise e, s') => h e s'
    end.

(** [for x in l: body x] *)
Fixpoint for_each {A} (l : list A) (body : A -> M unit) : M unit :=
  match l with
  | [] => skip
  | x :: l' => body x;; for_each l' body
  end.

Definition echo (msg : message) : M unit := emit (Echo msg).
Definition spin (msg : string) : M unit := emit (Spin msg).

(** [click.secho('\b✓', ...); click.echo('\033[?25h\n', nl=False)] *)
Definition tick : M unit := emit Tick.

(** ** Python values and operators used by the loop *)

(** Truth value of an optional text option. *)
Definition truthy_str (o : option string) : bool :=
  match o with
  | Some (String _ _) => true
  | _ => false
  end.

(** Truth value of an optional lazy file: the object itself is true. *)
Definition truthy_file (o : option string) : bool :=
  match o with
  | Some _ => true
  | None => false
  end.

(** [a % b] on integers: the sign of the divisor, and an error for 0. *)
Definition py_mod (a b : Z) : result Z :=
  if b =? 0 then Raise ZeroDivisionError else Ok (a mod b).

(** [a / b] under [from __future__ import division]: the quotient, kept as
    the fraction [(a, b)]; an error for 0. *)
Definition py_truediv (a b : Z) : result (Z * Z) :=
  if b =? 0 then Raise ZeroDivisionError else Ok (a, b).

(** The objects on which line 236 calls [.size()]. *)
Inductive pyobj : Type :=
| PStr (s : string)
| PTensor (dims : list Z).

Definition size_method (o : pyobj) : result (list Z) :=
  match o with
  | PTensor dims => Ok dims
  | PStr _ => Raise AttributeError
  end.

(** [set(a).symmetric_difference(set(b))], as a list. *)
Definition symmetric_difference (a b : list string) : list string :=
  filter (fun x => negb (existsb (String.eqb x) b)) a
  ++ filter (fun x => negb (existsb (String.eqb x) a)) b.

(** ** The [train] command (lines 88-255) *)

(** ['{}'.format(n)] for an integer. *)
Definition str_of_Z (n : Z) : string :=
  DecimalString.NilZero.string_of_int (Z.to_int n).

Section Train.

Variable w : World.
Variable a : Args.

Let verbose := arg_verbose a.

(** Lines 94-95. *)
Definition check_options : M unit :=
  if truthy_str (arg_load a) && truthy_file (arg_codec a)
  then raise (BadOptionUsage
                ["codec"; "codec option is not supported when loading model"]%string)
  else skip.

(** Lines 141-150: the training corpus. *)
Definition build_train_set (g : Geometry) (tr_im : list string) : M unit :=
  emit (NewDataset TrainSet
          (mkDatasetCfg tr_im (arg_normalization a) (arg_reorder a)
                        (Some (scale g)) (pad g) (format g)));;
  for_each tr_im (fun im =>
    (if verbose >? 1 then echo (MsgAdding TrainSet im)
     else spin "Building training set");;
    emit (AddLine TrainSet im));;
  (if negb (verbose >? 0) then tick else skip).

(** Lines 154-163: the test corpus. *)
Definition build_test_set (g : Geometry) (te_im : list string) : M unit :=
  emit (NewDataset TestSet
          (mkDatasetCfg te_im (arg_normalization a) (arg_reorder a)
                        None (pad g) (format g)));;
  for_each te_im (fun im =>
    (if verbose >? 1 then echo (MsgAdding TestSet im)
     else spin "Building test set");;
    emit (AddLine TestSet im));;
  (if negb (verbose >? 0) then tick else skip).

(** Lines 165-190: sizes, alphabet comparison, encoding.  The name [im]
    read on line 186 is bound only if one of the two loops above ran. *)
Definition report_and_encode (tr_im te_im : list string) : M unit :=
  (if verbose =? 0 then echo MsgBlank else skip);;
  (if verbose >? 0 then echo MsgSizes else skip);;
  (let alpha_diff :=
     symmetric_difference (alphabet w tr_im) (alphabet w te_im) in
   match alpha_diff with
   | [] => skip
   | _ :: _ => echo (MsgAlphabetMismatch alpha_diff)
   end);;
  (if verbose >? 1 then echo MsgGraphemeTable else skip);;
  (if verbose =? 0 then tick else skip);;
  (if verbose >? 1 then
     match tr_im, te_im with
     | [], [] => raise UnboundLocalError
     | _, _ => echo MsgEncoding
     end
   else skip);;
  emit (Encode (arg_codec a)).

(** Lines 192-221: the network, loaded or created. *)
Definition make_model (spec : Text.text) (tr_im : list string) : M unit :=
  if truthy_str (arg_load a) then
    let file := default ""%string (arg_load a) in
    (if verbose >? 0 then echo (MsgLoading file) else spin "Loading model");;
    emit (LoadModel file);;
    (if negb (verbose >? 0) then tick else skip)
  else
    (if verbose >? 0
     then echo (MsgCreating (Text.show spec) (length (alphabet w tr_im)))
     else spin "Initializing model");;
    emit (NewModel ("[" ++ Text.show (Text.inner spec) ++ " O1c"
                    ++ str_of_Z (codec_size w (arg_codec a) tr_im)
                    ++ "]")%string);;
    (if verbose =? 0 then tick else skip).

(** Lines 223-228: the optimizer is built by [Adam(...)]; the parameter
    [optimizer] of the command is rebound here without being read. *)
Definition make_optimizer : M unit :=
  (if verbose >? 0
   then echo (MsgOptimizer (arg_lrate a) (arg_wdecay a)) else skip);;
  emit (NewOptimizer Adam (arg_lrate a) (arg_wdecay a)).

(** Lines 231-242: one pass over the loader. *)
Definition train_epoch (tr_im : list string) (epoch : Z) : M unit :=
  for_each (seq 0 (n_batches w tr_im)) (fun trial =>
    emit (Forward epoch trial);;
    (if negb (forward_size2 w epoch trial =? 1) then
       actual ← lift (size_method (PStr (arg_output a)));
       raise (KrakenInputException
                ("Expected dimension 3 to be 1, actual "
                 ++ String.concat ", " (map str_of_Z actual))%string)
     else skip);;
    emit (OptimStep epoch trial);;
    spin "Training").

(** ['{}_{}.mlmodel'.format(output, epoch)] *)
Definition checkpoint_file (epoch : Z) : string :=
  (arg_output a ++ "_" ++ str_of_Z epoch ++ ".mlmodel")%string.

(** Lines 243-250: the checkpoint. *)
Definition checkpoint (epoch : Z) : M unit :=
  if epoch =? 0 then skip
  else
    r ← lift (py_mod epoch (arg_savefreq a));
    if r =? 0 then
      let file := checkpoint_file epoch in
      try_except
        (match save_model w file with
         | Some e => raise e
         | None => emit (SaveModel file)
         end)
        (fun e => echo (MsgSaveFailed e));;
      (if verbose >? 0
       then echo MsgBlank;; echo (MsgSaving (arg_output a) epoch)
       else skip)
    else skip.

(** Lines 251-255: the accuracy report.  [test_set.training_set] is the
    list that [zip] returned on line 190, the same at every report. *)
Definition accuracy_report (te_im : list string) (epoch : Z) : M unit :=
  if epoch =? 0 then skip
  else
    r ← lift (py_mod epoch (arg_report a));
    if r =? 0 then
      let '(c, e) := compute_error w te_im in
      (if verbose <? 3 then echo MsgBlank else skip);;
      acc ← lift (py_truediv (c - e) c);
      echo (MsgAccuracy epoch acc c e)
    else skip.

(** Lines 230-255. *)
Definition training_loop (tr_im te_im : list string) : M unit :=
  for_each (seqZ 0 (arg_epochs a)) (fun epoch =>
    bind_epoch epoch;;
    train_epoch tr_im epoch;;
    checkpoint epoch;;
    accuracy_report te_im epoch).

(** Lines 94-228: everything before the loop; the two halves of the ground
    truth are what the loop needs of it. *)
Definition setup : M (list string * list string) :=
  check_options;;
  g ← lift (resolve (arg_pad a) (Text.lit (arg_spec a)));
  let spec := Text.strip (Text.lit (arg_spec a)) in
  (if verbose >? 0
   then echo (MsgBuilding (length (arg_ground_truth a)))
   else spin "Building training set");;
  '(tr_im, te_im) ←
    lift (partition_ground_truth (rk_interval w) (arg_ground_truth a)
                                 (arg_partition a));
  build_train_set g tr_im;;
  emit NewLoader;;
  build_test_set g te_im;;
  report_and_encode tr_im te_im;;
  make_model spec tr_im;;
  make_optimizer;;
  mret (tr_im, te_im).

Definition train : M unit :=
  '(tr_im, te_im) ← setup;
  training_loop tr_im te_im.

End Train.

(** Running the command from the initial state. *)
Definition run (w : World) (a : Args) : result unit * TrainingState :=
  train w a init_state.

(** The same world, except for what [nn.save_model] does. *)
Definition with_save (f : string -> option exn) (w : World) : World :=
  mkWorld (rk_interval w) (alphabet w) (codec_size w) (n_batches w)
          (forward_size2 w) f (compute_error w).

(** The same arguments, except for [--optimizer]. *)
Definition with_optimizer (o : optimizer_name) (a : Args) : Args :=
  mkArgs (arg_pad a) (arg_output a) (arg_spec a) (arg_load a)
         (arg_savefreq a) (arg_report a) (arg_epochs a) (arg_device a) o
         (arg_lrate a) (arg_wdecay a) (arg_partition a)
         (arg_normalization a) (arg_codec a) (arg_reorder a)
         (arg_ground_truth a) (arg_verbose a).

(** Projections of the log. *)
Definition is_save_event (ev : event) : bool :=
  match ev with
  | SaveModel _ | Echo (MsgSaveFailed _) => true
  | _ => false
  end.

(** The log without what the checkpoints wrote. *)
Definition without_saves (log : list event) : list event :=
  List.filter (fun ev => negb (is_save_event ev)) log.

Definition is_training_step (ev : event) : bool :=
  match ev with
  | Forward _ _ | OptimStep _ _ => true
  | _ => false
  end.

Definition training_steps (log : list event) : list event :=
  List.filter is_training_step log.

(** The dataset constructions of a log, in order. *)
Definition datasets (log : list event) : list (role * DatasetCfg) :=
  omap (fun ev => match ev with
                  | NewDataset r cfg => Some (r, cfg)
                  | _ => None
                  end) log.

(** ** Worlds and arguments used in the examples *)

(** An evaluation that adds up, over the lines of the test corpus, the
    characters and the errors that [score] finds on each line. *)
Definition tally (score : string -> Z * Z) (pairs : list string) : Z * Z :=
  foldl (fun acc im => (acc.1 + (score im).1, acc.2 + (score im).2)) (0, 0)
        pairs.

(** A world in which every forward pass has the expected shape, every save
    succeeds and every line scores five characters with one error. *)
Definition quiet_world : World :=
  mkWorld (fun _ => 0%nat) (fun _ => []) (fun _ _ => 10)
          (fun l => length l) (fun _ _ => 1) (fun _ => None)
          (tally (fun _ => (5, 1))).

(** The defaults of the command's options, three epochs. *)
Definition default_args (ground_truth : list string) : Args :=
  mkArgs 16 "model" "[1,1,0,48 Lbx100]" None 1 1 3 "cpu" SGD
         (S754_finite false 1 (-10)) (S754_zero false) f0_9 None None true
         ground_truth 0.

Definition ten_lines : list string :=
  ["a"; "b"; "c"; "d"; "e"; "f"; "g"; "h"; "i"; "j"]%string.

(** A world whose first forward pass yields a tensor of height 2. *)
Definition tall_output_world : World :=
  mkWorld (fun _ => 0%nat) (fun _ => []) (fun _ _ => 10)
          (fun l => length l) (fun _ _ => 2) (fun _ => None)
          (tally (fun _ => (5, 1))).

(** A world in which every save fails. *)
Definition full_disk_world : World :=
  with_save (fun _ => Some (KrakenInputException "disk full")) quiet_world.

(** The whole ground truth goes to training: [--partition 1.0]. *)
Definition no_test_args (ground_truth : list string) : Args :=
  mkArgs 16 "model" "[1,1,0,48 Lbx100]" None 1 1 3 "cpu" SGD
         (S754_finite false 1 (-10)) (S754_zero false) PyFloat.one None None
         true ground_truth 0.

(** A model to load and a codec, together. *)
Definition load_and_codec_args : Args :=
  mkArgs 16 "model" "[1,1,0,48 Lbx100]" (Some "old.mlmodel"%string) 1 1 3
         "cpu" SGD (S754_finite false 1 (-10)) (S754_zero false) f0_9 None
         (Some "codec.json"%string) true ten_lines 0.

(** ** The specification's notion of a malformed descriptor

    These definitions follow the wording of the specification, not the
    code; they are compared with [resolve] below. *)

(** The pieces of a token between its commas. *)
Fixpoint split_commas (s : Text.text) : list Text.text :=
  match s with
  | [] => [[]]
  | c :: s' =>
      if Ascii.eqb c ","
      then [] :: split_commas s'
      else match split_commas s' with
           | p :: ps => (c :: p) :: ps
           | [] => [[c]]
           end
  end.

Definition is_integer (d : Text.text) : bool :=
  match d with
  | [] => false
  | _ => forallb Text.is_digit d
  end.

(** "four comma-separated non-negative integers" *)
Definition spec_four_integers (tok : Text.text) : bool :=
  match split_commas tok with
  | [g1; g2; g3; g4] =>
      is_integer g1 && is_integer g2 && is_integer g3 && is_integer g4
  | _ => false
  end.

(** "wrapped in a matching pair of bracket delimiters" *)
Definition bracketed (s : Text.text) : bool :=
  match s, rev s with
  | c0 :: _, c1 :: _ => Ascii.eqb c0 "[" && Ascii.eqb c1 "]"
  | _, _ => false
  end.

(** The four recognised cases of section 4.1. *)
Definition case1 (h w c : Z) : Prop := h = 1 /\ w = 0 /\ 3 < c.
Definition case2 (h w c : Z) : Prop := 1 < h /\ w = 0 /\ (c = 1 \/ c = 3).
Definition case3 (h w c : Z) : Prop := 0 < h /\ 0 < w /\ (c = 1 \/ c = 3).
Definition case4 (h w c : Z) : Prop := h = 0 /\ w = 0 /\ (c = 1 \/ c = 3).

Definition recognised (h w c : Z) : Prop :=
  case1 h w c \/ case2 h w c \/ case3 h w c \/ case4 h w c.

(** A descriptor is malformed, in the words of the specification, when it
    is not bracketed, or its leading token is not four integers, or the
    integers match no case. *)
Definition spec_malformed (spec : Text.text) : Prop :=
  let s := Text.strip spec in
  bracketed s = false
  \/ spec_four_integers (Text.first_block (Text.inner s)) = false
  \/ (exists b h w c, preparse spec = Ok (b, h, w, c) /\ ~ recognised h w c).

(** What the regular expression of line 103 asks of the leading token: to
    begin with four comma-separated integers. *)
Definition begins_with_four_integers (tok : Text.text) : bool :=
  match re_match_input tok with
  | Some _ => true
  | None => false
  end.

(** A configuration error of click. *)
Definition is_config_error {A} (r : result A) : Prop :=
  exists args, r = Raise (BadOptionUsage args).

(** ** Notions used in the proofs about the loop *)

(** Every step of [train] other than the binding of the loop variable acts
    on the state in one way only: it appends to the log.  Its result and
    what it appends do not depend on the state it starts from. *)
Definition oblivious {A} (m : M A) : Prop :=
  exists r evs, forall s, m s = (r, mkState (st_epoch s) (st_log s ++ evs)).

(** Two states that differ at most in what the checkpoints wrote. *)
Definition same_apart_from_saves (s s' : TrainingState) : Prop :=
  st_epoch s = st_epoch s'
  /\ without_saves (st_log s) = without_saves (st_log s').

(** Two computations that, from such states, give the same result and end
    in such states. *)
Definition sim {A} (m m' : M A) : Prop :=
  forall s s', same_apart_from_saves s s' ->
    (m s).1 = (m' s').1 /\ same_apart_from_saves (m s).2 (m' s').2.

(** The value of the loop variable after [range(n)] has been run through. *)
Definition last_epoch (n : Z) : option Z :=
  if 0 <? n then Some (n - 1) else None.

(** ** Notions used in the proofs about rounding *)

(** [m * 2^e <= N], for an integer [N], without leaving [Z]. *)
Definition le_pow (m e N : Z) : Prop :=
  (0 <= e -> m * 2 ^ e <= N) /\ (e < 0 -> m <= N * 2 ^ (- e)).

(** What [n] right shifts do to a record: the mantissa is divided by
    [2^n], and a round or sticky bit is set only if something was lost. *)
Definition shr_inv (n : Z) (x y : shr_record) : Prop :=
  0 <= shr_m y
  /\ shr_m y = shr_m x / 2 ^ n
  /\ (shr_r y || shr_s y = true ->
      shr_m x mod 2 ^ n <> 0 \/ shr_r x || shr_s x = true).

(** * Further notions, for the properties beyond the claims *)

(** A text that begins with something other than a digit, or is empty. *)
Definition no_leading_digit (s : Text.text) : bool :=
  match s with
  | [] => true
  | c :: _ => negb (Text.is_digit c)
  end.

(** The token made of four groups, their commas and a suffix. *)
Definition four_groups (g1 g2 g3 g4 suffix : Text.text) : Text.text :=
  g1 ++ ","%char :: g2 ++ ","%char :: g3 ++ ","%char :: g4 ++ suffix.

(** A text without U+0020. *)
Definition no_space (s : Text.text) : bool :=
  forallb (fun c => negb (Ascii.eqb c " ")) s.

(** [epoch] is a boundary of the frequency [freq] in a run of [epochs]
    epochs: the tests of lines 243 and 251 pass. *)
Definition boundary (epochs freq epoch : Z) : Prop :=
  0 < epoch < epochs /\ freq <> 0 /\ epoch mod freq = 0.

(** A computation all of whose additions to the log satisfy [P]. *)
Definition emits {A} (P : event -> Prop) (m : M A) : Prop :=
  forall s, exists evs, st_log (m s).2 = st_log s ++ evs /\ Forall P evs.

(** What can be said of every entry of the log of [train w a]. *)
Definition log_invariant (w : World) (a : Args) (ev : event) : Prop :=
  match ev with
  | SaveModel file =>
      exists epoch, boundary (arg_epochs a) (arg_savefreq a) epoch
                    /\ file = checkpoint_file a epoch
                    /\ save_model w file = None
  | Echo (MsgSaveFailed e) =>
      exists epoch, boundary (arg_epochs a) (arg_savefreq a) epoch
                    /\ save_model w (checkpoint_file a epoch) = Some e
  | Echo (MsgAccuracy epoch acc c e) =>
      boundary (arg_epochs a) (arg_report a) epoch
      /\ c <> 0 /\ acc = (c - e, c)
  | Forward epoch _ | OptimStep epoch _ => 0 <= epoch < arg_epochs a
  | _ => True
  end.

(** The same arguments, except for [--epochs], [--savefreq] or [--report],
    or for the ground truth and the verbosity. *)
Definition with_epochs (n : Z) (a : Args) : Args :=
  mkArgs (arg_pad a) (arg_output a) (arg_spec a) (arg_load a)
         (arg_savefreq a) (arg_report a) n (arg_device a) (arg_optimizer a)
         (arg_lrate a) (arg_wdecay a) (arg_partition a)
         (arg_normalization a) (arg_codec a) (arg_reorder a)
         (arg_ground_truth a) (arg_verbose a).

Definition with_frequencies (savefreq report : Z) (a : Args) : Args :=
  mkArgs (arg_pad a) (arg_output a) (arg_spec a) (arg_load a)
         savefreq report (arg_epochs a) (arg_device a) (arg_optimizer a)
         (arg_lrate a) (arg_wdecay a) (arg_partition a)
         (arg_normalization a) (arg_codec a) (arg_reorder a)
         (arg_ground_truth a) (arg_verbose a).

Definition with_verbose (v : Z) (a : Args) : Args :=
  mkArgs (arg_pad a) (arg_output a) (arg_spec a) (arg_load a)
         (arg_savefreq a) (arg_report a) (arg_epochs a) (arg_device a)
         (arg_optimizer a) (arg_lrate a) (arg_wdecay a) (arg_partition a)
         (arg_normalization a) (arg_codec a) (arg_reorder a)
         (arg_ground_truth a) v.

Definition with_spec (spec : string) (a : Args) : Args :=
  mkArgs (arg_pad a) (arg_output a) spec (arg_load a)
         (arg_savefreq a) (arg_report a) (arg_epochs a) (arg_device a)
         (arg_optimizer a) (arg_lrate a) (arg_wdecay a) (arg_partition a)
         (arg_normalization a) (arg_codec a) (arg_reorder a)
         (arg_ground_truth a) (arg_verbose a).

(** A double that is neither NaN nor infinite. *)
Definition is_finite_float (x : spec_float) : bool :=
  match x with
  | S754_zero _ | S754_finite _ _ _ => true
  | _ => false
  end.

(** [N <= m * 2^e], for an integer [N], without leaving [Z]. *)
Definition ge_pow (m e N : Z) : Prop :=
  (0 <= e -> N <= m * 2 ^ e) /\ (e < 0 -> N * 2 ^ (- e) <= m).

(** [1 <= x < infinity] on doubles. *)
Definition at_least_one (x : spec_float) : bool :=
  PyFloat.valid x && SFleb PyFloat.one x && is_finite_float x.

(** A computation that raises nothing but exceptions satisfying [P]. *)
Definition raises {A} (P : exn -> Prop) (m : M A) : Prop :=
  forall s e, (m s).1 = Raise e -> P e.


(** * The [extract] command (lines 258-326) *)

From Stdlib Require DecimalPos.

(** ['{:06d}'.format(idx)] for a counter that starts at 0 and goes up:
    the decimal digits, with zeros in front up to six characters. *)
Fixpoint zeros (k : nat) : string :=
  match k with
  | O => EmptyString
  | S k' => String "0" (zeros k')
  end.

Definition fmt06 (idx : nat) : string :=
  let digits := str_of_Z (Z.of_nat idx) in
  (zeros (6 - String.length digits) ++ digits)%string.

(** The number that a string of decimal digits denotes. *)
Definition decode (s : string) : N :=
  match NilEmpty.uint_of_string s with
  | Some d => Pos.of_uint d
  | None => 0%N
  end.

Module Extract.

(** The exceptions that the libraries and the file system raise here. *)
Inductive error : Type :=
| KeyError
| IndexError
| ValueError
| AttributeError
| IOError (msg : string)
| OtherError (name : string).

Inductive outcome (A : Type) : Type :=
| Done (a : A)
| Failed (e : error).

Arguments Done {A} a.
Arguments Failed {A} e.

(** What the command reads of one [li] element: the attribute
    [contenteditable], the joined text, and the outcome of line 306 (the
    attribute [data-bbox] converted to integers and handed to [crop]). *)
Record Li : Type := mkLi {
  contenteditable : option string;
  li_text : string;
  bbox : outcome (list Z)
}.

(** A page image as [Image.open] returns it, with its truth value. *)
Record Page : Type := mkPage {
  page_id : string;
  page_truthy : bool
}.

(** A [section]: the outcome of lines 297-299 and its [li] elements. *)
Record Section : Type := mkSection {
  image : outcome Page;
  lis : list Li
}.

(** A transcription file: its name, the outcome of lines 287-293 (the
    text direction, or the exception of parsing or of a [meta] element
    without [content]) and its sections. *)
Record Doc : Type := mkDoc {
  doc_name : string;
  text_direction : outcome string;
  sections : list Section
}.

Record Args : Type := mkArgs {
  normalization : option normal_form;
  reorder : bool;
  rotate : bool;
  output : string;
  transcribs : list Doc;
  verbose : Z
}.

(** unicodedata and python-bidi, and the file system: what saving an
    image under a name, and writing a text under a name, answer. *)
Record World : Type := mkWorld {
  normalize : normal_form -> string -> string;
  get_display : string -> string;
  save_png : string -> option error;
  write_file : string -> string -> option error
}.

Inductive message : Type :=
| MsgReading (name : string)
| MsgSkipping (name : string)
| MsgExtracted (lines : nat).

Inductive event : Type :=
| MkDir (dir : string)
| Spin (msg : string)
| Echo (msg : message)
| Rotate (page : string)                  (* im.rotate(90, expand=True) *)
| SavePng (file : string) (page : string) (box : list Z)
| WriteGt (file : string) (content : string)
| WriteManifest (file : string) (content : string)
| Tick.

(** The local variables [idx] and [manifest], and what has been done. *)
Record State : Type := mkState {
  idx : nat;
  manifest : list string;
  log : list event
}.

Definition init : State := mkState 0 [] [].

(** Computations over that state that may raise, as [M] is for [train]. *)
Definition EM (A : Type) : Type := State -> outcome A * State.

#[local] Instance EM_ret : MRet EM := fun _ a s => (Done a, s).

#[local] Instance EM_bind : MBind EM := fun _ _ k m s =>
  match m s with
  | (Done a, s') => k a s'
  | (Failed e, s') => (Failed e, s')
  end.

Definition lift {A} (r : outcome A) : EM A := fun s => (r, s).

Definition emit (ev : event) : EM unit :=
  fun s => (Done tt, mkState (idx s) (manifest s) (log s ++ [ev])).

(** An action of the file system: it raises, or it is done. *)
Definition attempt (failure : option error) (ev : event) : EM unit :=
  match failure with
  | Some e => lift (Failed e)
  | None => emit ev
  end.

Definition get_idx : EM nat := fun s => (Done (idx s), s).

(** [manifest.append(name)] *)
Definition manifest_append (name : string) : EM unit :=
  fun s => (Done tt, mkState (idx s) (manifest s ++ [name]) (log s)).

(** [idx += 1] *)
Definition incr_idx : EM unit :=
  fun s => (Done tt, mkState (S (idx s)) (manifest s) (log s)).

Definition get_manifest : EM (list string) :=
  fun s => (Done (manifest s), s).

Definition png_name (i : nat) : string := (fmt06 i ++ ".png")%string.

Definition png_path (out : string) (i : nat) : string :=
  (out ++ "/" ++ fmt06 i ++ ".png")%string.

Definition gt_path (out : string) (i : nat) : string :=
  (out ++ "/" ++ fmt06 i ++ ".gt.txt")%string.

Definition manifest_path (out : string) : string :=
  (out ++ "/manifest.txt")%string.

(** The test of line 305. *)
Definition kept (line : Li) : bool :=
  truthy_str (contenteditable line)
  && negb (String.eqb (li_text line) "").

Section Command.

Variable w : World.
Variable a : Args.

(** What is written to the [.gt.txt] file (lines 311-318). *)
Definition gt_content (line : Li) : string :=
  let text := li_text line in
  let text := match normalization a with
              | Some nf => normalize w nf text
              | None => text
              end in
  if reorder a then get_display w text else text.

(** Lines 305-319: one [li] element. *)
Definition do_line (td : string) (im : Page) (line : Li) : EM unit :=
  if kept line then
    box ← lift (bbox line);
    (if rotate a && String.prefix "vertical" td
     then emit (Rotate (page_id im)) else mret tt);;
    i ← get_idx;
    attempt (save_png w (png_path (output a) i))
            (SavePng (png_path (output a) i) (page_id im) box);;
    manifest_append (png_name i);;
    attempt (write_file w (gt_path (output a) i) (gt_content line))
            (WriteGt (gt_path (output a) i) (gt_content line));;
    incr_idx
  else mret tt.

Fixpoint do_lines (td : string) (im : Page) (lines : list Li) : EM unit :=
  match lines with
  | [] => mret tt
  | line :: rest => do_line td im line;; do_lines td im rest
  end.

(** Lines 296-319: the sections of one file; a page that is false ends
    the loop ([break]). *)
Fixpoint do_sections (name td : string) (secs : list Section) : EM unit :=
  match secs with
  | [] => mret tt
  | sec :: rest =>
      im ← lift (image sec);
      if negb (page_truthy im) then
        (if verbose a >? 0 then emit (Echo (MsgSkipping name)) else mret tt)
      else
        do_lines td im (lis sec);;
        do_sections name td rest
  end.

(** Lines 282-319: one transcription file. *)
Definition do_doc (doc : Doc) : EM unit :=
  (if verbose a >? 0 then emit (Echo (MsgReading (doc_name doc)))
   else emit (Spin "Reading transcription"));;
  td ← lift (text_direction doc);
  do_sections (doc_name doc) td (sections doc).

Fixpoint do_docs (docs : list Doc) : EM unit :=
  match docs with
  | [] => mret tt
  | doc :: rest => do_doc doc;; do_docs rest
  end.

(** ['\n'.join(manifest)] *)
Definition manifest_text (names : list string) : string :=
  String.concat (String "010" "") names.

(** Lines 320-326: the count, the manifest and the final tick. *)
Definition finish : EM unit :=
  i ← get_idx;
  (if verbose a >? 0 then emit (Echo (MsgExtracted i)) else mret tt);;
  m ← get_manifest;
  attempt (write_file w (manifest_path (output a)) (manifest_text m))
          (WriteManifest (manifest_path (output a)) (manifest_text m));;
  (if verbose a =? 0 then emit Tick else mret tt).

Definition extract : EM unit :=
  emit (MkDir (output a));;
  do_docs (transcribs a);;
  finish.

End Command.

Definition run (w : World) (a : Args) : outcome unit * State :=
  extract w a init.

(** The image files, the text files and the manifests of a log, in the
    order of writing. *)
Definition pngs (l : list event) : list string :=
  omap (fun ev => match ev with SavePng f _ _ => Some f | _ => None end) l.

Definition gts (l : list event) : list (string * string) :=
  omap (fun ev => match ev with WriteGt f c => Some (f, c) | _ => None end) l.

Definition manifests (l : list event) : list (string * string) :=
  omap (fun ev => match ev with
                  | WriteManifest f c => Some (f, c)
                  | _ => None
                  end) l.

(** The [li] elements that a file contributes: those that pass the test
    of line 305, in the sections before the first page that is false. *)
Fixpoint reached (secs : list Section) : list Li :=
  match secs with
  | [] => []
  | sec :: rest =>
      match image sec with
      | Done im => if page_truthy im
                 then List.filter kept (lis sec) ++ reached rest
                 else []
      | Failed _ => []
      end
  end.

Definition extractable (docs : list Doc) : list Li :=
  concat (map (fun d => reached (sections d)) docs).

(** The text files expected for lines numbered from [i]. *)
Definition texts_from (w : World) (a : Args) (i : nat) (lines : list Li)
  : list (string * string) :=
  imap (fun j line => (gt_path (output a) (i + j), gt_content w a line)) lines.

(** A world where nothing fails and the libraries change nothing. *)
Definition plain_world : World :=
  mkWorld (fun _ s => s) (fun s => s) (fun _ => None) (fun _ _ => None).

(** A world whose disk refuses the third image. *)
Definition third_image_fails : World :=
  mkWorld (fun _ s => s) (fun s => s)
          (fun f => if String.eqb f "out/000002.png"
                    then Some (IOError "disk full") else None)
          (fun _ _ => None).

(** [s'] is [s] after the lines [K] have been extracted: each of them has
    got the next number, an image, an entry of the manifest and a text. *)
Definition extends (w : World) (a : Args) (s s' : State) (K : list Li)
  : Prop :=
  idx s' = (idx s + length K)%nat
  /\ manifest s' = manifest s ++ map png_name (seq (idx s) (length K))
  /\ pngs (log s')
     = pngs (log s) ++ map (png_path (output a)) (seq (idx s) (length K))
  /\ gts (log s') = gts (log s) ++ texts_from w a (idx s) K
  /\ manifests (log s') = manifests (log s).

(** [s'] is [s] after a failure: some images and texts have been written
    under the next numbers, and no manifest. *)
Definition stalls (a : Args) (s s' : State) : Prop :=
  exists k k' : nat,
    (k' <= k)%nat
    /\ pngs (log s')
       = pngs (log s) ++ map (png_path (output a)) (seq (idx s) k)
    /\ map fst (gts (log s'))
       = map fst (gts (log s)) ++ map (gt_path (output a)) (seq (idx s) k')
    /\ manifests (log s') = manifests (log s).

(** A part of the command that extracts the lines [K] when it returns. *)
Definition sound (w : World) (a : Args) (m : EM unit) (K : list Li) : Prop :=
  forall s,
    match m s with
    | (Done _, s') => extends w a s s' K
    | (Failed _, s') => stalls a s s'
    end.

(** The events that write no file. *)
Definition writes_nothing (ev : event) : bool :=
  match ev with
  | SavePng _ _ _ | WriteGt _ _ | WriteManifest _ _ => false
  | _ => true
  end.

(** A log without the calls of [im.rotate]. *)
Definition without_rotations (l : list event) : list event :=
  List.filter (fun ev => match ev with Rotate _ => false | _ => true end) l.

Definition with_rotate (b : bool) (a : Args) : Args :=
  mkArgs (normalization a) (reorder a) b (output a) (transcribs a)
         (verbose a).

(** Two states that differ by calls of [im.rotate] only, and two parts of
    the command that keep them so and end alike. *)
Definition same_files (s1 s2 : State) : Prop :=
  idx s1 = idx s2 /\ manifest s1 = manifest s2
  /\ without_rotations (log s1) = without_rotations (log s2).

Definition agree (m1 m2 : EM unit) : Prop :=
  forall s1 s2, same_files s1 s2 ->
    (m1 s1).1 = (m2 s2).1 /\ same_files (m1 s1).2 (m2 s2).2.

(** Two files: the first has a page with three lines, one of them not
    transcribed, then a page that is false and a page that is never reached;
    the second has one page with one line. *)
Definition two_files : list Doc :=
  ([ mkDoc "a.html" (Done "horizontal-tb")
      [ mkSection (Done (mkPage "a1" true))
          [ mkLi (Some "true") "first" (Done [0; 0; 10; 10]);
            mkLi (Some "true") "" (Done [0; 10; 10; 20]);
            mkLi (Some "true") "second" (Done [0; 20; 10; 30]) ];
        mkSection (Done (mkPage "a2" false))
          [ mkLi (Some "true") "lost" (Done [0; 0; 10; 10]) ];
        mkSection (Done (mkPage "a3" true))
          [ mkLi (Some "true") "lost too" (Done [0; 0; 10; 10]) ] ];
    mkDoc "b.html" (Done "vertical-rl")
      [ mkSection (Done (mkPage "b1" true))
          [ mkLi (Some "true") "third" (Done [0; 0; 10; 10]) ] ] ])%string.

Definition example_args : Args :=
  mkArgs None false true "out" two_files 0.

End Extract.

(** * The [linegen] command (lines 405-548) *)

Module Linegen.

(** A text is a sequence of code points. *)
Definition text : Type := list N.

Definition image : Type := string.

Inductive error : Type :=
| KrakenCairoSurfaceException (msg : string) (width height : Z)
| KrakenInputException (msg : string)
| OSError (errno : Z)
| ValueError
| IndexError
| OtherError (name : string).

Inductive outcome (A : Type) : Type :=
| Done (a : A)
| Failed (e : error).

Arguments Done {A} a.
Arguments Failed {A} e.

(** [errno.EEXIST] *)
Definition EEXIST : Z := 17.

(** The parameters that the command reads itself; the encoding and the
    parameters of the noise are only handed on to the libraries. *)
Record Args : Type := mkArgs {
  font : string;
  maxlines : Z;
  normalization : option normal_form;
  renormalize : option normal_form;
  reorder : bool;
  font_size : Z;
  font_weight : Z;
  language : option string;
  max_length : option Z;
  strip : bool;
  disable_degradation : bool;
  binarize : bool;
  legacy : bool;
  output : string;
  texts : list string;
  verbose : Z
}.

(** The files, the Unicode database, the random numbers, the order in which
    a set is iterated, the renderer and the file system.  The renderer, the
    degradations and the binarization are asked once for each line, and may
    answer differently each time: they are given the number of the line. *)
Record World : Type := mkWorld {
  open_file : string -> option error;
  readlines : string -> outcome (list text);
  normalize : normal_form -> text -> text;
  is_space : N -> bool;
  combining : N -> Z;
  char_name : N -> outcome string;
  iteration : list text -> list text;
  randint : nat -> Z -> outcome (list Z);   (* np.random.randint(0, high, size) *)
  makedirs : string -> option error;
  new_generator : option error;
  render_line : nat -> text -> outcome image;
  distort_line : nat -> image -> outcome image;
  degrade_line : nat -> image -> outcome image;
  ocropy_degrade : nat -> image -> outcome image;
  nlbin : nat -> image -> outcome image;
  get_display : text -> text;
  save_png : string -> image -> option error;
  write_file : string -> text -> option error
}.

Inductive message : Type :=
| MsgReading (file : string)
| MsgRead (lines : nat)
| MsgReadUnique (lines : nat)
| MsgSampling (lines : Z)
| MsgAlphabet (size : nat)
| MsgSymbols (chars : text)
| MsgCombining (names : list string)
| MsgLine (line : text)
| MsgSurface (msg : string) (width height : Z)
| MsgText (msg : string).

Inductive event : Type :=
| Spin (msg : string)
| Echo (msg : message)
| Tick                                   (* the check mark over the spinner *)
| CheckMark                              (* the check mark of line 487 *)
| Cross                                  (* the red cross *)
| MakeDirs (dir : string)
| NewGenerator (font : string) (size weight : Z) (language : option string)
| SavePng (file : string) (im : image)
| WriteGt (file : string) (content : text).

(** A computation: what it returns or raises, and what it has done. *)
Definition LM (A : Type) : Type := outcome A * list event.

#[local] Instance LM_ret : MRet LM := fun _ a => (Done a, []).

#[local] Instance LM_bind : MBind LM := fun _ _ k m =>
  match m with
  | (Done a, l) => let (r, l') := k a in (r, l ++ l')
  | (Failed e, l) => (Failed e, l)
  end.

Definition lift {A} (r : outcome A) : LM A := (r, []).

Definition raise {A} (e : error) : LM A := (Failed e, []).

Definition emit (ev : event) : LM unit := (Done tt, [ev]).

(** An action of the file system: it raises, or it is done. *)
Definition attempt (failure : option error) (ev : event) : LM unit :=
  match failure with
  | Some e => raise e
  | None => emit ev
  end.

(** [line.strip()], with the white space of the Unicode database. *)
Fixpoint lstrip (sp : N -> bool) (s : text) : text :=
  match s with
  | [] => []
  | c :: s' => if sp c then lstrip sp s' else s
  end.

Definition strip_text (sp : N -> bool) (s : text) : text :=
  rev (lstrip sp (rev (lstrip sp s))).

(** A set of lines is kept as a list without repetition; the order of the
    list plays no role: where the command iterates over a set to build a
    list, the world says in which order. *)
Definition to_set (l : list text) : list text := remove_dups l.

(** The value of the variable [lines] at line 494: still a set, or the
    list of the sample. *)
Inductive lines_value : Type :=
| ASet (elements : list text)
| AList (items : list text).

(** [lines[idx]] *)
Definition py_index (l : list text) (idx : Z) : outcome text :=
  let n := Z.of_nat (length l) in
  let i := if idx <? 0 then idx + n else idx in
  if (0 <=? i) && (i <? n)
  then match l !! Z.to_nat i with
       | Some x => Done x
       | None => Failed IndexError
       end
  else Failed IndexError.

Fixpoint py_indices (l : list text) (idxs : list Z) : outcome (list text) :=
  match idxs with
  | [] => Done []
  | idx :: rest =>
      match py_index l idx with
      | Done x => match py_indices l rest with
                  | Done xs => Done (x :: xs)
                  | Failed e => Failed e
                  end
      | Failed e => Failed e
      end
  end.

(** [sorted(alphabet)]: the code points in ascending order. *)
Fixpoint insert_sorted (c : N) (l : list N) : list N :=
  match l with
  | [] => [c]
  | d :: l' => if (c <=? d)%N then c :: l else d :: insert_sorted c l'
  end.

Definition sorted (l : list N) : list N := foldr insert_sorted [] l.

Definition png_path (out : string) (i : nat) : string :=
  (out ++ "/" ++ fmt06 i ++ ".png")%string.

Definition gt_path (out : string) (i : nat) : string :=
  (out ++ "/" ++ fmt06 i ++ ".gt.txt")%string.

Section Command.

Variable w : World.
Variable a : Args.

(** Lines 464-470. *)
Fixpoint read_files (files : list string) (lines : list text)
  : LM (list text) :=
  match files with
  | [] => mret lines
  | t :: rest =>
      match open_file w t with
      | Some e => raise e
      | None =>
          (if verbose a >? 0 then emit (Echo (MsgReading t))
           else emit (Spin "Reading texts"));;
          new ← lift (readlines w t);
          read_files rest (to_set (lines ++ new))
      end
  end.

(** Lines 471-476: the three filters. *)
Definition normalized (lines : list text) : list text :=
  match normalization a with
  | Some nf => to_set (map (normalize w nf) lines)
  | None => lines
  end.

Definition stripped (lines : list text) : list text :=
  if strip a then to_set (map (strip_text (is_space w)) lines) else lines.

Definition shortened (lines : list text) : list text :=
  match max_length a with
  | Some n =>
      if n =? 0 then lines
      else to_set (List.filter (fun line => Z.of_nat (length line) <? n)
                               lines)
  | None => lines
  end.

(** Lines 464-487: the lines to render. *)
Definition prepare : LM lines_value :=
  lines ← read_files (texts a) [];
  let lines := shortened (stripped (normalized lines)) in
  (if verbose a >? 0 then emit (Echo (MsgRead (length lines)))
   else emit Tick;; emit (Echo (MsgReadUnique (length lines))));;
  if negb (maxlines a =? 0) && (maxlines a <? Z.of_nat (length lines)) then
    emit (Echo (MsgSampling (maxlines a)));;
    let l := iteration w lines in
    idxs ← lift (randint w (length l) (maxlines a));
    sample ← lift (py_indices l idxs);
    emit CheckMark;;
    mret (AList sample)
  else mret (ASet lines).

(** Lines 488-492. *)
Definition make_output : LM unit :=
  match makedirs w (output a) with
  | None => emit (MakeDirs (output a))
  | Some (OSError errno) =>
      if negb (errno =? EEXIST) then raise (OSError errno) else mret tt
  | Some e => raise e
  end.

(** Line 494. *)
Definition final_lines (v : lines_value) : list text :=
  map (strip_text (is_space w))
      (match v with
       | ASet elements => iteration w elements
       | AList items => items
       end).

(** Lines 497-510: the alphabet. *)
Fixpoint split_alphabet (sorted : list N)
  : outcome (list N * list string) :=
  match sorted with
  | [] => Done ([], [])
  | c :: rest =>
      if negb (combining w c =? 0) then
        match char_name w c with
        | Done name =>
            match split_alphabet rest with
            | Done (chars, names) => Done (chars, name :: names)
            | Failed e => Failed e
            end
        | Failed e => Failed e
        end
      else
        match split_alphabet rest with
        | Done (chars, names) => Done (c :: chars, names)
        | Failed e => Failed e
        end
  end.

Definition show_alphabet (lines : list text) : LM unit :=
  let alphabet := remove_dups (concat lines) in
  '(chars, names) ← lift (split_alphabet (sorted alphabet));
  emit (Echo (MsgAlphabet (length alphabet)));;
  emit (Echo (MsgSymbols chars));;
  (if negb (bool_decide (names = [])) then emit (Echo (MsgCombining names))
   else mret tt).

(** Lines 518-521. *)
Definition render (idx : nat) (line : text) : outcome image :=
  match renormalize a with
  | Some nf => render_line w idx (normalize w nf line)
  | None => render_line w idx line
  end.

(** Lines 529-533. *)
Definition degrade (idx : nat) (im : image) : outcome image :=
  if negb (disable_degradation a) && negb (legacy a) then
    match distort_line w idx im with
    | Done im' => degrade_line w idx im'
    | Failed e => Failed e
    end
  else if legacy a then ocropy_degrade w idx im
  else Done im.

(** What is written to the text file (lines 541-545). *)
Definition gt_content (line : text) : text :=
  if reorder a then get_display w line else line.

(** Lines 540-545. *)
Definition save (idx : nat) (line : text) (im : image) : LM unit :=
  attempt (save_png w (png_path (output a) idx) im)
          (SavePng (png_path (output a) idx) im);;
  attempt (write_file w (gt_path (output a) idx) (gt_content line))
          (WriteGt (gt_path (output a) idx) (gt_content line)).

(** Lines 513-545: the body of the loop; [continue] ends it early. *)
Definition do_line (idx : nat) (line : text) : LM unit :=
  (if verbose a >? 0 then emit (Echo (MsgLine line))
   else emit (Spin "Writing images"));;
  match render idx line with
  | Failed (KrakenCairoSurfaceException msg width height) =>
      if verbose a >? 0 then emit (Echo (MsgSurface msg width height))
      else emit Cross;; emit (Echo (MsgSurface msg width height))
  | Failed e => raise e
  | Done im =>
      im ← lift (degrade idx im);
      if binarize a then
        match nlbin w idx im with
        | Failed (KrakenInputException msg) => emit (Echo (MsgText msg))
        | Failed e => raise e
        | Done im => save idx line im
        end
      else save idx line im
  end.

(** Line 512: [for idx, line in enumerate(lines)], counting from [idx]. *)
Fixpoint write_lines (idx : nat) (lines : list text) : LM unit :=
  match lines with
  | [] => mret tt
  | line :: rest => do_line idx line;; write_lines (S idx) rest
  end.

(** Lines 488-548. *)
Definition generate (v : lines_value) : LM unit :=
  make_output;;
  let lines := final_lines v in
  show_alphabet lines;;
  attempt (new_generator w)
          (NewGenerator (font a) (font_size a) (font_weight a) (language a));;
  write_lines 0 lines;;
  (if verbose a =? 0 then emit Tick else mret tt).

Definition line_generator : LM unit :=
  match texts a with
  | [] => mret tt
  | _ => v ← prepare; generate v
  end.

(** The image that the loop has to save for a line, if the line gets as
    far as that: it was rendered, degraded and binarized. *)
Definition to_save (idx : nat) (line : text) : option image :=
  match render idx line with
  | Done im =>
      match degrade idx im with
      | Done im =>
          if binarize a then
            match nlbin w idx im with
            | Done im => Some im
            | Failed _ => None
            end
          else Some im
      | Failed _ => None
      end
  | Failed _ => None
  end.

(** The lines that have an image to save, with their numbers, counting
    from [idx]. *)
Fixpoint producing (idx : nat) (lines : list text)
  : list (nat * text * image) :=
  match lines with
  | [] => []
  | line :: rest =>
      match to_save idx line with
      | Some im => (idx, line, im) :: producing (S idx) rest
      | None => producing (S idx) rest
      end
  end.

Definition image_file (p : nat * text * image) : string * image :=
  let '(idx, _, im) := p in (png_path (output a) idx, im).

Definition text_file (p : nat * text * image) : string * text :=
  let '(idx, line, _) := p in (gt_path (output a) idx, gt_content line).

End Command.

(** The images and the texts of a log, in the order of writing. *)
Definition pngs (l : list event) : list (string * image) :=
  omap (fun ev => match ev with SavePng f im => Some (f, im) | _ => None end)
       l.

Definition gts (l : list event) : list (string * text) :=
  omap (fun ev => match ev with WriteGt f c => Some (f, c) | _ => None end) l.

(** A part of the command that writes no image and no text. *)
Definition quiet {A} (m : LM A) : Prop := pngs m.2 = [] /\ gts m.2 = [].

(** The only failures are those that the loop catches: the renderer fails
    with KrakenCairoSurfaceException only, the binarization with
    KrakenInputException only, and the degradations and the disk work. *)
Definition benign (w : World) : Prop :=
  (forall idx line e, render_line w idx line = Failed e ->
     exists msg width height,
       e = KrakenCairoSurfaceException msg width height)
  /\ (forall idx im e, nlbin w idx im = Failed e ->
       exists msg, e = KrakenInputException msg)
  /\ (forall idx im e, distort_line w idx im <> Failed e)
  /\ (forall idx im e, degrade_line w idx im <> Failed e)
  /\ (forall idx im e, ocropy_degrade w idx im <> Failed e)
  /\ (forall f im, save_png w f im = None)
  /\ (forall f c, write_file w f c = None).

(** A renderer that cannot draw the empty line, in a world where nothing
    else fails; its sets are iterated in the order of the list. *)
Definition example_world : World :=
  mkWorld (fun _ => None)
          (fun _ => Done [[104; 105; 32; 10]; [10]; [121; 111; 10]]%N)
          (fun _ line => line)
          (fun c => (c =? 32)%N || (c =? 10)%N)
          (fun _ => 0)
          (fun _ => Done "name"%string)
          (fun l => l)
          (fun _ _ => Done [])
          (fun _ => None)
          None
          (fun _ line =>
             match line with
             | [] => Failed (KrakenCairoSurfaceException
                               "Surface too small"%string 0 0)
             | _ => Done "image"%string
             end)
          (fun _ im => Done im) (fun _ im => Done im) (fun _ im => Done im)
          (fun _ im => Done im)
          (fun line => line)
          (fun _ _ => None)
          (fun _ _ => None).

Definition example_args : Args :=
  mkArgs "sans" 0 None None false 32 400 None (Some 4) false false true
         false "out" ["a.txt"%string] 0.

End Linegen.

(** * Properties *)

(** ** Sanity checks of the embedding *)
Example resolve_default_spec :
  resolve 16 (Text.lit "[1,1,0,48 Lbx100]")
  = Ok (mkGeometry 1 1 0 48 axis_swapped (ScaleInt 48) 16).
Proof. reflexivity. Qed.

Example resolve_fixed :
  resolve 16 (Text.lit "[1,48,128,1]")
  = Ok (mkGeometry 1 48 128 1 axis_default (ScalePair 48 128) 0).
Proof. reflexivity. Qed.

Example resolve_empty : resolve 16 (Text.lit "  ") = Raise IndexError.
Proof. reflexivity. Qed.

Example resolve_var_height_fixed_width :
  resolve 16 (Text.lit "[1,0,128,1]")
  = Raise (BadOptionUsage
      ["Invalid input spec 1,0,128,1 (variable height and fixed width not supported)"%string]).
Proof. reflexivity. Qed.

Example cut_10_09 : cut_index 10 f0_9 = Ok 9.
Proof. vm_compute. reflexivity. Qed.

Example cut_10_07 : cut_index 10 f0_7 = Ok 7.
Proof. vm_compute. reflexivity. Qed.

Example cut_1_09 : cut_index 1 f0_9 = Ok 0.
Proof. vm_compute. reflexivity. Qed.

Example cut_one : cut_index 7 PyFloat.one = Ok 7.
Proof. vm_compute. reflexivity. Qed.

Example unit_09 : PyFloat.in_unit_interval f0_9 = true.
Proof. vm_compute. reflexivity. Qed.

Example shuffle_example :
  shuffle (fun _ => 0)%nat [1; 2; 3; 4; 5]%nat = [2; 3; 4; 5; 1]%nat.
Proof. vm_compute. reflexivity. Qed.


(** ** Geometry resolution *)

Section Geometry.

Variable pad0 : Z.

Lemma in_1_3_spec c : in_1_3 c = true <-> c = 1 \/ c = 3.
Proof. unfold in_1_3. rewrite orb_true_iff, !Z.eqb_eq. tauto. Qed.

Lemma resolve_unfold spec b h w c :
  preparse spec = Ok (b, h, w, c) ->
  resolve pad0 spec = classify pad0 (block0_of spec) b h w c.
Proof. intros H. unfold resolve. rewrite H. reflexivity. Qed.

Lemma resolve_inv spec g :
  resolve pad0 spec = Ok g ->
  exists b h w c,
    preparse spec = Ok (b, h, w, c)
    /\ classify pad0 (block0_of spec) b h w c = Ok g.
Proof.
  unfold resolve. destruct (preparse spec) as [[[[b h] w] c]|e] eqn:E.
  - intros H. exists b, h, w, c. split; [reflexivity | exact H].
  - discriminate.
Qed.

(** The chain of tests, read as a decision between the four cases. *)
Lemma classify_case1 blk b h w c :
  case1 h w c ->
  classify pad0 blk b h w c
  = Ok (mkGeometry b h w c axis_swapped (ScaleInt c) pad0).
Proof.
  intros (-> & -> & Hc). unfold classify.
  replace (c >? 3) with true by (symmetry; apply Z.gtb_lt; lia).
  reflexivity.
Qed.

Lemma classify_case2 blk b h w c :
  ~ case1 h w c -> case2 h w c ->
  classify pad0 blk b h w c
  = Ok (mkGeometry b h w c axis_default (ScaleInt h) pad0).
Proof.
  intros _ (Hh & -> & Hc). unfold classify.
  replace (h =? 1) with false by (symmetry; apply Z.eqb_neq; lia).
  replace (h >? 1) with true by (symmetry; apply Z.gtb_lt; lia).
  apply in_1_3_spec in Hc. rewrite Hc. reflexivity.
Qed.

Lemma classify_case3 blk b h w c :
  ~ case1 h w c -> ~ case2 h w c -> case3 h w c ->
  classify pad0 blk b h w c
  = Ok (mkGeometry b h w c axis_default (ScalePair h w) 0).
Proof.
  intros _ _ (Hh & Hw & Hc). unfold classify.
  replace (w =? 0) with false by (symmetry; apply Z.eqb_neq; lia).
  rewrite !andb_false_r; simpl.
  replace (h >? 0) with true by (symmetry; apply Z.gtb_lt; lia).
  replace (w >? 0) with true by (symmetry; apply Z.gtb_lt; lia).
  apply in_1_3_spec in Hc. rewrite Hc. reflexivity.
Qed.

Lemma classify_case4 blk b h w c :
  ~ case1 h w c -> ~ case2 h w c -> ~ case3 h w c -> case4 h w c ->
  classify pad0 blk b h w c
  = Ok (mkGeometry b h w c axis_default (ScaleInt 0) 0).
Proof.
  intros _ _ _ (-> & -> & Hc). unfold classify.
  apply in_1_3_spec in Hc. rewrite Hc. reflexivity.
Qed.

Lemma classify_rejects blk b h w c :
  ~ recognised h w c -> is_config_error (classify pad0 blk b h w c).
Proof.
  intros Hn. unfold classify, is_config_error.
  destruct ((h =? 1) && (w =? 0) && (c >? 3)) eqn:E1.
  { exfalso. apply Hn. left.
    apply andb_true_iff in E1 as [E1 E3]. apply andb_true_iff in E1 as [E1 E2].
    apply Z.eqb_eq in E1. apply Z.eqb_eq in E2. apply Z.gtb_lt in E3.
    repeat split; assumption. }
  destruct ((h >? 1) && (w =? 0) && in_1_3 c) eqn:E2.
  { exfalso. apply Hn. right; left.
    apply andb_true_iff in E2 as [E2 E4]. apply andb_true_iff in E2 as [E2 E3].
    apply Z.gtb_lt in E2. apply Z.eqb_eq in E3. apply in_1_3_spec in E4.
    repeat split; assumption. }
  destruct ((h >? 0) && (w >? 0) && in_1_3 c) eqn:E3.
  { exfalso. apply Hn. right; right; left.
    apply andb_true_iff in E3 as [E3 E5]. apply andb_true_iff in E3 as [E3 E4].
    apply Z.gtb_lt in E3. apply Z.gtb_lt in E4. apply in_1_3_spec in E5.
    repeat split; assumption. }
  destruct ((h =? 0) && (w =? 0) && in_1_3 c) eqn:E4.
  { exfalso. apply Hn. right; right; right.
    apply andb_true_iff in E4 as [E4 E6]. apply andb_true_iff in E4 as [E4 E5].
    apply Z.eqb_eq in E4. apply Z.eqb_eq in E5. apply in_1_3_spec in E6.
    repeat split; assumption. }
  eexists. reflexivity.
Qed.

(** An accepted descriptor fell into one of the four cases. *)
Lemma classify_inv blk b h w c g :
  classify pad0 blk b h w c = Ok g ->
  (case1 h w c /\ g = mkGeometry b h w c axis_swapped (ScaleInt c) pad0)
  \/ (case2 h w c /\ g = mkGeometry b h w c axis_default (ScaleInt h) pad0)
  \/ (case3 h w c /\ g = mkGeometry b h w c axis_default (ScalePair h w) 0)
  \/ (case4 h w c /\ g = mkGeometry b h w c axis_default (ScaleInt 0) 0).
Proof.
  intros H.
  destruct (Z.eq_dec h 1) as [h1|h1], (Z.eq_dec w 0) as [w0|w0],
           (Z_lt_dec 3 c) as [c3|c3];
    try (assert (C1 : case1 h w c) by (repeat split; assumption);
         rewrite (classify_case1 _ _ _ _ _ C1) in H; left; split;
         [assumption | congruence]).
  all: assert (N1 : ~ case1 h w c) by (intros (? & ? & ?); lia).
  all: destruct (Z_lt_dec 1 h) as [hg|hg], (Z.eq_dec c 1) as [c1|c1],
                (Z.eq_dec c 3) as [c3'|c3'], (Z_lt_dec 0 h) as [hp|hp],
                (Z_lt_dec 0 w) as [wp|wp], (Z.eq_dec h 0) as [h0|h0];
    try lia.
  all: try (assert (C2 : case2 h w c) by (repeat split; auto; lia);
            rewrite (classify_case2 _ _ _ _ _ N1 C2) in H; right; left; split;
            [assumption | congruence]).
  all: assert (N2 : ~ case2 h w c) by (intros (? & ? & ?); lia).
  all: try (assert (C3 : case3 h w c) by (repeat split; auto; lia);
            rewrite (classify_case3 _ _ _ _ _ N1 N2 C3) in H;
            right; right; left; split; [assumption | congruence]).
  all: assert (N3 : ~ case3 h w c) by (intros (? & ? & ?); lia).
  all: try (assert (C4 : case4 h w c) by (repeat split; auto; lia);
            rewrite (classify_case4 _ _ _ _ _ N1 N2 N3 C4) in H;
            right; right; right; split; [assumption | congruence]).
  all: exfalso;
    assert (N : ~ recognised h w c)
      by (intros [C|[C|[C|C]]];
          [apply N1| apply N2 | apply N3 | destruct C as (? & ? & ?); lia];
          assumption);
    destruct (classify_rejects blk b h w c N) as [args E]; congruence.
Qed.

(** The chain raises nothing but the configuration error. *)
Lemma classify_raise blk b h w c e :
  classify pad0 blk b h w c = Raise e -> exists args, e = BadOptionUsage args.
Proof.
  unfold classify.
  repeat match goal with
         | |- context [if ?t then _ else _] => destruct t
         end; intros H; inversion H; eauto.
Qed.

End Geometry.

(** The outcome of lines 99-106 on a descriptor that is not blank. *)
Lemma preparse_cases spec :
  Text.strip spec <> [] ->
  (bracketed (Text.strip spec) = false /\ is_config_error (preparse spec))
  \/ (bracketed (Text.strip spec) = true
      /\ re_match_input (block0_of spec) = None
      /\ is_config_error (preparse spec))
  \/ (bracketed (Text.strip spec) = true
      /\ exists g1 g2 g3 g4,
           re_match_input (block0_of spec) = Some (g1, g2, g3, g4)
           /\ preparse spec
              = Ok (Text.int_of_digits g1, Text.int_of_digits g2,
                    Text.int_of_digits g3, Text.int_of_digits g4)).
Proof.
  intros Hne. unfold preparse, block0_of, bracketed, Text.first, Text.final.
  destruct (Text.strip spec) as [|c0 s] eqn:Es; [congruence|].
  destruct (rev (c0 :: s)) as [|c1 r] eqn:Er.
  { apply (f_equal length) in Er. rewrite length_rev in Er. discriminate. }
  cbn [mbind result_bind].
  destruct (Ascii.eqb c0 "[") eqn:E0, (Ascii.eqb c1 "]") eqn:E1; cbn [negb orb andb].
  2-4: left; split; [reflexivity | eexists; reflexivity].
  destruct (re_match_input (Text.first_block (Text.inner (c0 :: s))))
    as [[[[g1 g2] g3] g4]|] eqn:Em.
  - right; right. split; [reflexivity|]. exists g1, g2, g3, g4. split; reflexivity.
  - right; left. repeat split. eexists; reflexivity.
Qed.

(** The integers read from the token are the values of runs of digits, so
    they are not negative. *)
Lemma span_digits_digits s : forallb Text.is_digit (Text.span_digits s).1 = true.
Proof.
  induction s as [|c s IH]; cbn; [reflexivity|].
  destruct (Text.is_digit c) eqn:E; [|reflexivity].
  destruct (Text.span_digits s) as [d r]. cbn in *. rewrite E, IH. reflexivity.
Qed.

Lemma re_digits_digits s d r :
  Text.re_digits s = Some (d, r) -> forallb Text.is_digit d = true.
Proof.
  unfold Text.re_digits. pose proof (span_digits_digits s) as H.
  destruct (Text.span_digits s) as [[|c d'] r']; [discriminate|].
  intros E. injection E as <- <-. exact H.
Qed.

Lemma digit_value_nonneg c : Text.is_digit c = true -> 0 <= Text.digit_value c.
Proof.
  unfold Text.is_digit, Text.digit_value. intros H.
  apply andb_true_iff in H as [H _]. apply Nat.leb_le in H. lia.
Qed.

Lemma fold_digits_nonneg d : forall acc,
  forallb Text.is_digit d = true -> 0 <= acc ->
  0 <= fold_left (fun acc c => 10 * acc + Text.digit_value c) d acc.
Proof.
  induction d as [|c d IH]; intros acc Hd Hacc; cbn in *; [exact Hacc|].
  apply andb_true_iff in Hd as [Hc Hd]. apply IH; [exact Hd|].
  pose proof (digit_value_nonneg c Hc). lia.
Qed.

Lemma int_of_digits_nonneg d :
  forallb Text.is_digit d = true -> 0 <= Text.int_of_digits d.
Proof. intros H. apply fold_digits_nonneg; [exact H | lia]. Qed.

Lemma preparse_nonneg spec b h w c :
  preparse spec = Ok (b, h, w, c) -> 0 <= b /\ 0 <= h /\ 0 <= w /\ 0 <= c.
Proof.
  unfold preparse.
  destruct (Text.first (Text.strip spec)) as [c0|]; [|discriminate].
  destruct (Text.final (Text.strip spec)) as [c1|]; [|discriminate].
  cbn [mbind result_bind].
  destruct (negb (Ascii.eqb c0 "[") || negb (Ascii.eqb c1 "]")); [discriminate|].
  unfold re_match_input.
  destruct (Text.re_digits _) as [[g1 r1]|] eqn:E1; [|discriminate].
  destruct (Text.re_comma r1) as [r1'|]; [|discriminate].
  destruct (Text.re_digits r1') as [[g2 r2]|] eqn:E2; [|discriminate].
  destruct (Text.re_comma r2) as [r2'|]; [|discriminate].
  destruct (Text.re_digits r2') as [[g3 r3]|] eqn:E3; [|discriminate].
  destruct (Text.re_comma r3) as [r3'|]; [|discriminate].
  destruct (Text.re_digits r3') as [[g4 r4]|] eqn:E4; [|discriminate].
  intros H. injection H as <- <- <- <-.
  repeat split; apply int_of_digits_nonneg; eapply re_digits_digits; eassumption.
Qed.

(** C1: for every descriptor whose leading token parses as four integers
    (batch, height, width, channels), resolution takes the first matching
    of the four cases, in order: (1) height = 1, width = 0, channels > 3
    gives the swapped axis order and ScaleToHeight(channels); (2) height >
    1, width = 0, channels in {1,3} gives the default order and
    ScaleToHeight(height); (3) height > 0, width > 0, channels in {1,3}
    gives ScaleToFixed(height, width); (4) height = 0, width = 0, channels
    in {1,3} gives NoScale; every other triple is rejected with a
    configuration error. *)
Theorem resolve_first_matching_case (pad0 : Z) (spec : Text.text)
    (b h w c : Z) :
  preparse spec = Ok (b, h, w, c) ->
  (case1 h w c ->
     resolve pad0 spec = Ok (mkGeometry b h w c axis_swapped (ScaleInt c) pad0)
     /\ scale_mode_of (ScaleInt c) = ScaleToHeight c)
  /\ (~ case1 h w c -> case2 h w c ->
     resolve pad0 spec = Ok (mkGeometry b h w c axis_default (ScaleInt h) pad0)
     /\ scale_mode_of (ScaleInt h) = ScaleToHeight h)
  /\ (~ case1 h w c -> ~ case2 h w c -> case3 h w c ->
     resolve pad0 spec = Ok (mkGeometry b h w c axis_default (ScalePair h w) 0)
     /\ scale_mode_of (ScalePair h w) = ScaleToFixed h w)
  /\ (~ case1 h w c -> ~ case2 h w c -> ~ case3 h w c -> case4 h w c ->
     resolve pad0 spec = Ok (mkGeometry b h w c axis_default (ScaleInt 0) 0)
     /\ scale_mode_of (ScaleInt 0) = NoScale)
  /\ (~ recognised h w c -> is_config_error (resolve pad0 spec)).
Proof.
  intros Hp. rewrite (resolve_unfold pad0 _ _ _ _ _ Hp).
  repeat split.
  - apply classify_case1; assumption.
  - destruct H as (_ & _ & Hc). destruct c; try lia; reflexivity.
  - apply classify_case2; assumption.
  - destruct H0 as (Hh & _ & _). destruct h; try lia; reflexivity.
  - apply classify_case3; assumption.
  - apply classify_case4; assumption.
  - apply classify_rejects; assumption.
Qed.

Lemma resolve_first_matching_case_witness :
  preparse (Text.lit "[1,1,0,48 Lbx100]") = Ok (1, 1, 0, 48)
  /\ (case1 1 0 48 ->
      resolve 16 (Text.lit "[1,1,0,48 Lbx100]")
      = Ok (mkGeometry 1 1 0 48 axis_swapped (ScaleInt 48) 16)
      /\ scale_mode_of (ScaleInt 48) = ScaleToHeight 48).
Proof.
  split; [reflexivity|].
  apply (resolve_first_matching_case 16 (Text.lit "[1,1,0,48 Lbx100]")
                                     1 1 0 48).
  reflexivity.
Defined.

(** C9: resolution sets the padding to 0 in exactly two of the four cases,
    the fully fixed geometry (height > 0, width > 0) and the no-scale case
    (height = 0, width = 0), whatever padding the caller gave, and keeps
    the caller's padding in the two ScaleToHeight cases.  The cases are
    those of the integers read from the descriptor: in each of them a
    geometry is returned, with that padding and that scale mode, and
    outside the four cases no geometry is returned at all. *)
Theorem resolve_padding (pad0 : Z) (spec : Text.text) (b h w c : Z) :
  preparse spec = Ok (b, h, w, c) ->
  (case1 h w c ->
   exists g, resolve pad0 spec = Ok g /\ pad g = pad0
             /\ scale_mode_of (scale g) = ScaleToHeight c)
  /\ (case2 h w c ->
      exists g, resolve pad0 spec = Ok g /\ pad g = pad0
                /\ scale_mode_of (scale g) = ScaleToHeight h)
  /\ (case3 h w c ->
      exists g, resolve pad0 spec = Ok g /\ pad g = 0
                /\ scale_mode_of (scale g) = ScaleToFixed h w)
  /\ (case4 h w c ->
      exists g, resolve pad0 spec = Ok g /\ pad g = 0
                /\ scale_mode_of (scale g) = NoScale)
  /\ (forall g, resolve pad0 spec = Ok g -> recognised h w c).
Proof.
  intros Hp. rewrite (resolve_unfold pad0 spec b h w c Hp).
  repeat split.
  - intros C. rewrite (classify_case1 pad0 _ b h w c C).
    eexists. split; [reflexivity|]. split; [reflexivity|]. cbn.
    destruct C as (_ & _ & Hc). destruct c; try lia; reflexivity.
  - intros C.
    assert (N1 : ~ case1 h w c)
      by (destruct C as (Hh & _ & _); intros (? & _ & _); lia).
    rewrite (classify_case2 pad0 _ b h w c N1 C).
    eexists. split; [reflexivity|]. split; [reflexivity|]. cbn.
    destruct C as (Hh & _ & _). destruct h; try lia; reflexivity.
  - intros C.
    assert (N1 : ~ case1 h w c)
      by (destruct C as (_ & Hw & _); intros (_ & ? & _); lia).
    assert (N2 : ~ case2 h w c)
      by (destruct C as (_ & Hw & _); intros (_ & ? & _); lia).
    rewrite (classify_case3 pad0 _ b h w c N1 N2 C).
    eexists. split; [reflexivity|]. split; reflexivity.
  - intros C.
    assert (N1 : ~ case1 h w c)
      by (destruct C as (Hh & _ & _); intros (? & _ & _); lia).
    assert (N2 : ~ case2 h w c)
      by (destruct C as (Hh & _ & _); intros (? & _ & _); lia).
    assert (N3 : ~ case3 h w c)
      by (destruct C as (Hh & _ & _); intros (? & _ & _); lia).
    rewrite (classify_case4 pad0 _ b h w c N1 N2 N3 C).
    eexists. split; [reflexivity|]. split; reflexivity.
  - intros g Hg.
    apply classify_inv in Hg as [[C _]|[[C _]|[[C _]|[C _]]]];
      unfold recognised; auto.
Qed.

Lemma resolve_padding_witness :
  preparse (Text.lit "[1,48,128,1]") = Ok (1, 48, 128, 1)
  /\ case3 48 128 1
  /\ resolve 16 (Text.lit "[1,48,128,1]")
     = Ok (mkGeometry 1 48 128 1 axis_default (ScalePair 48 128) 0)
  /\ exists g, resolve 16 (Text.lit "[1,48,128,1]") = Ok g /\ pad g = 0
               /\ scale_mode_of (scale g) = ScaleToFixed 48 128.
Proof.
  assert (Hp : preparse (Text.lit "[1,48,128,1]") = Ok (1, 48, 128, 1))
    by reflexivity.
  assert (C : case3 48 128 1) by (unfold case3; lia).
  split; [exact Hp|]. split; [exact C|]. split; [reflexivity|].
  exact (proj1 (proj2 (proj2
           (resolve_padding 16 (Text.lit "[1,48,128,1]") 1 48 128 1 Hp))) C).
Defined.

(** C5, the claim as worded, fails: the leading token [1,0,0,1x] is not
    four comma-separated integers, yet the descriptor is accepted, because
    the regular expression is anchored at the start of the token only. *)
Lemma malformed_descriptor_accepted :
  spec_malformed (Text.lit "[1,0,0,1x]")
  /\ resolve 16 (Text.lit "[1,0,0,1x]")
     = Ok (mkGeometry 1 0 0 1 axis_default (ScaleInt 0) 0)
  /\ ~ is_config_error (resolve 16 (Text.lit "[1,0,0,1x]")).
Proof.
  split; [|split].
  - right; left. reflexivity.
  - reflexivity.
  - intros [args H]. discriminate H.
Qed.

(** C5, amended: for every descriptor that is not blank, resolution fails
    with a configuration error whenever the descriptor is not bracketed, or
    its leading token does not begin with four comma-separated integers, or
    the integers match none of the four cases; it fails with no other
    exception; and equal descriptors give equal results. *)
Theorem resolve_malformed_config_error (pad0 : Z) (spec : Text.text) :
  Text.strip spec <> [] ->
  (bracketed (Text.strip spec) = false -> is_config_error (resolve pad0 spec))
  /\ (begins_with_four_integers (block0_of spec) = false ->
      is_config_error (resolve pad0 spec))
  /\ (forall b h w c, preparse spec = Ok (b, h, w, c) -> ~ recognised h w c ->
      is_config_error (resolve pad0 spec))
  /\ (forall e, resolve pad0 spec = Raise e -> exists args, e = BadOptionUsage args)
  /\ (forall spec', spec' = spec -> resolve pad0 spec' = resolve pad0 spec).
Proof.
  intros Hne.
  assert (Hpre : forall args, preparse spec = Raise (BadOptionUsage args) ->
                 is_config_error (resolve pad0 spec)).
  { intros args E. unfold resolve. rewrite E. eexists; reflexivity. }
  destruct (preparse_cases spec Hne)
    as [(Hb & args & E)|[(Hb & Hm & args & E)|(Hb & g1 & g2 & g3 & g4 & Hm & E)]].
  - repeat split; intros.
    + eauto.
    + eauto.
    + congruence.
    + unfold resolve in H. rewrite E in H. inversion H. eauto.
    + subst; reflexivity.
  - repeat split; intros.
    + congruence.
    + eauto.
    + congruence.
    + unfold resolve in H. rewrite E in H. inversion H. eauto.
    + subst; reflexivity.
  - repeat split; intros.
    + congruence.
    + unfold begins_with_four_integers in H. rewrite Hm in H. discriminate.
    + rewrite (resolve_unfold pad0 _ _ _ _ _ H). apply classify_rejects. assumption.
    + rewrite (resolve_unfold pad0 _ _ _ _ _ E) in H.
      eapply classify_raise; eassumption.
    + subst; reflexivity.
Qed.

Lemma resolve_malformed_config_error_witness :
  Text.strip (Text.lit "1,0,0,1") <> []
  /\ is_config_error (resolve 16 (Text.lit "1,0,0,1")).
Proof.
  split; [discriminate|].
  apply (resolve_malformed_config_error 16 (Text.lit "1,0,0,1"));
    [discriminate | reflexivity].
Defined.


(** ** Option checking and the optimizer *)

(** C8: when both an existing model (the path of a file that exists, hence
    not the empty text) and a codec are supplied, the command fails with a
    configuration error before any corpus is constructed: the state is the
    initial one, with an empty log. *)
Theorem load_with_codec_rejected (w : World) (a : Args)
    (model codec_file : string) :
  arg_load a = Some model -> model <> ""%string ->
  arg_codec a = Some codec_file ->
  run w a
  = (Raise (BadOptionUsage
              ["codec"; "codec option is not supported when loading model"]%string),
     init_state).
Proof.
  intros Hl Hm Hc. unfold run, train, setup, check_options.
  rewrite Hl, Hc. destruct model as [|c m]; [congruence|]. reflexivity.
Qed.

Lemma load_with_codec_rejected_witness :
  arg_load load_and_codec_args = Some "old.mlmodel"%string
  /\ run quiet_world load_and_codec_args
     = (Raise (BadOptionUsage
                 ["codec"; "codec option is not supported when loading model"]%string),
        init_state).
Proof.
  split; [reflexivity|].
  apply (load_with_codec_rejected quiet_world load_and_codec_args
           "old.mlmodel" "codec.json"); [reflexivity | discriminate | reflexivity].
Defined.

(** C10: the value of --optimizer has no effect.  Two runs that differ in
    nothing but that option are the same computation, and the optimizer
    that is constructed is Adam with the given learning rate and weight
    decay. *)
Theorem optimizer_option_ignored (w : World) (a : Args) (o : optimizer_name) :
  train w (with_optimizer o a) = train w a
  /\ forall s,
       make_optimizer a s
       = (Ok tt,
          mkState (st_epoch s)
                  ((st_log s
                    ++ (if arg_verbose a >? 0
                        then [Echo (MsgOptimizer (arg_lrate a) (arg_wdecay a))]
                        else []))
                   ++ [NewOptimizer Adam (arg_lrate a) (arg_wdecay a)])).
Proof.
  split.
  - reflexivity.
  - intros s. unfold make_optimizer.
    destruct (arg_verbose a >? 0); cbn; rewrite ?app_nil_r; reflexivity.
Qed.

(** ** Reasoning about computations in [M] *)

Lemma obl_ret {A} (x : A) : oblivious (mret x).
Proof.
  exists (Ok x), []. intros [ep lg]. cbn. rewrite app_nil_r. reflexivity.
Qed.

Lemma obl_skip : oblivious skip.
Proof. apply obl_ret. Qed.

Lemma obl_lift {A} (r : result A) : oblivious (lift r).
Proof.
  exists r, []. intros [ep lg]. cbn. rewrite app_nil_r. reflexivity.
Qed.

Lemma obl_raise {A} (e : exn) : oblivious (@raise A e).
Proof. apply (obl_lift (Raise e)). Qed.

Lemma obl_emit ev : oblivious (emit ev).
Proof. exists (Ok tt), [ev]. reflexivity. Qed.

Lemma obl_bind {A B} (m : M A) (k : A -> M B) :
  oblivious m -> (forall x, oblivious (k x)) -> oblivious (m ≫= k).
Proof.
  intros (r & evs & Hm) Hk. destruct r as [x|e].
  - destruct (Hk x) as (r' & evs' & Hk'). exists r', (evs ++ evs').
    intros s. unfold mbind, M_bind. rewrite Hm, Hk'. cbn.
    rewrite app_assoc. reflexivity.
  - exists (Raise e), evs. intros s. unfold mbind, M_bind. rewrite Hm.
    reflexivity.
Qed.

Lemma obl_try {A} (m : M A) (h : exn -> M A) :
  oblivious m -> (forall e, oblivious (h e)) -> oblivious (try_except m h).
Proof.
  intros (r & evs & Hm) Hh. destruct r as [x|e].
  - exists (Ok x), evs. intros s. unfold try_except. rewrite Hm. reflexivity.
  - destruct (Hh e) as (r' & evs' & Hh'). exists r', (evs ++ evs').
    intros s. unfold try_except. rewrite Hm, Hh'. cbn.
    rewrite app_assoc. reflexivity.
Qed.

Lemma obl_for_each {A} (l : list A) (body : A -> M unit) :
  (forall x, oblivious (body x)) -> oblivious (for_each l body).
Proof.
  intros Hb. induction l as [|x l IH]; cbn [for_each].
  - apply obl_skip.
  - apply obl_bind; [apply Hb | intros _; exact IH].
Qed.

Create HintDb obl discriminated.
#[local] Hint Resolve obl_ret obl_skip obl_lift obl_raise obl_emit : obl.

(** Decompose a computation along its binds, loops and tests. *)
Ltac obl_step :=
  match goal with
  | |- oblivious (_ ≫= _) => apply obl_bind; [|intros]
  | |- oblivious (for_each _ _) => apply obl_for_each; intros
  | |- oblivious (try_except _ _) => apply obl_try; [|intros]
  | |- oblivious (if ?c then _ else _) => destruct c
  | |- oblivious (match ?x with _ => _ end) => destruct x
  | |- oblivious (echo _) => apply obl_emit
  | |- oblivious (spin _) => apply obl_emit
  | |- oblivious tick => apply obl_emit
  | |- oblivious _ => solve [auto with obl]
  end.

Ltac obl := repeat obl_step.

Lemma obl_train_epoch w a tr_im epoch : oblivious (train_epoch w a tr_im epoch).
Proof. unfold train_epoch. obl. Qed.

Lemma obl_checkpoint w a epoch : oblivious (checkpoint w a epoch).
Proof. unfold checkpoint. obl. Qed.

Lemma obl_accuracy_report w a te_im epoch :
  oblivious (accuracy_report w a te_im epoch).
Proof. unfold accuracy_report. obl. Qed.

Lemma obl_setup w a : oblivious (setup w a).
Proof.
  unfold setup, check_options, build_train_set, build_test_set,
    report_and_encode, make_model, make_optimizer.
  obl.
Qed.

(** What an oblivious step leaves alone. *)
Lemma obl_epoch {A} (m : M A) s : oblivious m -> st_epoch (m s).2 = st_epoch s.
Proof. intros (r & evs & H). rewrite H. reflexivity. Qed.

Lemma obl_log {A} (m : M A) s :
  oblivious m -> exists evs, st_log (m s).2 = st_log s ++ evs.
Proof. intros (r & evs & H). rewrite H. exists evs. reflexivity. Qed.

(** ** The two corpora *)

(** C3 fails on the code: the training corpus is built with the resolved
    [scale], the test corpus with no [scale] at all, while normalization,
    reordering, padding and format agree. *)
Theorem test_set_built_without_scale :
  map (fun rc => (rc.1, ds_scale rc.2, ds_pad rc.2, ds_format rc.2,
                  ds_normalization rc.2, ds_reorder rc.2))
      (datasets (st_log (run quiet_world (default_args ten_lines)).2))
  = [(TrainSet, Some (ScaleInt 48), 16, axis_swapped, None, true);
     (TestSet, None, 16, axis_swapped, None, true)].
Proof. vm_compute. reflexivity. Qed.

(** The same on every run that reaches the corpora, whatever the geometry:
    the constructor call for the training corpus passes the resolved
    [scale], the one for the test corpus passes none. *)
Lemma corpora_configurations (a : Args) (g : Geometry)
    (tr_im te_im : list string) (s : TrainingState) :
  exists evs1 evs2,
    st_log (build_train_set a g tr_im s).2
    = st_log s
      ++ NewDataset TrainSet
           (mkDatasetCfg tr_im (arg_normalization a) (arg_reorder a)
                         (Some (scale g)) (pad g) (format g)) :: evs1
    /\ st_log (build_test_set a g te_im s).2
       = st_log s
         ++ NewDataset TestSet
              (mkDatasetCfg te_im (arg_normalization a) (arg_reorder a)
                            None (pad g) (format g)) :: evs2.
Proof.
  unfold build_train_set, build_test_set.
  unfold mbind at 1 4, M_bind at 1 4. cbn [emit].
  match goal with
  | |- context [st_log (?m1 ?s1).2] =>
      destruct (obl_log m1 s1 ltac:(obl)) as [evs1 E1]
  end.
  exists evs1.
  match goal with
  | |- context [_ /\ st_log (?m2 ?s2).2 = _] =>
      destruct (obl_log m2 s2 ltac:(obl)) as [evs2 E2]
  end.
  exists evs2. rewrite E1, E2. cbn [st_log]. rewrite <- !app_assoc.
  split; reflexivity.
Qed.

(** ** Checkpoints that fail *)

Lemma without_saves_app l1 l2 :
  without_saves (l1 ++ l2) = without_saves l1 ++ without_saves l2.
Proof. unfold without_saves. apply List.filter_app. Qed.

Lemma same_apart_refl s : same_apart_from_saves s s.
Proof. split; reflexivity. Qed.

Lemma sim_obl {A} (m : M A) : oblivious m -> sim m m.
Proof.
  intros (r & evs & H) s s' [He Hl]. rewrite !H.
  cbn [fst snd]. split; [reflexivity|]. split; cbn [st_epoch st_log].
  - exact He.
  - rewrite !without_saves_app, Hl. reflexivity.
Qed.

Lemma sim_bind {A B} (m m' : M A) (k k' : A -> M B) :
  sim m m' -> (forall x, sim (k x) (k' x)) -> sim (m ≫= k) (m' ≫= k').
Proof.
  intros Hm Hk s s' HR. destruct (Hm s s' HR) as [Hr HR'].
  unfold mbind, M_bind.
  destruct (m s) as [[x|e] s1], (m' s') as [[x'|e'] s1']; cbn in Hr, HR';
    try discriminate.
  - injection Hr as <-. apply Hk. exact HR'.
  - injection Hr as <-. split; [reflexivity | exact HR'].
Qed.

Lemma sim_for_each {A} (l : list A) (body body' : A -> M unit) :
  (forall x, sim (body x) (body' x)) -> sim (for_each l body) (for_each l body').
Proof.
  intros Hb. induction l as [|x l IH]; cbn [for_each].
  - apply sim_obl, obl_skip.
  - apply sim_bind; [apply Hb | intros _; exact IH].
Qed.

Lemma sim_bind_epoch epoch : sim (bind_epoch epoch) (bind_epoch epoch).
Proof. intros s s' [He Hl]. cbn. repeat split. exact Hl. Qed.

(** A save that raises and a save that succeeds differ in the log only. *)
Lemma sim_save (w : World) (f : string -> option exn) (file : string) :
  sim (try_except
         (match f file with
          | Some e => raise e
          | None => emit (SaveModel file)
          end)
         (fun e => echo (MsgSaveFailed e)))
      (try_except
         (match save_model w file with
          | Some e => raise e
          | None => emit (SaveModel file)
          end)
         (fun e => echo (MsgSaveFailed e))).
Proof.
  intros s s' [He Hl]. unfold try_except.
  destruct (f file), (save_model w file);
    unfold raise, echo, emit; cbn -[without_saves];
    (split; [reflexivity|split; [exact He|]]);
    cbn [st_log]; rewrite !without_saves_app, Hl; reflexivity.
Qed.

Lemma sim_checkpoint (w : World) (f : string -> option exn) (a : Args)
    (epoch : Z) :
  sim (checkpoint (with_save f w) a epoch) (checkpoint w a epoch).
Proof.
  unfold checkpoint. destruct (epoch =? 0); [apply sim_obl, obl_skip|].
  apply sim_bind; [apply sim_obl, obl_lift|]. intros r.
  destruct (r =? 0); [|apply sim_obl, obl_skip].
  apply sim_bind; [apply sim_save|]. intros _.
  apply sim_obl. obl.
Qed.

Lemma sim_training_loop (w : World) (f : string -> option exn) (a : Args)
    (tr_im te_im : list string) :
  sim (training_loop (with_save f w) a tr_im te_im)
      (training_loop w a tr_im te_im).
Proof.
  unfold training_loop. apply sim_for_each. intros epoch.
  apply sim_bind; [apply sim_bind_epoch|]. intros _.
  apply sim_bind; [apply sim_obl, obl_train_epoch|]. intros _.
  apply sim_bind; [apply sim_checkpoint|]. intros _.
  apply sim_obl, obl_accuracy_report.
Qed.

(** Whatever the saves do, the run has the same result, the same final
    epoch and, saves apart, the same log. *)
Lemma sim_train (w : World) (f : string -> option exn) (a : Args) :
  sim (train (with_save f w) a) (train w a).
Proof.
  unfold train. apply sim_bind.
  - change (setup (with_save f w) a) with (setup w a).
    apply sim_obl, obl_setup.
  - intros [tr_im te_im]. apply sim_training_loop.
Qed.

Lemma training_steps_without_saves log :
  training_steps (without_saves log) = training_steps log.
Proof.
  unfold training_steps, without_saves. induction log as [|ev log IH]; cbn.
  - reflexivity.
  - destruct ev as [| [] | | | | | | | | | | |]; cbn; rewrite ?IH; reflexivity.
Qed.

Lemma bind_ok_inv {A B} (m : M A) (k : A -> M B) s y s' :
  (m ≫= k) s = (Ok y, s') ->
  exists x s1, m s = (Ok x, s1) /\ k x s1 = (Ok y, s').
Proof.
  unfold mbind, M_bind. destruct (m s) as [[x|e] s1]; [|discriminate].
  intros H. exists x, s1. split; [reflexivity | exact H].
Qed.

Lemma last_seqZ n : last (seqZ 0 n) = last_epoch n.
Proof.
  unfold last_epoch. destruct (Z.ltb_spec 0 n) as [Hn|Hn].
  - rewrite last_lookup, length_seqZ.
    rewrite lookup_seqZ_lt by lia. f_equal. lia.
  - rewrite seqZ_nil by lia. reflexivity.
Qed.

Section Loop.

Variable rest : Z -> M unit.
Hypothesis rest_obl : forall x, oblivious (rest x).

Let body : Z -> M unit := fun x => bind_epoch x;; rest x.

(** A loop that ran through leaves the loop variable at its last value. *)
Lemma loop_final_epoch l : forall s s',
  for_each l body s = (Ok tt, s') ->
  st_epoch s' = match last l with
                | Some x => Some x
                | None => st_epoch s
                end.
Proof.
  induction l as [|x l IH]; intros s s' H.
  - cbn in H. injection H as <-. reflexivity.
  - cbn [for_each] in H. apply bind_ok_inv in H as ([] & s1 & Hb & Hl).
    apply IH in Hl. rewrite Hl, last_cons.
    destruct (last l); [reflexivity|].
    unfold body in Hb. apply bind_ok_inv in Hb as ([] & s0 & H0 & H1).
    cbn in H0. injection H0 as <-.
    pose proof (obl_epoch (rest x) (mkState (Some x) (st_log s)) (rest_obl x)) as E.
    rewrite H1 in E. exact E.
Qed.

(** The log only grows. *)
Lemma body_log x s : exists evs, st_log (body x s).2 = st_log s ++ evs.
Proof.
  unfold body, mbind, M_bind. cbn.
  destruct (obl_log (rest x) (mkState (Some x) (st_log s)) (rest_obl x))
    as [evs E].
  exists evs. exact E.
Qed.

Lemma loop_log l : forall s, exists evs,
  st_log (for_each l body s).2 = st_log s ++ evs.
Proof.
  induction l as [|x l IH]; intros s.
  - exists []. cbn. rewrite app_nil_r. reflexivity.
  - cbn [for_each]. unfold mbind at 1, M_bind at 1.
    destruct (body_log x s) as [evs1 E1].
    destruct (body x s) as [[[]|e] s1]; cbn in E1.
    + destruct (IH s1) as [evs2 E2]. exists (evs1 ++ evs2).
      rewrite E2, E1, app_assoc. reflexivity.
    + exists evs1. exact E1.
Qed.

(** Every iteration of a loop that ran through ran through, and what it
    logged is still in the final log. *)
Lemma loop_iteration l x : forall s s',
  for_each l body s = (Ok tt, s') -> x ∈ l ->
  exists s1 s2 evs,
    rest x (mkState (Some x) (st_log s1)) = (Ok tt, s2)
    /\ st_log s' = st_log s2 ++ evs.
Proof.
  induction l as [|y l IH]; intros s s' H Hin.
  - inversion Hin.
  - cbn [for_each] in H. apply bind_ok_inv in H as ([] & s1 & Hb & Hl).
    apply elem_of_cons in Hin as [->|Hin].
    + destruct (loop_log l s1) as [evs E]. rewrite Hl in E. cbn in E.
      exists s, s1, evs. split; [|exact E].
      unfold body in Hb. apply bind_ok_inv in Hb as ([] & s0 & H0 & H1).
      cbn in H0. injection H0 as <-. exact H1.
    + eapply IH; eassumption.
Qed.

End Loop.

(** At a boundary where the save raises, the checkpoint step returns
    normally and has written the failure to the log. *)
Lemma checkpoint_logs_failure (w : World) (a : Args) (epoch : Z) (e : exn)
    (s s2 : TrainingState) :
  epoch <> 0 -> epoch mod arg_savefreq a = 0 ->
  save_model w (checkpoint_file a epoch) = Some e ->
  checkpoint w a epoch s = (Ok tt, s2) ->
  exists evs, st_log s2 = st_log s ++ Echo (MsgSaveFailed e) :: evs.
Proof.
  intros Hne Hmod Hsave. unfold checkpoint, py_mod.
  replace (epoch =? 0) with false by (symmetry; apply Z.eqb_neq; exact Hne).
  destruct (arg_savefreq a =? 0); [discriminate|].
  unfold lift, mbind at 1, M_bind at 1. rewrite Hmod, Hsave. cbn [Z.eqb].
  unfold try_except, raise, echo, emit, mbind, M_bind.
  destruct (arg_verbose a >? 0); cbn; intros H; injection H as <-; cbn.
  - eexists. rewrite <- !app_assoc. reflexivity.
  - eexists. reflexivity.
Qed.

Lemma train_final_epoch (w : World) (a : Args) (s' : TrainingState) :
  run w a = (Ok tt, s') -> st_epoch s' = last_epoch (arg_epochs a).
Proof.
  unfold run, train. intros H.
  apply bind_ok_inv in H as ([tr_im te_im] & s0 & Hs & Hl).
  pose proof (obl_epoch (setup w a) init_state (obl_setup w a)) as E0.
  rewrite Hs in E0. cbn in E0.
  unfold training_loop in Hl.
  apply (loop_final_epoch
           (fun epoch => train_epoch w a tr_im epoch;; checkpoint w a epoch;;
                         accuracy_report w a te_im epoch)) in Hl.
  - rewrite Hl, last_seqZ. unfold last_epoch.
    destruct (0 <? arg_epochs a); [reflexivity | exact E0].
  - intros x. obl; auto using obl_train_epoch, obl_checkpoint,
                obl_accuracy_report.
Qed.

Lemma train_logs_failed_saves (w : World) (a : Args) (s' : TrainingState)
    (epoch : Z) (e : exn) :
  run w a = (Ok tt, s') ->
  0 < epoch < arg_epochs a -> epoch mod arg_savefreq a = 0 ->
  save_model w (checkpoint_file a epoch) = Some e ->
  In (Echo (MsgSaveFailed e)) (st_log s').
Proof.
  unfold run, train. intros H Hep Hmod Hsave.
  apply bind_ok_inv in H as ([tr_im te_im] & s0 & Hs & Hl).
  unfold training_loop in Hl.
  apply (loop_iteration
           (fun epoch => train_epoch w a tr_im epoch;; checkpoint w a epoch;;
                         accuracy_report w a te_im epoch)) with (x := epoch)
    in Hl.
  - destruct Hl as (s1 & s2 & evs & Hrest & Hlog).
    apply bind_ok_inv in Hrest as ([] & sa & _ & Hrest).
    apply bind_ok_inv in Hrest as ([] & sb & Hck & Hacc).
    apply (checkpoint_logs_failure w a epoch e) in Hck as [evs1 E1];
      [|lia|assumption|assumption].
    destruct (obl_log (accuracy_report w a te_im epoch) sb
                (obl_accuracy_report w a te_im epoch)) as [evs2 E2].
    rewrite Hacc in E2. cbn in E2.
    rewrite Hlog, E2, E1. apply in_or_app. left. apply in_or_app. left.
    apply in_or_app. right. left. reflexivity.
  - intros x. obl; auto using obl_train_epoch, obl_checkpoint,
                obl_accuracy_report.
  - apply elem_of_seqZ. lia.
Qed.

(** C7: a checkpoint save that raises at a savefreq boundary is caught and
    logged, and training goes on.  If the run in which every save succeeds
    completes, then the run in which saves fail as [f] says completes too,
    its epoch counter reaches the last of the configured epochs, it
    performs the same training steps, and every failed save at a boundary
    is in its log. *)
Theorem failed_save_does_not_stop_training (w : World)
    (f : string -> option exn) (a : Args) :
  (run (with_save (fun _ => None) w) a).1 = Ok tt ->
  (run (with_save f w) a).1 = Ok tt
  /\ st_epoch (run (with_save f w) a).2 = last_epoch (arg_epochs a)
  /\ training_steps (st_log (run (with_save f w) a).2)
     = training_steps (st_log (run (with_save (fun _ => None) w) a).2)
  /\ forall epoch e,
       0 < epoch < arg_epochs a -> epoch mod arg_savefreq a = 0 ->
       f (checkpoint_file a epoch) = Some e ->
       In (Echo (MsgSaveFailed e)) (st_log (run (with_save f w) a).2).
Proof.
  intros Hok.
  destruct (sim_train (with_save (fun _ => None) w) f a init_state init_state
              (same_apart_refl init_state)) as (Hres & _ & Hlog).
  change (with_save f (with_save (fun _ => None) w)) with (with_save f w)
    in Hres, Hlog.
  fold (run (with_save f w) a) in Hres, Hlog.
  fold (run (with_save (fun _ => None) w) a) in Hres, Hlog.
  rewrite Hok in Hres.
  destruct (run (with_save f w) a) as [r s'] eqn:Hrun. cbn in Hres. subst r.
  cbn [fst snd]. split; [reflexivity|]. split; [|split].
  - apply (train_final_epoch _ _ _ Hrun).
  - cbn [snd] in Hlog.
    rewrite <- (training_steps_without_saves (st_log s')), Hlog.
    apply training_steps_without_saves.
  - intros epoch e Hep Hmod Hf.
    apply (train_logs_failed_saves _ _ _ epoch e Hrun); assumption.
Qed.

Lemma failed_save_does_not_stop_training_witness :
  (run (with_save (fun _ => None) quiet_world) (default_args ten_lines)).1
  = Ok tt
  /\ (run full_disk_world (default_args ten_lines)).1 = Ok tt
  /\ st_epoch (run full_disk_world (default_args ten_lines)).2 = Some 2.
Proof.
  split; [vm_compute; reflexivity|].
  destruct (failed_save_does_not_stop_training quiet_world
              (fun _ => Some (KrakenInputException "disk full"))
              (default_args ten_lines)) as (H1 & H2 & _).
  - vm_compute; reflexivity.
  - split; [exact H1 | exact H2].
Defined.

(** ** Errors raised inside the loop *)

(** C4 fails on the code: when the first forward pass yields a tensor whose
    dimension 2 is not 1, the loop does stop, but with AttributeError.  The
    message of the intended KrakenInputException is built from
    [output.size()], and [output] is the text of the --output option. *)
Theorem shape_mismatch_raises_attribute_error :
  forward_size2 tall_output_world 0 0 = 2
  /\ (run tall_output_world (default_args ten_lines)).1 = Raise AttributeError
  /\ last (st_log (run tall_output_world (default_args ten_lines)).2)
     = Some (Forward 0 0).
Proof. vm_compute. repeat split; reflexivity. Qed.

(** The same for every world, epoch and trial: the test on line 235 never
    leads to a KrakenInputException. *)
Lemma train_epoch_never_raises_kraken_input (w : World) (a : Args)
    (tr_im : list string) (epoch : Z) (s : TrainingState) (msg : string) :
  (train_epoch w a tr_im epoch s).1 <> Raise (KrakenInputException msg).
Proof.
  unfold train_epoch. generalize (seq 0 (n_batches w tr_im)) as l.
  intros l. revert s. induction l as [|trial l IH]; intros s; cbn [for_each].
  - discriminate.
  - unfold mbind at 1, M_bind at 1. unfold mbind at 1, M_bind at 1.
    cbn [emit]. destruct (forward_size2 w epoch trial =? 1); cbn.
    + apply IH.
    + discriminate.
Qed.

(** C2 fails on the code: with an empty test corpus the report at the first
    boundary is not skipped; the evaluation counts no character and the
    accuracy [(c - e) / c] divides by zero. *)
Theorem empty_test_set_report_divides_by_zero :
  (partition_ground_truth (rk_interval quiet_world) ["a"; "b"]%string
                          PyFloat.one)
  = Ok (["b"; "a"]%string, [])
  /\ (run quiet_world (no_test_args ["a"; "b"]%string)).1
     = Raise ZeroDivisionError
  /\ st_epoch (run quiet_world (no_test_args ["a"; "b"]%string)).2 = Some 1.
Proof. vm_compute. repeat split; reflexivity. Qed.

(** The same at every boundary, for every world and arguments: the step is
    never skipped.  If the evaluation counts no character, it raises. *)
Lemma accuracy_report_empty_test_set (w : World) (a : Args) (epoch : Z)
    (s : TrainingState) :
  epoch <> 0 -> arg_report a <> 0 -> epoch mod arg_report a = 0 ->
  accuracy_report w a [] epoch s <> (Ok tt, s)
  /\ ((compute_error w []).1 = 0 ->
      (accuracy_report w a [] epoch s).1 = Raise ZeroDivisionError).
Proof.
  intros He Hr Hm. unfold accuracy_report, py_mod.
  replace (epoch =? 0) with false by (symmetry; apply Z.eqb_neq; exact He).
  replace (arg_report a =? 0) with false
    by (symmetry; apply Z.eqb_neq; exact Hr).
  unfold lift, mbind at 1, M_bind at 1. rewrite Hm. cbn [Z.eqb].
  destruct (compute_error w []) as [c e]. unfold py_truediv.
  destruct s as [ep lg].
  split.
  - destruct (arg_verbose a <? 3), (c =? 0); cbn; try discriminate;
      intros H; injection H as H; revert H;
      rewrite <- ?app_assoc; intros H;
      apply (f_equal length) in H; rewrite length_app in H; cbn in H; lia.
  - cbn [fst]. intros ->. destruct (arg_verbose a <? 3); reflexivity.
Qed.

(** ** Rounding of the product [len * ratio] *)

Module Rounding.

Import PyFloat.

Lemma le_pow_mono m m' e N : m' <= m -> le_pow m e N -> le_pow m' e N.
Proof.
  intros Hm [H1 H2]. split; intros He.
  - specialize (H1 He). assert (0 < 2 ^ e) by (apply Z.pow_pos_nonneg; lia). nia.
  - specialize (H2 He). lia.
Qed.

(** Dropping the [s] low bits can only lower the value. *)
Lemma le_pow_shift m e s N :
  0 < s -> le_pow m e N -> le_pow (m / 2 ^ s) (e + s) N.
Proof.
  intros Hs [H1 H2].
  assert (P : 0 < 2 ^ s) by (apply Z.pow_pos_nonneg; lia).
  pose proof (Z.mul_div_le m (2 ^ s) P) as Hfl.
  split; intros He.
  - destruct (Z_lt_le_dec e 0) as [Hneg|Hpos].
    + specialize (H2 Hneg).
      replace s with (- e + (e + s)) at 1 by lia.
      rewrite Z.pow_add_r by lia.
      rewrite <- Z.div_div by (try apply Z.pow_pos_nonneg; try apply Z.pow_nonzero; lia).
      assert (Q : 0 < 2 ^ (e + s)) by (apply Z.pow_pos_nonneg; lia).
      assert (T : 0 < 2 ^ (- e)) by (apply Z.pow_pos_nonneg; lia).
      assert (m / 2 ^ (- e) <= N) by (apply Z.div_le_upper_bound; lia).
      pose proof (Z.mul_div_le (m / 2 ^ (- e)) (2 ^ (e + s)) Q). lia.
    + specialize (H1 Hpos). rewrite Z.pow_add_r by lia.
      assert (0 < 2 ^ e) by (apply Z.pow_pos_nonneg; lia). nia.
  - assert (He' : e < 0) by lia. specialize (H2 He').
    apply Z.div_le_upper_bound; [exact P|].
    replace (- e) with (s + - (e + s)) in H2 by lia.
    rewrite Z.pow_add_r in H2 by lia. lia.
Qed.

(** Rounding up after dropping [s] bits stays below an integer bound, as
    long as the result has no positive exponent. *)
Lemma le_pow_shift_up m e s N :
  0 < s -> e + s <= 0 -> m mod 2 ^ s <> 0 ->
  le_pow m e N -> le_pow (m / 2 ^ s + 1) (e + s) N.
Proof.
  intros Hs He Hmod [_ H2].
  assert (P : 0 < 2 ^ s) by (apply Z.pow_pos_nonneg; lia).
  assert (He' : e < 0) by lia. specialize (H2 He').
  replace (- e) with (s + - (e + s)) in H2 by lia.
  rewrite Z.pow_add_r in H2 by lia.
  set (K := N * 2 ^ (- (e + s))).
  assert (HK : m <= 2 ^ s * K) by (unfold K; lia).
  assert (Hlt : m / 2 ^ s < K).
  { apply Z.div_lt_upper_bound; [exact P|].
    destruct (Z.eq_dec m (2 ^ s * K)) as [E|E]; [|lia].
    exfalso. apply Hmod. rewrite E, Z.mul_comm. apply Z.mod_mul. lia. }
  split; intros H.
  - assert (e + s = 0) as -> by lia. unfold K in Hlt.
    replace (e + s) with 0 in Hlt by lia. cbn in Hlt. lia.
  - unfold K in Hlt. lia.
Qed.

(** The number of binary digits of a positive mantissa. *)
Lemma digits2_pos_bounds (p : positive) :
  2 ^ (Z.pos (digits2_pos p) - 1) <= Z.pos p < 2 ^ Z.pos (digits2_pos p).
Proof.
  induction p as [p IH|p IH|]; cbn [digits2_pos].
  - rewrite Pos2Z.inj_succ.
    replace (Z.succ (Z.pos (digits2_pos p)) - 1)
      with (Z.succ (Z.pos (digits2_pos p) - 1)) by lia.
    rewrite !Z.pow_succ_r by lia. lia.
  - rewrite Pos2Z.inj_succ.
    replace (Z.succ (Z.pos (digits2_pos p)) - 1)
      with (Z.succ (Z.pos (digits2_pos p) - 1)) by lia.
    rewrite !Z.pow_succ_r by lia. lia.
  - cbn. lia.
Qed.

Lemma shr_1_inv x : 0 <= shr_m x -> shr_inv 1 x (shr_1 x).
Proof.
  destruct x as [m r s]. cbn [shr_m shr_r shr_s]. intros Hm.
  unfold shr_inv, shr_1.
  destruct m as [|[p|p|]|p]; cbn [shr_m shr_r shr_s]; try lia.
  - repeat split; [lia|]. intros H. right.
    destruct r, s; cbn in *; congruence.
  - repeat split; [lia | |].
    + change (2 ^ 1) with 2. rewrite Pos2Z.inj_xI.
      apply Z.div_unique with 1; lia.
    + intros _. left. change (2 ^ 1) with 2. rewrite Pos2Z.inj_xI.
      replace (2 * Z.pos p + 1) with (1 + Z.pos p * 2) by lia.
      rewrite Z.mod_add by lia. discriminate.
  - repeat split; [lia | |].
    + change (2 ^ 1) with 2. rewrite Pos2Z.inj_xO.
      apply Z.div_unique with 0; lia.
    + intros H. right. destruct r, s; cbn in *; congruence.
  - repeat split; [lia|]. intros _. left. discriminate.
Qed.

Lemma shr_inv_trans a b x y z :
  0 < a -> 0 < b -> shr_inv a x y -> shr_inv b y z -> shr_inv (a + b) x z.
Proof.
  intros Ha Hb (Hy0 & Hy & Hfy) (Hz0 & Hz & Hfz).
  assert (Pa : 0 < 2 ^ a) by (apply Z.pow_pos_nonneg; lia).
  assert (Pb : 0 < 2 ^ b) by (apply Z.pow_pos_nonneg; lia).
  assert (Hdiv : forall q, shr_m x = 2 ^ (a + b) * q -> shr_m y = 2 ^ b * q).
  { intros q E. rewrite Hy, E, Z.pow_add_r by lia.
    replace (2 ^ a * 2 ^ b * q) with (2 ^ b * q * 2 ^ a) by lia.
    apply Z.div_mul. lia. }
  assert (Hmod : shr_m x mod 2 ^ (a + b) = 0 ->
                 exists q, shr_m x = 2 ^ (a + b) * q).
  { intros E. exists (shr_m x / 2 ^ (a + b)).
    apply Z.div_exact; [|exact E]. apply Z.pow_nonzero; lia. }
  repeat split.
  - exact Hz0.
  - rewrite Hz, Hy, Z.pow_add_r by lia. apply Z.div_div; lia.
  - intros Hf. destruct (Hfz Hf) as [Hn|Hf'].
    + left. intros E. destruct (Hmod E) as [q Eq].
      apply Hn. rewrite (Hdiv q Eq), Z.mul_comm. apply Z.mod_mul. lia.
    + destruct (Hfy Hf') as [Hn|Hfx]; [|right; exact Hfx].
      left. intros E. destruct (Hmod E) as [q Eq]. apply Hn.
      rewrite Eq, Z.pow_add_r by lia.
      replace (2 ^ a * 2 ^ b * q) with (2 ^ b * q * 2 ^ a) by lia.
      apply Z.mod_mul. lia.
Qed.

Lemma iter_shr_1_inv (p : positive) : forall x,
  0 <= shr_m x -> shr_inv (Z.pos p) x (SpecFloat.iter_pos shr_1 p x).
Proof.
  induction p as [p IH|p IH|]; intros x Hx; cbn [SpecFloat.iter_pos].
  - pose proof (shr_1_inv x Hx) as H1.
    pose proof (IH (shr_1 x) (proj1 H1)) as H2.
    pose proof (IH _ (proj1 H2)) as H3.
    replace (Z.pos p~1) with (1 + (Z.pos p + Z.pos p)) by lia.
    eapply shr_inv_trans; [lia | lia | exact H1 |].
    eapply shr_inv_trans; [lia | lia | exact H2 | exact H3].
  - pose proof (IH x Hx) as H1.
    pose proof (IH _ (proj1 H1)) as H2.
    replace (Z.pos p~0) with (Z.pos p + Z.pos p) by lia.
    eapply shr_inv_trans; [lia | lia | exact H1 | exact H2].
  - apply shr_1_inv. exact Hx.
Qed.

Lemma fexp_eq x : fexp prec emax x = Z.max (x - 53) (-1074).
Proof. reflexivity. Qed.

(** The first step of rounding: the shift that brings the mantissa to at
    most 53 digits (or to the least exponent). *)
Lemma shr_fexp_exact m e :
  0 <= m ->
  let s := fexp prec emax (Zdigits2 m + e) - e in
  exists mrs,
    shr_fexp prec emax m e loc_Exact = (mrs, e + Z.max s 0)
    /\ 0 <= shr_m mrs
    /\ ((s <= 0 /\ mrs = Build_shr_record m false false)
        \/ (0 < s /\ shr_m mrs = m / 2 ^ s
            /\ (shr_r mrs || shr_s mrs = true -> m mod 2 ^ s <> 0))).
Proof.
  intros Hm s. unfold shr_fexp, shr. fold s. cbn [shr_record_of_loc].
  destruct s as [|p|p] eqn:Es.
  - eexists. split; [rewrite Z.add_0_r; reflexivity|]. split; [exact Hm|].
    left. split; [lia | reflexivity].
  - destruct (iter_shr_1_inv p (Build_shr_record m false false) Hm)
      as (H0 & H1 & H2).
    eexists. split; [reflexivity|]. split; [exact H0|]. right.
    split; [lia|]. split; [exact H1|].
    intros Hf. destruct (H2 Hf) as [Hn|Hx]; [exact Hn | discriminate Hx].
  - eexists. split; [rewrite Z.add_0_r; reflexivity|]. split; [exact Hm|].
    left. split; [lia | reflexivity].
Qed.

Lemma round_bounds mrs :
  let m' := round_nearest_even (shr_m mrs) (loc_of_shr_record mrs) in
  shr_m mrs <= m' <= shr_m mrs + 1
  /\ (shr_r mrs || shr_s mrs = false -> m' = shr_m mrs).
Proof.
  destruct mrs as [m [] []]; cbn; try destruct (Z.even m); split;
    try lia; try discriminate; reflexivity.
Qed.

(** Rounding to nearest never crosses an integer below [2^53] that bounds
    the exact value; in particular it does not overflow. *)
Lemma round_aux_bound (m : positive) (e N : Z) :
  0 <= N < 2 ^ 53 -> le_pow (Z.pos m) e N ->
  binary_round_aux prec emax false (Z.pos m) e loc_Exact = S754_zero false
  \/ exists m2 e2,
       binary_round_aux prec emax false (Z.pos m) e loc_Exact
       = S754_finite false m2 e2
       /\ le_pow (Z.pos m2) e2 N.
Proof.
  intros HN Hle. unfold binary_round_aux.
  destruct (shr_fexp_exact (Z.pos m) e ltac:(lia)) as (mrs1 & E1 & Hm1 & Hc1).
  rewrite E1.
  set (s1 := fexp prec emax (Zdigits2 (Z.pos m) + e) - e) in *.
  set (e1 := e + Z.max s1 0) in *.
  set (m1 := round_nearest_even (shr_m mrs1) (loc_of_shr_record mrs1)).
  destruct (round_bounds mrs1) as [Hr1 Hr1'']. fold m1 in Hr1, Hr1''.
  assert (Hle1 : le_pow m1 e1 N).
  { destruct Hc1 as [[Hs ->]|(Hs & Hq & Hf)].
    - unfold m1, e1. cbn. replace (e + Z.max s1 0) with e by lia. exact Hle.
    - unfold e1. replace (e + Z.max s1 0) with (e + s1) by lia.
      destruct (shr_r mrs1 || shr_s mrs1) eqn:Ef.
      + destruct (Z_le_gt_dec (e + s1) 0) as [Hneg|Hpos].
        * apply le_pow_mono with (shr_m mrs1 + 1); [lia|].
          rewrite Hq. apply le_pow_shift_up; auto.
        * exfalso. unfold s1 in Hpos. rewrite fexp_eq in Hpos. cbn [Zdigits2] in Hpos.
          pose proof (digits2_pos_bounds m) as [Hd _].
          set (d := Z.pos (digits2_pos m)) in *.
          assert (Hde : 53 < d + e) by lia.
          destruct Hle as [H1 H2]. destruct (Z_lt_le_dec e 0) as [He|He].
          -- specialize (H2 He).
             assert (2 ^ (53 - e) <= 2 ^ (d - 1)) by (apply Z.pow_le_mono_r; lia).
             replace (53 - e) with (53 + - e) in H by lia.
             rewrite Z.pow_add_r in H by lia.
             assert (0 < 2 ^ (- e)) by (apply Z.pow_pos_nonneg; lia).
             assert (N * 2 ^ (- e) < 2 ^ 53 * 2 ^ (- e))
               by (apply Z.mul_lt_mono_pos_r; lia).
             lia.
          -- specialize (H1 He).
             assert (0 < 2 ^ e) by (apply Z.pow_pos_nonneg; lia).
             assert (2 ^ 53 <= 2 ^ (d - 1 + e)) by (apply Z.pow_le_mono_r; lia).
             rewrite Z.pow_add_r in H0 by lia.
             assert (2 ^ (d - 1) * 2 ^ e <= Z.pos m * 2 ^ e)
               by (apply Z.mul_le_mono_nonneg_r; lia).
             lia.
      + rewrite (Hr1'' eq_refl), Hq. apply le_pow_shift; auto. }
  assert (Hm1' : 0 <= m1) by lia.
  destruct (shr_fexp_exact m1 e1 Hm1') as (mrs2 & E2 & Hm2 & Hc2).
  rewrite E2.
  set (s2 := fexp prec emax (Zdigits2 m1 + e1) - e1) in *.
  set (e2 := e1 + Z.max s2 0) in *.
  assert (Hle2 : le_pow (shr_m mrs2) e2 N).
  { destruct Hc2 as [[Hs ->]|(Hs & Hq & _)].
    - unfold e2. cbn. replace (e1 + Z.max s2 0) with e1 by lia. exact Hle1.
    - unfold e2. replace (e1 + Z.max s2 0) with (e1 + s2) by lia.
      rewrite Hq. apply le_pow_shift; auto. }
  destruct (shr_m mrs2) as [|m2|m2] eqn:Em2.
  - left. reflexivity.
  - right. exists m2, e2.
    destruct (Z.leb_spec e2 (emax - prec)) as [Hov|Hov].
    + split; [reflexivity | exact Hle2].
    + exfalso. change (emax - prec) with 971 in Hov.
      destruct Hle2 as [H1 _]. specialize (H1 ltac:(lia)).
      assert (2 ^ 53 <= 2 ^ e2) by (apply Z.pow_le_mono_r; lia). nia.
  - lia.
Qed.

(** The alignment of a mantissa on a lower exponent is exact. *)
Lemma iter_xO (mx d : positive) :
  Z.pos (Pos.iter xO mx d) = Z.pos mx * 2 ^ Z.pos d.
Proof.
  induction d as [|d IH] using Pos.peano_ind.
  - cbn. lia.
  - rewrite Pos.iter_succ, Pos2Z.inj_xO, IH, Pos2Z.inj_succ, Z.pow_succ_r by lia.
    lia.
Qed.

Lemma shl_align_spec (mx : positive) (ex ex' : Z) :
  exists mz ez,
    shl_align mx ex ex' = (mz, ez)
    /\ ez <= ex /\ Z.pos mz = Z.pos mx * 2 ^ (ex - ez).
Proof.
  unfold shl_align. destruct (ex' - ex) as [|d|d] eqn:E.
  - exists mx, ex. rewrite Z.sub_diag. repeat split; lia.
  - exists mx, ex. rewrite Z.sub_diag. repeat split; lia.
  - exists (Pos.iter xO mx d), ex'. split; [reflexivity|]. split; [lia|].
    rewrite iter_xO. f_equal. f_equal. lia.
Qed.

(** The double nearest to a list length is not above it. *)
Lemma of_int_bound (n : Z) :
  0 <= n < 2 ^ 53 ->
  of_int n = S754_zero false
  \/ exists m e, of_int n = S754_finite false m e /\ le_pow (Z.pos m) e n.
Proof.
  intros Hn. unfold of_int, binary_normalize.
  destruct n as [|p|p]; [left; reflexivity | | lia].
  unfold binary_round.
  destruct (shl_align_spec p 0 (fexp prec emax (Z.pos (digits2_pos p) + 0)))
    as (mz & ez & -> & Hez & Hmz).
  apply round_aux_bound; [exact Hn|].
  split; intros H.
  - replace ez with 0 in * by lia. rewrite Hmz. cbn. lia.
  - rewrite Hmz. replace (0 - ez) with (- ez) by lia. lia.
Qed.

(** Multiplying by a factor that is at most 1. *)
Lemma le_pow_mul (mn mx : positive) (en ex N : Z) :
  le_pow (Z.pos mn) en N -> ex <= 0 -> Z.pos mx <= 2 ^ (- ex) ->
  le_pow (Z.pos (mn * mx)) (en + ex) N.
Proof.
  intros [H1 H2] Hex Hmx. rewrite Pos2Z.inj_mul.
  assert (Px : 0 < 2 ^ (- ex)) by (apply Z.pow_pos_nonneg; lia).
  assert (Hstep : Z.pos mn * Z.pos mx <= Z.pos mn * 2 ^ (- ex))
    by (apply Z.mul_le_mono_nonneg_l; lia).
  split; intros H.
  - specialize (H1 ltac:(lia)).
    assert (E : 2 ^ en = 2 ^ (en + ex) * 2 ^ (- ex))
      by (rewrite <- Z.pow_add_r by lia; f_equal; lia).
    assert (0 < 2 ^ (en + ex)) by (apply Z.pow_pos_nonneg; lia).
    assert (Z.pos mn * Z.pos mx * 2 ^ (en + ex)
            <= Z.pos mn * 2 ^ (- ex) * 2 ^ (en + ex))
      by (apply Z.mul_le_mono_nonneg_r; lia).
    rewrite E in H1. lia.
  - destruct (Z_lt_le_dec en 0) as [Hn|Hn].
    + specialize (H2 Hn).
      replace (- (en + ex)) with (- en + - ex) by lia.
      rewrite Z.pow_add_r by lia.
      assert (Z.pos mn * 2 ^ (- ex) <= N * 2 ^ (- en) * 2 ^ (- ex))
        by (apply Z.mul_le_mono_nonneg_r; lia).
      lia.
    + specialize (H1 Hn).
      assert (E : 2 ^ (- ex) = 2 ^ en * 2 ^ (- (en + ex)))
        by (rewrite <- Z.pow_add_r by lia; f_equal; lia).
      assert (0 < 2 ^ (- (en + ex))) by (apply Z.pow_pos_nonneg; lia).
      assert (Z.pos mn * 2 ^ en * 2 ^ (- (en + ex)) <= N * 2 ^ (- (en + ex)))
        by (apply Z.mul_le_mono_nonneg_r; lia).
      rewrite E in Hstep. lia.
Qed.

(** A double in (0, 1] is a positive mantissa times a power of two that
    does not exceed 1. *)
Lemma in_unit_interval_inv (x : spec_float) :
  in_unit_interval x = true ->
  exists m e, x = S754_finite false m e /\ e <= 0 /\ Z.pos m <= 2 ^ (- e).
Proof.
  unfold in_unit_interval. intros H.
  apply andb_true_iff in H as [H Hle]. apply andb_true_iff in H as [Hv Hlt].
  destruct x as [s|s| |s m e]; try discriminate.
  - destruct s; discriminate.
  - destruct s; [discriminate|]. exists m, e. split; [reflexivity|].
    unfold valid, valid_binary, bounded, canonical_mantissa in Hv.
    apply andb_true_iff in Hv as [Hc _]. apply Z.eqb_eq in Hc.
    rewrite fexp_eq in Hc.
    pose proof (digits2_pos_bounds m) as [_ Hd].
    set (d := Z.pos (digits2_pos m)) in *.
    assert (Hd53 : d <= 53) by lia.
    assert (Hm : Z.pos m < 2 ^ 53).
    { apply Z.lt_le_trans with (2 ^ d); [exact Hd|].
      apply Z.pow_le_mono_r; lia. }
    unfold SFleb, SFcompare, one in Hle.
    destruct (Z.compare_spec e (-52)) as [He|He|He]; try discriminate.
    + subst e. split; [lia|].
      change (2 ^ (- -52)) with (Z.pos 4503599627370496).
      apply Pos2Z.pos_le_pos. unfold Pos.le.
      rewrite Pos.compare_cont_spec in Hle.
      destruct (Pos.compare m 4503599627370496); cbn in Hle; congruence.
    + split; [lia|].
      apply Z.le_trans with (2 ^ 53); [lia|].
      apply Z.pow_le_mono_r; lia.
Qed.

Lemma trunc_mag_bounds (m : positive) (e N : Z) :
  le_pow (Z.pos m) e N -> 0 <= trunc_mag m e <= N.
Proof.
  intros [H1 H2]. unfold trunc_mag.
  destruct (Z.leb_spec 0 e) as [He|He].
  - specialize (H1 He).
    assert (0 < 2 ^ e) by (apply Z.pow_pos_nonneg; lia). nia.
  - specialize (H2 He).
    assert (P : 0 < 2 ^ (- e)) by (apply Z.pow_pos_nonneg; lia).
    split; [apply Z.div_pos; lia|].
    apply Z.div_le_upper_bound; lia.
Qed.

(** [int(len * ratio)] lies between 0 and [len] when [ratio] is in (0, 1],
    and it is the floor of the product. *)
Lemma cut_index_in_range (n : nat) (ratio : spec_float) :
  in_unit_interval ratio = true -> Z.of_nat n < 2 ^ 53 ->
  exists k,
    cut_index n ratio = Ok k
    /\ floor (mul (of_int (Z.of_nat n)) ratio) = Ok k
    /\ 0 <= k <= Z.of_nat n.
Proof.
  intros Hr Hn.
  apply in_unit_interval_inv in Hr as (mx & ex & -> & Hex & Hmx).
  unfold cut_index.
  destruct (of_int_bound (Z.of_nat n) ltac:(lia)) as [->|(mn & en & -> & Hle)].
  - exists 0. cbn. repeat split; lia.
  - unfold mul, SFmul. cbn [xorb].
    destruct (round_aux_bound (mn * mx) (en + ex) (Z.of_nat n) ltac:(lia)
                (le_pow_mul mn mx en ex _ Hle Hex Hmx))
      as [->|(m2 & e2 & -> & Hle2)].
    + exists 0. cbn. repeat split; lia.
    + exists (trunc_mag m2 e2). cbn. repeat split;
        apply (trunc_mag_bounds m2 e2 _ Hle2).
Qed.

End Rounding.

(** ** The partition of the ground truth *)

Lemma swap_perm {A} (l : list A) (i j : nat) : swap l i j ≡ₚ l.
Proof.
  unfold swap. destruct (l !! i) as [xi|] eqn:Ei; [|reflexivity].
  destruct (l !! j) as [xj|] eqn:Ej; [|reflexivity].
  apply Permutation_insert_swap; assumption.
Qed.

Lemma shuffle_from_perm {A} (rk : nat -> nat) (i : nat) :
  forall l : list A, shuffle_from rk i l ≡ₚ l.
Proof.
  induction i as [|i IH]; intros l; cbn [shuffle_from].
  - reflexivity.
  - rewrite IH. apply swap_perm.
Qed.

Lemma shuffle_perm {A} (rk : nat -> nat) (l : list A) : shuffle rk l ≡ₚ l.
Proof. apply shuffle_from_perm. Qed.

Lemma shuffle_length {A} (rk : nat -> nat) (l : list A) :
  length (shuffle rk l) = length l.
Proof. apply Permutation_length, shuffle_perm. Qed.

Lemma slice_bound_in_range (k : Z) (n : nat) :
  0 <= k <= Z.of_nat n -> slice_bound k n = Z.to_nat k.
Proof.
  intros Hk. unfold slice_bound.
  destruct (Z.ltb_spec k 0); [lia|]. f_equal. lia.
Qed.

(** The two slices always make up the list, whatever the bound. *)
Lemma slices_app {A} (k : Z) (l : list A) : slice_to k l ++ slice_from k l = l.
Proof. apply take_drop. Qed.

(** C6: for every sample list (a list in memory, hence of fewer than 2^53
    elements, so that its length is a double) and every ratio
    in (0, 1], the partition shuffles the list and returns as train set the
    first floor(len * ratio) elements of the shuffled list, exactly that
    many, and as test set the remainder; the lengths add up to the length
    of the input and the two outputs together are a permutation of the
    input: every element is in exactly one of them, none twice, none
    lost. *)
Theorem partition_splits_shuffled {A} (rk : nat -> nat) (samples : list A)
    (ratio : spec_float) :
  PyFloat.in_unit_interval ratio = true ->
  Z.of_nat (length samples) < 2 ^ 53 ->
  exists (k : Z) (train test : list A),
    PyFloat.floor
      (PyFloat.mul (PyFloat.of_int (Z.of_nat (length samples))) ratio) = Ok k
    /\ partition_ground_truth rk samples ratio = Ok (train, test)
    /\ train = take (Z.to_nat k) (shuffle rk samples)
    /\ test = drop (Z.to_nat k) (shuffle rk samples)
    /\ Z.of_nat (length train) = k
    /\ (length train + length test = length samples)%nat
    /\ train ++ test ≡ₚ samples.
Proof.
  intros Hr Hn.
  destruct (Rounding.cut_index_in_range (length samples) ratio Hr Hn)
    as (k & Hcut & Hfl & Hk).
  exists k, (take (Z.to_nat k) (shuffle rk samples)),
         (drop (Z.to_nat k) (shuffle rk samples)).
  split; [exact Hfl|]. split.
  { unfold partition_ground_truth. rewrite shuffle_length, Hcut.
    cbn [mbind result_bind]. unfold slice_to, slice_from.
    rewrite slice_bound_in_range by (rewrite shuffle_length; exact Hk).
    reflexivity. }
  split; [reflexivity|]. split; [reflexivity|].
  split; [|split].
  - rewrite length_take, shuffle_length. lia.
  - rewrite length_take, length_drop, shuffle_length. lia.
  - rewrite take_drop. apply shuffle_perm.
Qed.

Lemma partition_splits_shuffled_witness :
  PyFloat.in_unit_interval f0_9 = true
  /\ exists (k : Z) (train test : list string),
       PyFloat.floor
         (PyFloat.mul (PyFloat.of_int (Z.of_nat (length ten_lines))) f0_9)
       = Ok k
       /\ partition_ground_truth (fun _ => 0%nat) ten_lines f0_9
          = Ok (train, test)
       /\ train = take (Z.to_nat k) (shuffle (fun _ => 0%nat) ten_lines)
       /\ test = drop (Z.to_nat k) (shuffle (fun _ => 0%nat) ten_lines)
       /\ Z.of_nat (length train) = k
       /\ (length train + length test = length ten_lines)%nat
       /\ train ++ test ≡ₚ ten_lines.
Proof.
  split; [vm_compute; reflexivity|].
  apply (partition_splits_shuffled (fun _ => 0%nat) ten_lines f0_9).
  - vm_compute; reflexivity.
  - vm_compute; reflexivity.
Defined.

(** The scenario of the specification: ten lines at ratio 0.9 give nine for
    training and one for testing. *)
Example partition_ten_lines :
  partition_ground_truth (fun _ => 0%nat) ten_lines f0_9
  = Ok (["b"; "c"; "d"; "e"; "f"; "g"; "h"; "i"; "j"]%string, ["a"%string]).
Proof. vm_compute. reflexivity. Qed.

(** * Properties beyond the claims *)

(** ** More on geometry resolution *)

(** The four cases exclude one another, so the order of the tests on lines
    109-123 plays no role: each case alone decides the outcome. *)
Theorem cases_need_no_priority (pad0 : Z) (blk : Text.text) (b h w c : Z) :
  (case2 h w c ->
   classify pad0 blk b h w c
   = Ok (mkGeometry b h w c axis_default (ScaleInt h) pad0))
  /\ (case3 h w c ->
      classify pad0 blk b h w c
      = Ok (mkGeometry b h w c axis_default (ScalePair h w) 0))
  /\ (case4 h w c ->
      classify pad0 blk b h w c
      = Ok (mkGeometry b h w c axis_default (ScaleInt 0) 0))
  /\ ~ (case1 h w c /\ case2 h w c) /\ ~ (case1 h w c /\ case3 h w c)
  /\ ~ (case1 h w c /\ case4 h w c) /\ ~ (case2 h w c /\ case3 h w c)
  /\ ~ (case2 h w c /\ case4 h w c) /\ ~ (case3 h w c /\ case4 h w c).
Proof.
  unfold case1, case2, case3, case4.
  repeat split; try (intros [(? & ? & ?) (? & ? & ?)]; lia).
  - intros C. apply classify_case2; [|exact C].
    destruct C as (? & ? & ?). intros (? & ? & ?). lia.
  - intros C. apply classify_case3; [| |exact C];
      destruct C as (? & ? & ?); intros (? & ? & ?); lia.
  - intros C. apply classify_case4; [| | |exact C];
      destruct C as (? & ? & ?); intros (? & ? & ?); lia.
Qed.

(** *** Stripping *)

Lemma lstrip_spaces ws s :
  forallb Text.is_space ws = true -> Text.lstrip (ws ++ s) = Text.lstrip s.
Proof.
  induction ws as [|c ws IH]; cbn; [reflexivity|].
  intros H. apply andb_true_iff in H as [Hc Hws]. rewrite Hc. auto.
Qed.

Lemma lstrip_all_space ws :
  forallb Text.is_space ws = true -> Text.lstrip ws = [].
Proof.
  intros H. rewrite <- (app_nil_r ws). rewrite lstrip_spaces by exact H.
  reflexivity.
Qed.

Lemma lstrip_app s t :
  Text.lstrip (s ++ t)
  = match Text.lstrip s with
    | [] => Text.lstrip t
    | _ :: _ => Text.lstrip s ++ t
    end.
Proof.
  induction s as [|c s IH]; cbn.
  - destruct (Text.lstrip t); reflexivity.
  - destruct (Text.is_space c); [exact IH | reflexivity].
Qed.

Lemma forallb_rev {A} (f : A -> bool) l : forallb f (rev l) = forallb f l.
Proof.
  induction l as [|x l IH]; cbn; [reflexivity|].
  rewrite forallb_app, IH. cbn. rewrite andb_true_r. apply andb_comm.
Qed.

Lemma rstrip_spaces s ws :
  forallb Text.is_space ws = true -> Text.rstrip (s ++ ws) = Text.rstrip s.
Proof.
  intros H. unfold Text.rstrip. rewrite rev_app_distr, lstrip_spaces; [reflexivity|].
  rewrite forallb_rev. exact H.
Qed.

Lemma strip_spaces ws1 s ws2 :
  forallb Text.is_space ws1 = true -> forallb Text.is_space ws2 = true ->
  Text.strip (ws1 ++ s ++ ws2) = Text.strip s.
Proof.
  intros H1 H2. unfold Text.strip.
  rewrite lstrip_spaces by exact H1. rewrite lstrip_app.
  destruct (Text.lstrip s) as [|c t] eqn:E.
  - rewrite lstrip_all_space by exact H2. reflexivity.
  - apply rstrip_spaces. exact H2.
Qed.

(** Resolution sees the descriptor through [strip] only. *)
Lemma resolve_strip (pad0 : Z) (s s' : Text.text) :
  Text.strip s = Text.strip s' -> resolve pad0 s = resolve pad0 s'.
Proof.
  intros H. unfold resolve, preparse, block0_of. rewrite H. reflexivity.
Qed.

(** White space around the descriptor is ignored (line 99). *)
Theorem resolve_ignores_outer_space (pad0 : Z) (ws1 spec ws2 : Text.text) :
  forallb Text.is_space ws1 = true -> forallb Text.is_space ws2 = true ->
  resolve pad0 (ws1 ++ spec ++ ws2) = resolve pad0 spec.
Proof. intros H1 H2. apply resolve_strip, strip_spaces; assumption. Qed.

Lemma resolve_ignores_outer_space_witness :
  forallb Text.is_space (Text.lit "  ") = true
  /\ resolve 16 (Text.lit "  " ++ Text.lit "[1,32,0,1 Lbx100]" ++ Text.lit " ")
     = resolve 16 (Text.lit "[1,32,0,1 Lbx100]").
Proof.
  split; [reflexivity|].
  apply (resolve_ignores_outer_space 16 (Text.lit "  ")
           (Text.lit "[1,32,0,1 Lbx100]") (Text.lit " ")); reflexivity.
Defined.

(** *** The first block *)

Lemma strip_bracketed x :
  Text.strip ("["%char :: x ++ ["]"%char]) = "["%char :: x ++ ["]"%char].
Proof.
  unfold Text.strip, Text.rstrip. cbn [Text.lstrip].
  change (Text.is_space "[") with false. cbn iota.
  change ("["%char :: x ++ ["]"%char]) with (("["%char :: x) ++ ["]"%char]).
  rewrite rev_app_distr. cbn [rev app Text.lstrip].
  change (Text.is_space "]") with false. cbn iota.
  change ("]"%char :: rev x ++ ["["%char])
    with (rev ["]"%char] ++ rev ("["%char :: x)).
  rewrite <- rev_app_distr, rev_involutive. reflexivity.
Qed.

Lemma final_bracketed x : Text.final ("["%char :: x ++ ["]"%char]) = Ok "]"%char.
Proof.
  unfold Text.final.
  change ("["%char :: x ++ ["]"%char]) with (("["%char :: x) ++ ["]"%char]).
  rewrite rev_app_distr. reflexivity.
Qed.

Lemma inner_bracketed x : Text.inner ("["%char :: x ++ ["]"%char]) = x.
Proof. unfold Text.inner. cbn [tl]. apply removelast_last. Qed.

Lemma first_block_no_space tok :
  no_space tok = true -> Text.first_block tok = tok.
Proof.
  induction tok as [|c tok IH]; cbn; [reflexivity|].
  intros H. apply andb_true_iff in H as [Hc Ht].
  apply negb_true_iff in Hc. rewrite Hc, IH by exact Ht. reflexivity.
Qed.

Lemma first_block_app tok rest :
  no_space tok = true -> Text.first_block (tok ++ " "%char :: rest) = tok.
Proof.
  induction tok as [|c tok IH]; cbn; [reflexivity|].
  intros H. apply andb_true_iff in H as [Hc Ht].
  apply negb_true_iff in Hc. rewrite Hc, IH by exact Ht. reflexivity.
Qed.

(** A bracketed descriptor is resolved from its first block alone. *)
Lemma resolve_bracketed (pad0 : Z) (x : Text.text) :
  resolve pad0 ("["%char :: x ++ ["]"%char])
  = match re_match_input (Text.first_block x) with
    | None =>
        Raise (BadOptionUsage
                 [("Invalid input spec " ++ Text.show (Text.first_block x))%string])
    | Some (g1, g2, g3, g4) =>
        classify pad0 (Text.first_block x)
                 (Text.int_of_digits g1) (Text.int_of_digits g2)
                 (Text.int_of_digits g3) (Text.int_of_digits g4)
    end.
Proof.
  unfold resolve, preparse, block0_of.
  rewrite strip_bracketed, final_bracketed, inner_bracketed. cbn [Text.first].
  cbn [mbind result_bind]. change (Ascii.eqb "[" "[") with true.
  change (Ascii.eqb "]" "]") with true. cbn [negb orb].
  destruct (re_match_input (Text.first_block x)) as [[[[g1 g2] g3] g4]|];
    reflexivity.
Qed.

(** Whatever follows the first space inside the brackets, the layers of the
    network, has no influence on the geometry (lines 102-103). *)
Theorem resolve_reads_first_block_only (pad0 : Z) (tok rest : Text.text) :
  no_space tok = true ->
  resolve pad0 ("["%char :: (tok ++ " "%char :: rest) ++ ["]"%char])
  = resolve pad0 ("["%char :: tok ++ ["]"%char]).
Proof.
  intros H. rewrite !resolve_bracketed.
  rewrite first_block_app, first_block_no_space by exact H. reflexivity.
Qed.

Lemma resolve_reads_first_block_only_witness :
  no_space (Text.lit "1,48,0,1") = true
  /\ resolve 16 ("["%char :: (Text.lit "1,48,0,1" ++ " "%char
                               :: Text.lit "Cr3,3,32 Mp2,2 Lbx100")
                 ++ ["]"%char])
     = resolve 16 ("["%char :: Text.lit "1,48,0,1" ++ ["]"%char]).
Proof.
  split; [reflexivity|].
  apply (resolve_reads_first_block_only 16 (Text.lit "1,48,0,1")
           (Text.lit "Cr3,3,32 Mp2,2 Lbx100")).
  reflexivity.
Defined.

(** *** The regular expression of line 103 *)

Lemma span_digits_app d r :
  forallb Text.is_digit d = true -> no_leading_digit r = true ->
  Text.span_digits (d ++ r) = (d, r).
Proof.
  intros Hd Hr. induction d as [|c d IH]; cbn [app Text.span_digits].
  - destruct r as [|c r]; [reflexivity|]. cbn [no_leading_digit] in Hr.
    apply negb_true_iff in Hr. cbn [Text.span_digits]. rewrite Hr. reflexivity.
  - cbn [forallb] in Hd. apply andb_true_iff in Hd as [Hc Hd].
    rewrite Hc, IH by exact Hd. reflexivity.
Qed.

Lemma span_digits_inv s : forall d r,
  Text.span_digits s = (d, r) ->
  s = d ++ r /\ forallb Text.is_digit d = true /\ no_leading_digit r = true.
Proof.
  induction s as [|c s IH]; intros d r; cbn [Text.span_digits].
  - intros H. injection H as <- <-. repeat split.
  - destruct (Text.is_digit c) eqn:Ec.
    + destruct (Text.span_digits s) as [d' r'].
      intros H. injection H as <- <-.
      destruct (IH d' r' eq_refl) as (-> & Hd & Hr).
      repeat split; [cbn [forallb]; rewrite Ec, Hd; reflexivity | exact Hr].
    + intros H. injection H as <- <-. repeat split.
      cbn [no_leading_digit]. rewrite Ec. reflexivity.
Qed.

Lemma re_digits_spec s d r :
  Text.re_digits s = Some (d, r)
  <-> is_integer d = true /\ no_leading_digit r = true /\ s = d ++ r.
Proof.
  unfold Text.re_digits, is_integer. split.
  - destruct (Text.span_digits s) as [[|c d'] r'] eqn:E; [discriminate|].
    intros H. injection H as <- <-.
    apply span_digits_inv in E as (-> & Hd & Hr). repeat split; assumption.
  - intros (Hd & Hr & ->). destruct d as [|c d]; [discriminate|].
    rewrite span_digits_app by assumption. reflexivity.
Qed.

Lemma re_comma_spec s r : Text.re_comma s = Some r <-> s = ","%char :: r.
Proof.
  unfold Text.re_comma. destruct s as [|c s].
  - split; discriminate.
  - destruct (Ascii.eqb_spec c ","%char) as [->|Hc]; split; intros H.
    + injection H as <-. reflexivity.
    + injection H as <-. reflexivity.
    + discriminate.
    + injection H as -> _. congruence.
Qed.

(** The expression accepts exactly the tokens that begin with four runs of
    digits separated by commas, and its groups are those runs: each run is
    the longest possible, and anything may follow the fourth. *)
Theorem re_match_input_spec (tok g1 g2 g3 g4 : Text.text) :
  re_match_input tok = Some (g1, g2, g3, g4)
  <-> is_integer g1 = true /\ is_integer g2 = true
      /\ is_integer g3 = true /\ is_integer g4 = true
      /\ exists suffix,
           no_leading_digit suffix = true
           /\ tok = four_groups g1 g2 g3 g4 suffix.
Proof.
  unfold re_match_input, four_groups. split.
  - destruct (Text.re_digits tok) as [[d1 r1]|] eqn:E1; [|discriminate].
    destruct (Text.re_comma r1) as [r1'|] eqn:C1; [|discriminate].
    destruct (Text.re_digits r1') as [[d2 r2]|] eqn:E2; [|discriminate].
    destruct (Text.re_comma r2) as [r2'|] eqn:C2; [|discriminate].
    destruct (Text.re_digits r2') as [[d3 r3]|] eqn:E3; [|discriminate].
    destruct (Text.re_comma r3) as [r3'|] eqn:C3; [|discriminate].
    destruct (Text.re_digits r3') as [[d4 r4]|] eqn:E4; [|discriminate].
    intros H. injection H as <- <- <- <-.
    apply re_digits_spec in E1 as (H1 & _ & ->).
    apply re_digits_spec in E2 as (H2 & _ & ->).
    apply re_digits_spec in E3 as (H3 & _ & ->).
    apply re_digits_spec in E4 as (H4 & Hs & ->).
    apply re_comma_spec in C1 as ->. apply re_comma_spec in C2 as ->.
    apply re_comma_spec in C3 as ->.
    repeat split; try assumption. exists r4. split; [exact Hs | reflexivity].
  - intros (H1 & H2 & H3 & H4 & suffix & Hs & ->).
    rewrite (proj2 (re_digits_spec _ g1 _)) by (repeat split; auto).
    cbn [Text.re_comma]. change (Ascii.eqb "," ",") with true. cbn iota.
    rewrite (proj2 (re_digits_spec _ g2 _)) by (repeat split; auto).
    cbn [Text.re_comma]. change (Ascii.eqb "," ",") with true. cbn iota.
    rewrite (proj2 (re_digits_spec _ g3 _)) by (repeat split; auto).
    cbn [Text.re_comma]. change (Ascii.eqb "," ",") with true. cbn iota.
    rewrite (proj2 (re_digits_spec _ g4 suffix)) by (repeat split; auto).
    reflexivity.
Qed.

Lemma re_match_input_spec_witness :
  re_match_input (Text.lit "1,1,0,48abc")
  = Some (Text.lit "1", Text.lit "1", Text.lit "0", Text.lit "48").
Proof.
  apply (proj2 (re_match_input_spec (Text.lit "1,1,0,48abc") (Text.lit "1")
                  (Text.lit "1") (Text.lit "0") (Text.lit "48"))).
  repeat split. exists (Text.lit "abc"). split; reflexivity.
Defined.

(** ** What the log of a run can contain *)

Lemma emits_ret {A} P (x : A) : emits P (mret x).
Proof. intros s. exists []. cbn. rewrite app_nil_r. split; [reflexivity | constructor]. Qed.

Lemma emits_skip P : emits P skip.
Proof. apply emits_ret. Qed.

Lemma emits_lift {A} P (r : result A) : emits P (lift r).
Proof. intros s. exists []. cbn. rewrite app_nil_r. split; [reflexivity | constructor]. Qed.

Lemma emits_raise {A} P (e : exn) : emits P (@raise A e).
Proof. apply (emits_lift P (Raise e)). Qed.

Lemma emits_bind_epoch P epoch : emits P (bind_epoch epoch).
Proof. intros s. exists []. cbn. rewrite app_nil_r. split; [reflexivity | constructor]. Qed.

Lemma emits_emit (P : event -> Prop) ev : P ev -> emits P (emit ev).
Proof. intros H s. exists [ev]. split; [reflexivity | repeat constructor; exact H]. Qed.

Lemma emits_bind {A B} P (m : M A) (k : A -> M B) :
  emits P m -> (forall x, emits P (k x)) -> emits P (m ≫= k).
Proof.
  intros Hm Hk s. destruct (Hm s) as (evs & E & HP).
  unfold mbind, M_bind. destruct (m s) as [[x|e] s1]; cbn in E.
  - destruct (Hk x s1) as (evs' & E' & HP'). exists (evs ++ evs').
    rewrite E', E, app_assoc. split; [reflexivity|].
    apply Forall_app; split; assumption.
  - exists evs. split; assumption.
Qed.

Lemma emits_try {A} P (m : M A) (h : exn -> M A) :
  emits P m -> (forall e, emits P (h e)) -> emits P (try_except m h).
Proof.
  intros Hm Hh s. destruct (Hm s) as (evs & E & HP).
  unfold try_except. destruct (m s) as [[x|e] s1]; cbn in E.
  - exists evs. split; assumption.
  - destruct (Hh e s1) as (evs' & E' & HP'). exists (evs ++ evs').
    rewrite E', E, app_assoc. split; [reflexivity|].
    apply Forall_app; split; assumption.
Qed.

Lemma emits_for_each {A} P (l : list A) (body : A -> M unit) :
  (forall x, x ∈ l -> emits P (body x)) -> emits P (for_each l body).
Proof.
  induction l as [|x l IH]; intros Hb; cbn [for_each].
  - apply emits_skip.
  - apply emits_bind.
    + apply Hb. left.
    + intros _. apply IH. intros y Hy. apply Hb. right. exact Hy.
Qed.

Lemma emits_lift_raise {A B} P (e : exn) (k : A -> M B) :
  emits P (lift (Raise e) ≫= k).
Proof.
  intros s. exists []. cbn. rewrite app_nil_r. split; [reflexivity | constructor].
Qed.

(** Decompose along binds, loops and tests; an event is accepted when the
    predicate computes to a trivial one on it. *)
Ltac emits_step :=
  match goal with
  | |- emits _ (_ ≫= _) => apply emits_bind; [|intros]
  | |- emits _ (for_each _ _) => apply emits_for_each; intros
  | |- emits _ (try_except _ _) => apply emits_try; [|intros]
  | |- emits _ (if ?c then _ else _) => destruct c
  | |- emits _ (match ?x with _ => _ end) => destruct x
  | |- emits _ skip => apply emits_skip
  | |- emits _ (mret _) => apply emits_ret
  | |- emits _ (lift _) => apply emits_lift
  | |- emits _ (raise _) => apply emits_raise
  | |- emits _ (bind_epoch _) => apply emits_bind_epoch
  | |- emits _ (echo _) => apply emits_emit; exact I
  | |- emits _ (spin _) => apply emits_emit; exact I
  | |- emits _ tick => apply emits_emit; exact I
  | |- emits _ (emit _) => apply emits_emit; exact I
  end.

Lemma emits_setup w a : emits (log_invariant w a) (setup w a).
Proof.
  unfold setup, check_options, build_train_set, build_test_set,
    report_and_encode, make_model, make_optimizer.
  repeat emits_step.
Qed.

Lemma emits_train_epoch w a tr_im epoch :
  0 <= epoch < arg_epochs a ->
  emits (log_invariant w a) (train_epoch w a tr_im epoch).
Proof.
  intros He. unfold train_epoch. apply emits_for_each. intros trial _.
  apply emits_bind; [apply emits_emit; exact He|]. intros _.
  apply emits_bind; [repeat emits_step|]. intros _.
  apply emits_bind; [apply emits_emit; exact He|]. intros _.
  emits_step.
Qed.

Lemma emits_checkpoint w a epoch :
  0 <= epoch < arg_epochs a ->
  emits (log_invariant w a) (checkpoint w a epoch).
Proof.
  intros He. unfold checkpoint, py_mod.
  destruct (Z.eqb_spec epoch 0) as [E0|E0]; [apply emits_skip|].
  destruct (Z.eqb_spec (arg_savefreq a) 0) as [Ef|Ef].
  { apply emits_lift_raise. }
  intros s. unfold lift, mbind at 1, M_bind at 1. revert s.
  destruct (Z.eqb_spec (epoch mod arg_savefreq a) 0) as [Em|Em];
    [|apply emits_skip].
  assert (B : boundary (arg_epochs a) (arg_savefreq a) epoch)
    by (repeat split; auto; lia).
  apply emits_bind; [|intros; repeat emits_step].
  destruct (save_model w (checkpoint_file a epoch)) as [e|] eqn:Es.
  - intros s. exists [Echo (MsgSaveFailed e)]. split; [reflexivity|].
    repeat constructor. exists epoch. split; assumption.
  - intros s. exists [SaveModel (checkpoint_file a epoch)].
    split; [reflexivity|]. repeat constructor.
    exists epoch. repeat split; auto; apply B.
Qed.

Lemma emits_accuracy_report w a te_im epoch :
  0 <= epoch < arg_epochs a ->
  emits (log_invariant w a) (accuracy_report w a te_im epoch).
Proof.
  intros He. unfold accuracy_report, py_mod.
  destruct (Z.eqb_spec epoch 0) as [E0|E0]; [apply emits_skip|].
  destruct (Z.eqb_spec (arg_report a) 0) as [Ef|Ef].
  { apply emits_lift_raise. }
  intros s. unfold lift, mbind at 1, M_bind at 1. revert s.
  destruct (Z.eqb_spec (epoch mod arg_report a) 0) as [Em|Em];
    [|apply emits_skip].
  assert (B : boundary (arg_epochs a) (arg_report a) epoch)
    by (repeat split; auto; lia).
  destruct (compute_error w te_im) as [c e].
  apply emits_bind; [repeat emits_step|]. intros _.
  unfold py_truediv. destruct (Z.eqb_spec c 0) as [Ec|Ec].
  - apply emits_lift_raise.
  - intros s. exists [Echo (MsgAccuracy epoch (c - e, c) c e)].
    split; [reflexivity|].
    constructor; [|constructor].
    split; [exact B | split; [exact Ec | reflexivity]].
Qed.

Lemma emits_training_loop w a tr_im te_im :
  emits (log_invariant w a) (training_loop w a tr_im te_im).
Proof.
  unfold training_loop. apply emits_for_each. intros epoch Hin.
  apply elem_of_seqZ in Hin.
  assert (He : 0 <= epoch < arg_epochs a) by lia.
  apply emits_bind; [apply emits_bind_epoch|]. intros _.
  apply emits_bind; [apply emits_train_epoch; exact He|]. intros _.
  apply emits_bind; [apply emits_checkpoint; exact He|]. intros _.
  apply emits_accuracy_report; exact He.
Qed.

(** Every entry of the log of a run satisfies the invariant. *)
Lemma run_log_invariant w a :
  Forall (log_invariant w a) (st_log (run w a).2).
Proof.
  assert (H : emits (log_invariant w a) (train w a)).
  { unfold train. apply emits_bind; [apply emits_setup|].
    intros [tr_im te_im]. apply emits_training_loop. }
  destruct (H init_state) as (evs & E & HP).
  unfold run. rewrite E. exact HP.
Qed.

(** ** The schedule of checkpoints and reports *)



(** An accuracy report is printed only after an epoch that is a boundary of
    [report], only when the evaluation counted at least one character, and
    the accuracy it shows is the quotient of [c - e] by [c]. *)
Theorem reports_only_at_boundaries (w : World) (a : Args)
    (epoch c e : Z) (acc : Z * Z) :
  In (Echo (MsgAccuracy epoch acc c e)) (st_log (run w a).2) ->
  boundary (arg_epochs a) (arg_report a) epoch /\ c <> 0 /\ acc = (c - e, c).
Proof.
  intros Hin.
  exact (proj1 (List.Forall_forall _ _) (run_log_invariant w a) _ Hin).
Qed.

Lemma reports_only_at_boundaries_witness :
  In (Echo (MsgAccuracy 1 (4, 5) 5 1))
     (st_log (run quiet_world (default_args ["a"; "b"]%string)).2)
  /\ boundary 3 1 1 /\ 5 <> 0 /\ (4, 5) = (5 - 1, 5).
Proof.
  assert (H : In (Echo (MsgAccuracy 1 (4, 5) 5 1))
                 (st_log (run quiet_world (default_args ["a"; "b"]%string)).2)).
  { vm_compute. repeat (first [left; reflexivity | right]). }
  split; [exact H|].
  exact (reports_only_at_boundaries quiet_world
           (default_args ["a"; "b"]%string) 1 5 1 (4, 5) H).
Defined.

(** With [--epochs 0], or a negative number, nothing is trained, saved or
    evaluated: the log of the run holds no forward pass, no optimizer step,
    no checkpoint and no report. *)
Theorem no_epochs_no_training (w : World) (a : Args) :
  arg_epochs a <= 0 ->
  forall ev, In ev (st_log (run w a).2) ->
    match ev with
    | Forward _ _ | OptimStep _ _ | SaveModel _
    | Echo (MsgAccuracy _ _ _ _) | Echo (MsgSaveFailed _) => False
    | _ => True
    end.
Proof.
  intros Hn ev Hin.
  pose proof (proj1 (List.Forall_forall _ _) (run_log_invariant w a) _ Hin) as H.
  destruct ev as [|[]| | | | | | | | | | |]; cbn in H; try exact I;
    try lia; try (destruct H as (? & (? & ?) & ?); lia);
    destruct H as ((? & ?) & ?); lia.
Qed.

Lemma no_epochs_no_training_witness :
  arg_epochs (with_epochs 0 (default_args ["a"; "b"]%string)) <= 0
  /\ ~ In (Forward 0 0)
         (st_log (run quiet_world
                      (with_epochs 0 (default_args ["a"; "b"]%string))).2).
Proof.
  split; [cbn; lia|]. intros H.
  exact (no_epochs_no_training quiet_world
           (with_epochs 0 (default_args ["a"; "b"]%string))
           ltac:(cbn; lia) (Forward 0 0) H).
Defined.

Lemma checkpoint_saves (w : World) (a : Args) (epoch : Z)
    (s s2 : TrainingState) :
  boundary (arg_epochs a) (arg_savefreq a) epoch ->
  save_model w (checkpoint_file a epoch) = None ->
  checkpoint w a epoch s = (Ok tt, s2) ->
  In (SaveModel (checkpoint_file a epoch)) (st_log s2).
Proof.
  intros ((Hp & _) & Hf & Hmod) Hsave. unfold checkpoint, py_mod.
  replace (epoch =? 0) with false by (symmetry; apply Z.eqb_neq; lia).
  replace (arg_savefreq a =? 0) with false
    by (symmetry; apply Z.eqb_neq; exact Hf).
  unfold lift, mbind at 1, M_bind at 1. rewrite Hmod, Hsave. cbn [Z.eqb].
  unfold try_except, raise, echo, emit, mbind, M_bind.
  destruct (arg_verbose a >? 0); cbn; intros H; injection H as <-; cbn;
    rewrite ?in_app_iff; cbn; tauto.
Qed.

Lemma accuracy_report_reports (w : World) (a : Args) (te_im : list string)
    (epoch : Z) (s s2 : TrainingState) :
  boundary (arg_epochs a) (arg_report a) epoch ->
  accuracy_report w a te_im epoch s = (Ok tt, s2) ->
  exists c e, In (Echo (MsgAccuracy epoch (c - e, c) c e)) (st_log s2).
Proof.
  intros ((Hp & _) & Hf & Hmod). unfold accuracy_report, py_mod.
  replace (epoch =? 0) with false by (symmetry; apply Z.eqb_neq; lia).
  replace (arg_report a =? 0) with false
    by (symmetry; apply Z.eqb_neq; exact Hf).
  unfold lift, mbind at 1, M_bind at 1. rewrite Hmod. cbn [Z.eqb].
  destruct (compute_error w te_im) as [c e]. unfold py_truediv.
  intros Hrun. exists c, e. revert Hrun.
  unfold echo, emit, skip, mret, M_ret, mbind, M_bind.
  destruct (arg_verbose a <? 3), (c =? 0); cbn; intros H;
    try discriminate; injection H as <-; cbn;
    rewrite ?in_app_iff; cbn; tauto.
Qed.

(** The steps that one iteration of the loop is made of, when the run went
    through. *)
Lemma completed_run_iteration (w : World) (a : Args) (s' : TrainingState)
    (epoch : Z) :
  run w a = (Ok tt, s') -> 0 <= epoch < arg_epochs a ->
  exists te_im sa sb sc evs,
    checkpoint w a epoch sa = (Ok tt, sb)
    /\ accuracy_report w a te_im epoch sb = (Ok tt, sc)
    /\ (exists evs', st_log sc = st_log sb ++ evs')
    /\ st_log s' = st_log sc ++ evs.
Proof.
  unfold run, train. intros H Hep.
  apply bind_ok_inv in H as ([tr_im te_im] & s0 & Hs & Hl).
  unfold training_loop in Hl.
  apply (loop_iteration
           (fun epoch => train_epoch w a tr_im epoch;; checkpoint w a epoch;;
                         accuracy_report w a te_im epoch)) with (x := epoch)
    in Hl.
  - destruct Hl as (s1 & s2 & evs & Hrest & Hlog).
    apply bind_ok_inv in Hrest as ([] & sa & _ & Hrest).
    apply bind_ok_inv in Hrest as ([] & sb & Hck & Hacc).
    exists te_im, sa, sb, s2, evs. repeat split; try assumption.
    destruct (obl_log (accuracy_report w a te_im epoch) sb
                (obl_accuracy_report w a te_im epoch)) as [evs2 E2].
    rewrite Hacc in E2. exists evs2. exact E2.
  - intros x. obl; auto using obl_train_epoch, obl_checkpoint,
                obl_accuracy_report.
  - apply elem_of_seqZ. lia.
Qed.

(** In a run that went through, the schedule is kept: after every boundary
    of [savefreq] at which the save works the checkpoint of that epoch has
    been written, and after every boundary of [report] there is a report
    for that epoch. *)
Theorem completed_run_keeps_schedule (w : World) (a : Args)
    (s' : TrainingState) (epoch : Z) :
  run w a = (Ok tt, s') ->
  (boundary (arg_epochs a) (arg_savefreq a) epoch ->
   save_model w (checkpoint_file a epoch) = None ->
   In (SaveModel (checkpoint_file a epoch)) (st_log s'))
  /\ (boundary (arg_epochs a) (arg_report a) epoch ->
      exists c e, In (Echo (MsgAccuracy epoch (c - e, c) c e)) (st_log s')).
Proof.
  intros Hrun. split.
  - intros B Hsave.
    destruct (completed_run_iteration w a s' epoch Hrun)
      as (te_im & sa & sb & sc & evs & Hck & Hacc & (evs' & E') & E);
      [destruct B as ((? & ?) & _); lia|].
    rewrite E, E'. apply in_or_app. left. apply in_or_app. left.
    eapply checkpoint_saves; eassumption.
  - intros B.
    destruct (completed_run_iteration w a s' epoch Hrun)
      as (te_im & sa & sb & sc & evs & Hck & Hacc & _ & E);
      [destruct B as ((? & ?) & _); lia|].
    destruct (accuracy_report_reports w a te_im epoch sb sc B Hacc)
      as (c & e & Hin).
    exists c, e. rewrite E. apply in_or_app. left. exact Hin.
Qed.

Lemma completed_run_keeps_schedule_witness :
  run quiet_world (default_args ["a"; "b"]%string)
  = (Ok tt, (run quiet_world (default_args ["a"; "b"]%string)).2)
  /\ (boundary 3 1 2 ->
      save_model quiet_world
        (checkpoint_file (default_args ["a"; "b"]%string) 2) = None ->
      In (SaveModel (checkpoint_file (default_args ["a"; "b"]%string) 2))
         (st_log (run quiet_world (default_args ["a"; "b"]%string)).2)).
Proof.
  assert (H : run quiet_world (default_args ["a"; "b"]%string)
              = (Ok tt, (run quiet_world (default_args ["a"; "b"]%string)).2))
    by (vm_compute; reflexivity).
  split; [exact H|].
  exact (proj1 (completed_run_keeps_schedule quiet_world
                  (default_args ["a"; "b"]%string) _ 2 H)).
Defined.

(** With [--savefreq 0] or [--report 0] a run of two epochs or more cannot
    go through: the remainder taken after epoch 1 divides by zero. *)
Theorem zero_frequency_never_completes (w : World) (a : Args) :
  arg_savefreq a = 0 \/ arg_report a = 0 -> 2 <= arg_epochs a ->
  (run w a).1 <> Ok tt.
Proof.
  intros Hz Hep Hok.
  destruct (run w a) as [r s'] eqn:Hrun. cbn in Hok. subst r.
  destruct (completed_run_iteration w a s' 1 Hrun ltac:(lia))
    as (te_im & sa & sb & sc & evs & Hck & Hacc & _).
  destruct Hz as [Hz|Hz].
  - unfold checkpoint, py_mod in Hck. rewrite Hz in Hck. discriminate Hck.
  - unfold accuracy_report, py_mod in Hacc. rewrite Hz in Hacc.
    discriminate Hacc.
Qed.

Lemma zero_frequency_never_completes_witness :
  2 <= arg_epochs (with_frequencies 0 1 (default_args ["a"; "b"]%string))
  /\ (run quiet_world
          (with_frequencies 0 1 (default_args ["a"; "b"]%string))).1
     <> Ok tt.
Proof.
  split; [cbn; lia|].
  apply (zero_frequency_never_completes quiet_world
           (with_frequencies 0 1 (default_args ["a"; "b"]%string)));
    [left; reflexivity | cbn; lia].
Defined.

(** ** Errors and edge cases before the loop *)

(** A descriptor that resolution rejects stops the command before anything
    is printed and before any corpus is built. *)
Theorem rejected_descriptor_stops_before_corpora (w : World) (a : Args)
    (e : exn) :
  truthy_str (arg_load a) && truthy_file (arg_codec a) = false ->
  resolve (arg_pad a) (Text.lit (arg_spec a)) = Raise e ->
  run w a = (Raise e, init_state).
Proof.
  intros Ho Hr. unfold run, train, setup, check_options.
  rewrite Ho. unfold mbind at 1 2 3, M_bind at 1 2 3. cbn [skip mret M_ret].
  rewrite Hr. reflexivity.
Qed.

Lemma rejected_descriptor_stops_before_corpora_witness :
  resolve 16 (Text.lit "[1,0,128,1 Lbx100]")
  = Raise (BadOptionUsage
             ["Invalid input spec 1,0,128,1 (variable height and fixed width not supported)"%string])
  /\ run quiet_world (with_spec "[1,0,128,1 Lbx100]" (default_args ten_lines))
     = (Raise (BadOptionUsage
                 ["Invalid input spec 1,0,128,1 (variable height and fixed width not supported)"%string]),
        init_state).
Proof.
  split; [reflexivity|].
  apply (rejected_descriptor_stops_before_corpora quiet_world
           (with_spec "[1,0,128,1 Lbx100]" (default_args ten_lines)));
    reflexivity.
Defined.

(** The partition loses and duplicates nothing, whatever the ratio is:
    negative, above 1, or so small that one side is empty.  When it
    returns, the two halves together are a permutation of the input. *)
Theorem partition_loses_nothing {A} (rk : nat -> nat) (samples : list A)
    (ratio : spec_float) (tr_im te_im : list A) :
  partition_ground_truth rk samples ratio = Ok (tr_im, te_im) ->
  tr_im ++ te_im ≡ₚ samples
  /\ (length tr_im + length te_im = length samples)%nat.
Proof.
  unfold partition_ground_truth.
  destruct (cut_index (length (shuffle rk samples)) ratio) as [k|e];
    [|discriminate].
  cbn [mbind result_bind]. intros H. injection H as <- <-.
  split.
  - rewrite slices_app. apply shuffle_perm.
  - rewrite <- length_app, slices_app. apply shuffle_length.
Qed.

Lemma partition_loses_nothing_witness :
  partition_ground_truth (fun _ => 0%nat) ["a"; "b"; "c"]%string
    (S754_finite true 6305039478318694 (-53))
  = Ok (["b"%string], ["c"; "a"]%string)
  /\ ["b"%string] ++ ["c"; "a"]%string ≡ₚ ["a"; "b"; "c"]%string.
Proof.
  assert (H : partition_ground_truth (fun _ => 0%nat) ["a"; "b"; "c"]%string
                (S754_finite true 6305039478318694 (-53))
              = Ok (["b"%string], ["c"; "a"]%string))
    by (vm_compute; reflexivity).
  split; [exact H|].
  exact (proj1 (partition_loses_nothing _ _ _ _ _ H)).
Defined.

Lemma partition_empty {A} (rk : nat -> nat) (ratio : spec_float) :
  is_finite_float ratio = true ->
  partition_ground_truth rk (@nil A) ratio = Ok ([], []).
Proof.
  intros H. unfold partition_ground_truth, cut_index. cbn [shuffle length].
  destruct ratio as [s|s| |s m e]; try discriminate; reflexivity.
Qed.

(** Without any ground truth file and with [-vv], the command does not get
    as far as the encoding: the message of line 186 reads the loop variable
    [im], which no loop has bound, and the run ends in UnboundLocalError. *)
Theorem verbose_run_without_ground_truth (w : World) (a : Args) (g : Geometry) :
  arg_ground_truth a = [] -> 1 < arg_verbose a ->
  truthy_str (arg_load a) && truthy_file (arg_codec a) = false ->
  resolve (arg_pad a) (Text.lit (arg_spec a)) = Ok g ->
  is_finite_float (arg_partition a) = true ->
  (run w a).1 = Raise UnboundLocalError.
Proof.
  intros Hgt Hv Ho Hr Hp. unfold run, train, setup, check_options.
  rewrite Ho, Hgt. unfold mbind at 1 2 3, M_bind at 1 2 3. cbn [skip mret M_ret].
  rewrite Hr. unfold lift at 1.
  rewrite (partition_empty (rk_interval w) (arg_partition a) Hp).
  unfold build_train_set, build_test_set, report_and_encode.
  replace (arg_verbose a >? 0) with true by (symmetry; apply Z.gtb_lt; lia).
  replace (arg_verbose a >? 1) with true by (symmetry; apply Z.gtb_lt; lia).
  replace (arg_verbose a =? 0) with false by (symmetry; apply Z.eqb_neq; lia).
  unfold mbind, M_bind, echo, emit, lift, skip, mret, M_ret, tick, raise.
  cbn -[symmetric_difference].
  destruct (symmetric_difference (alphabet w []) (alphabet w []));
    reflexivity.
Qed.

Lemma verbose_run_without_ground_truth_witness :
  1 < arg_verbose (with_verbose 2 (default_args []))
  /\ (run quiet_world (with_verbose 2 (default_args []))).1
     = Raise UnboundLocalError.
Proof.
  split; [cbn; lia|].
  apply (verbose_run_without_ground_truth quiet_world
           (with_verbose 2 (default_args []))
           (mkGeometry 1 1 0 48 axis_swapped (ScaleInt 48) 16));
    try reflexivity.
Defined.

(** ** Ratios of 1 and above *)

Module RoundingBelow.

Import PyFloat.

Lemma ge_pow_zero m e : 0 <= m -> ge_pow m e 0.
Proof.
  intros Hm. split; intros He.
  - assert (0 < 2 ^ e) by (apply Z.pow_pos_nonneg; lia). nia.
  - lia.
Qed.

Lemma ge_pow_mono m m' e N : m <= m' -> ge_pow m e N -> ge_pow m' e N.
Proof.
  intros Hm [H1 H2]. split; intros He.
  - specialize (H1 He). assert (0 < 2 ^ e) by (apply Z.pow_pos_nonneg; lia). nia.
  - specialize (H2 He). lia.
Qed.

Lemma ge_pow_pos m e N : 0 < N -> ge_pow m e N -> 0 < m.
Proof.
  intros HN [H1 H2]. destruct (Z_lt_le_dec e 0) as [He|He].
  - specialize (H2 He). assert (0 < 2 ^ (- e)) by (apply Z.pow_pos_nonneg; lia). nia.
  - specialize (H1 He). assert (0 < 2 ^ e) by (apply Z.pow_pos_nonneg; lia). nia.
Qed.

(** One shift of rounding keeps the value above an integer below [2^53]:
    either the integer is on the grid of the new exponent, or the new
    exponent is positive and the mantissa keeps 53 digits. *)
Lemma shr_fexp_ge (m e N : Z) :
  0 <= m -> 0 <= N < 2 ^ 53 -> ge_pow m e N ->
  exists mrs e1,
    shr_fexp prec emax m e loc_Exact = (mrs, e1)
    /\ 0 <= shr_m mrs /\ ge_pow (shr_m mrs) e1 N.
Proof.
  intros Hm HN Hge.
  destruct (Rounding.shr_fexp_exact m e Hm) as (mrs & E & Hm1 & Hc).
  exists mrs, (e + Z.max (fexp prec emax (Zdigits2 m + e) - e) 0).
  split; [exact E|]. split; [exact Hm1|].
  destruct (Z.eq_dec N 0) as [->|HN0]; [apply ge_pow_zero; exact Hm1|].
  assert (Hmp : 0 < m) by (apply (ge_pow_pos m e N); [lia | exact Hge]).
  set (s := fexp prec emax (Zdigits2 m + e) - e) in *.
  destruct Hc as [[Hs ->]|(Hs & Hq & _)].
  - cbn [shr_m]. replace (e + Z.max s 0) with e by lia. exact Hge.
  - replace (e + Z.max s 0) with (e + s) by lia. rewrite Hq.
    assert (P : 0 < 2 ^ s) by (apply Z.pow_pos_nonneg; lia).
    destruct (Z_le_gt_dec (e + s) 0) as [Hneg|Hpos].
    + destruct Hge as [_ H2]. specialize (H2 ltac:(lia)).
      replace (- e) with (s + - (e + s)) in H2 by lia.
      rewrite Z.pow_add_r in H2 by lia.
      assert (Hk : N * 2 ^ (- (e + s)) <= m / 2 ^ s)
        by (apply Z.div_le_lower_bound; [exact P | lia]).
      split; intros H.
      * replace (e + s) with 0 in * by lia. cbn in Hk. cbn. lia.
      * exact Hk.
    + destruct m as [|p|p]; try lia.
      unfold s in Hpos, Hs. rewrite Rounding.fexp_eq in Hpos, Hs.
      cbn [Zdigits2] in Hpos, Hs.
      pose proof (Rounding.digits2_pos_bounds p) as [Hd _].
      set (d := Z.pos (digits2_pos p)) in *.
      assert (Es : s = d - 53) by (unfold s; rewrite Rounding.fexp_eq;
                                   cbn [Zdigits2]; fold d; lia).
      assert (Hq52 : 2 ^ 52 <= Z.pos p / 2 ^ s).
      { apply Z.div_le_lower_bound; [exact P|].
        rewrite <- Z.pow_add_r by lia. replace (s + 52) with (d - 1) by lia.
        exact Hd. }
      split; intros H; [|lia].
      assert (2 ^ 1 <= 2 ^ (e + s)) by (apply Z.pow_le_mono_r; lia).
      assert (2 ^ 52 * 2 ^ 1 <= Z.pos p / 2 ^ s * 2 ^ (e + s))
        by (apply Z.mul_le_mono_nonneg; lia).
      change (2 ^ 52 * 2 ^ 1) with (2 ^ 53) in *. lia.
Qed.

(** Rounding to nearest does not go below an integer under [2^53] that the
    exact value reaches; it may overflow. *)
Lemma round_aux_lower (m : positive) (e N : Z) :
  0 <= N < 2 ^ 53 -> ge_pow (Z.pos m) e N ->
  (binary_round_aux prec emax false (Z.pos m) e loc_Exact = S754_zero false
   /\ N = 0)
  \/ (exists m2 e2,
        binary_round_aux prec emax false (Z.pos m) e loc_Exact
        = S754_finite false m2 e2
        /\ ge_pow (Z.pos m2) e2 N)
  \/ binary_round_aux prec emax false (Z.pos m) e loc_Exact
     = S754_infinity false.
Proof.
  intros HN Hge. unfold binary_round_aux.
  destruct (shr_fexp_ge (Z.pos m) e N ltac:(lia) HN Hge)
    as (mrs1 & e1 & -> & Hm1 & Hge1).
  destruct (Rounding.round_bounds mrs1) as [Hr _].
  set (m1 := round_nearest_even (shr_m mrs1) (loc_of_shr_record mrs1)) in *.
  assert (Hge1' : ge_pow m1 e1 N) by (apply (ge_pow_mono (shr_m mrs1)); [lia | exact Hge1]).
  destruct (shr_fexp_ge m1 e1 N ltac:(lia) HN Hge1')
    as (mrs2 & e2 & -> & Hm2 & Hge2).
  destruct (shr_m mrs2) as [|m2|m2] eqn:Em2.
  - left. split; [reflexivity|].
    destruct (Z.eq_dec N 0) as [E|E]; [exact E|].
    pose proof (ge_pow_pos 0 e2 N ltac:(lia) Hge2). lia.
  - right. destruct (e2 <=? emax - prec).
    + left. exists m2, e2. split; [reflexivity | exact Hge2].
    + right. reflexivity.
  - lia.
Qed.

Lemma ge_pow_mul_mixed a ea A b eb B :
  0 <= A -> 0 <= B -> 0 <= a -> 0 <= b -> 0 <= ea -> eb < 0 ->
  ge_pow a ea A -> ge_pow b eb B -> ge_pow (a * b) (ea + eb) (A * B).
Proof.
  intros HA HB Ha Hb Hea Heb [H1 _] [_ H2].
  specialize (H1 Hea). specialize (H2 Heb).
  assert (Pb : 0 < 2 ^ (- eb)) by (apply Z.pow_pos_nonneg; lia).
  assert (Pa : 0 < 2 ^ ea) by (apply Z.pow_pos_nonneg; lia).
  split; intros H.
  - assert (E : 2 ^ ea = 2 ^ (ea + eb) * 2 ^ (- eb))
      by (rewrite <- Z.pow_add_r by lia; f_equal; lia).
    assert (P : 0 < 2 ^ (ea + eb)) by (apply Z.pow_pos_nonneg; lia).
    assert (S1 : A * B <= a * 2 ^ ea * B)
      by (apply Z.mul_le_mono_nonneg_r; lia).
    assert (S2 : a * 2 ^ (ea + eb) * (B * 2 ^ (- eb))
                 <= a * 2 ^ (ea + eb) * b)
      by (apply Z.mul_le_mono_nonneg_l; [nia | lia]).
    rewrite E in S1. lia.
  - assert (E : 2 ^ (- eb) = 2 ^ ea * 2 ^ (- (ea + eb)))
      by (rewrite <- Z.pow_add_r by lia; f_equal; lia).
    assert (P : 0 < 2 ^ (- (ea + eb))) by (apply Z.pow_pos_nonneg; lia).
    assert (S1 : A * B * 2 ^ (- (ea + eb))
                 <= a * 2 ^ ea * B * 2 ^ (- (ea + eb)))
      by (apply Z.mul_le_mono_nonneg_r; [lia|];
          apply Z.mul_le_mono_nonneg_r; lia).
    assert (S2 : a * (B * 2 ^ (- eb)) <= a * b)
      by (apply Z.mul_le_mono_nonneg_l; lia).
    rewrite E in S2. lia.
Qed.

Lemma ge_pow_mul a ea A b eb B :
  0 <= A -> 0 <= B -> 0 <= a -> 0 <= b ->
  ge_pow a ea A -> ge_pow b eb B -> ge_pow (a * b) (ea + eb) (A * B).
Proof.
  intros HA HB Ha Hb Hga Hgb.
  destruct (Z_lt_le_dec ea 0) as [Hea|Hea], (Z_lt_le_dec eb 0) as [Heb|Heb].
  - destruct Hga as [_ H1], Hgb as [_ H2].
    specialize (H1 Hea). specialize (H2 Heb).
    assert (Pa : 0 < 2 ^ (- ea)) by (apply Z.pow_pos_nonneg; lia).
    assert (Pb : 0 < 2 ^ (- eb)) by (apply Z.pow_pos_nonneg; lia).
    split; intros Hs; [lia|].
    replace (- (ea + eb)) with (- ea + - eb) by lia.
    rewrite Z.pow_add_r by lia.
    assert (S1 : A * 2 ^ (- ea) * (B * 2 ^ (- eb)) <= a * b)
      by (apply Z.mul_le_mono_nonneg; nia).
    lia.
  - replace (a * b) with (b * a) by lia. replace (ea + eb) with (eb + ea) by lia.
    replace (A * B) with (B * A) by lia.
    apply ge_pow_mul_mixed; assumption.
  - apply ge_pow_mul_mixed; assumption.
  - destruct Hga as [H1 _], Hgb as [H2 _].
    specialize (H1 Hea). specialize (H2 Heb).
    assert (Pa : 0 < 2 ^ ea) by (apply Z.pow_pos_nonneg; lia).
    assert (Pb : 0 < 2 ^ eb) by (apply Z.pow_pos_nonneg; lia).
    split; intros Hs; [|lia].
    rewrite Z.pow_add_r by lia.
    assert (S1 : A * B <= a * 2 ^ ea * (b * 2 ^ eb))
      by (apply Z.mul_le_mono_nonneg; lia).
    lia.
Qed.

Lemma of_int_lower (n : Z) :
  0 < n < 2 ^ 53 ->
  exists m e, of_int n = S754_finite false m e /\ ge_pow (Z.pos m) e n.
Proof.
  intros Hn.
  pose proof (Rounding.of_int_bound n ltac:(lia)) as Hup.
  revert Hup. unfold of_int, binary_normalize.
  destruct n as [|p|p]; try lia. unfold binary_round.
  destruct (Rounding.shl_align_spec p 0
              (fexp prec emax (Z.pos (digits2_pos p) + 0)))
    as (mz & ez & -> & Hez & Hmz).
  assert (G : ge_pow (Z.pos mz) ez (Z.pos p)).
  { split; intros H.
    - replace ez with 0 in * by lia. rewrite Hmz. cbn. lia.
    - rewrite Hmz. replace (0 - ez) with (- ez) by lia. lia. }
  destruct (round_aux_lower mz ez (Z.pos p) ltac:(lia) G)
    as [[_ E]|[(m2 & e2 & E & G2)|E]].
  - lia.
  - intros _. exists m2, e2. split; assumption.
  - rewrite E. intros [Hz|(m & e & Hf & _)]; discriminate.
Qed.

(** A finite double that is at least 1. *)
Lemma at_least_one_inv (x : spec_float) :
  at_least_one x = true ->
  exists m e, x = S754_finite false m e /\ ge_pow (Z.pos m) e 1.
Proof.
  unfold at_least_one. intros H.
  apply andb_true_iff in H as [H Hfin]. apply andb_true_iff in H as [Hv Hle].
  destruct x as [s|s| |s m e]; cbn in Hfin; try discriminate Hfin.
  - destruct s; vm_compute in Hle; discriminate Hle.
  - destruct s; [cbn in Hle; discriminate Hle|]. exists m, e. split; [reflexivity|].
    unfold valid, valid_binary, bounded, canonical_mantissa in Hv.
    apply andb_true_iff in Hv as [Hc _]. apply Z.eqb_eq in Hc.
    rewrite Rounding.fexp_eq in Hc.
    pose proof (Rounding.digits2_pos_bounds m) as [Hd _].
    set (d := Z.pos (digits2_pos m)) in *.
    unfold SFleb, SFcompare, one in Hle.
    destruct (Z.compare_spec (-52) e) as [He|He|He]; try discriminate.
    + subst e. split; intros H; [lia|].
      change (1 * 2 ^ (- -52)) with (Z.pos 4503599627370496).
      apply Pos2Z.pos_le_pos. unfold Pos.le.
      rewrite Pos.compare_cont_spec in Hle.
      destruct (Pos.compare 4503599627370496 m); cbn in Hle; congruence.
    + assert (Ed : d = 53) by lia. rewrite Ed in Hd.
      change (2 ^ (53 - 1)) with (2 ^ 52) in Hd.
      split; intros H.
      * assert (0 < 2 ^ e) by (apply Z.pow_pos_nonneg; lia). nia.
      * assert (2 ^ (- e) <= 2 ^ 52) by (apply Z.pow_le_mono_r; lia). lia.
Qed.

Lemma trunc_mag_ge (m : positive) (e N : Z) :
  ge_pow (Z.pos m) e N -> N <= trunc_mag m e.
Proof.
  intros [H1 H2]. unfold trunc_mag.
  destruct (Z.leb_spec 0 e) as [He|He].
  - apply H1. exact He.
  - specialize (H2 He).
    apply Z.div_le_lower_bound; [apply Z.pow_pos_nonneg; lia | lia].
Qed.

(** [int(len * ratio)] is at least [len] when [ratio] is at least 1, unless
    the product overflows. *)
Lemma cut_index_at_least_len (n : nat) (ratio : spec_float) :
  at_least_one ratio = true -> Z.of_nat n < 2 ^ 53 ->
  cut_index n ratio = Raise OverflowError
  \/ exists k, cut_index n ratio = Ok k /\ Z.of_nat n <= k.
Proof.
  intros Hr Hn.
  apply at_least_one_inv in Hr as (mx & ex & -> & Hx).
  unfold cut_index. destruct (Z.eq_dec (Z.of_nat n) 0) as [E0|E0].
  - rewrite E0. right. exists 0. split; [reflexivity | lia].
  - destruct (of_int_lower (Z.of_nat n) ltac:(lia)) as (mn & en & -> & Hge).
    unfold mul, SFmul. cbn [xorb].
    assert (G : ge_pow (Z.pos (mn * mx)) (en + ex) (Z.of_nat n)).
    { rewrite Pos2Z.inj_mul. replace (Z.of_nat n) with (Z.of_nat n * 1) by lia.
      apply ge_pow_mul; try lia; assumption. }
    destruct (round_aux_lower (mn * mx) (en + ex) (Z.of_nat n) ltac:(lia) G)
      as [[-> E] | [(m2 & e2 & -> & G2) | -> ]].
    + lia.
    + right. exists (trunc_mag m2 e2). split; [reflexivity|].
      apply trunc_mag_ge. exact G2.
    + left. reflexivity.
Qed.

End RoundingBelow.

(** With a ratio of 1 or more (and finite) the test set is empty: the whole
    shuffled ground truth goes to training.  The only other outcome is an
    OverflowError, when [len * ratio] is too large for a double. *)
Theorem ratio_of_one_or_more_leaves_no_test_set {A} (rk : nat -> nat)
    (samples : list A) (ratio : spec_float) :
  at_least_one ratio = true -> Z.of_nat (length samples) < 2 ^ 53 ->
  partition_ground_truth rk samples ratio = Ok (shuffle rk samples, [])
  \/ partition_ground_truth rk samples ratio = Raise OverflowError.
Proof.
  intros Hr Hn. unfold partition_ground_truth. rewrite shuffle_length.
  destruct (RoundingBelow.cut_index_at_least_len (length samples) ratio Hr Hn)
    as [->|(k & -> & Hk)]; [right; reflexivity|].
  left. cbn [mbind result_bind]. unfold slice_to, slice_from, slice_bound.
  rewrite shuffle_length.
  destruct (Z.ltb_spec k 0); [lia|].
  replace (Z.to_nat (Z.min k (Z.of_nat (length samples))))
    with (length (shuffle rk samples)) by (rewrite shuffle_length; lia).
  rewrite firstn_all, skipn_all. reflexivity.
Qed.

Lemma ratio_of_one_or_more_leaves_no_test_set_witness :
  at_least_one PyFloat.one = true
  /\ (partition_ground_truth (fun _ => 0%nat) ["a"; "b"]%string PyFloat.one
      = Ok (shuffle (fun _ => 0%nat) ["a"; "b"]%string, [])
      \/ partition_ground_truth (fun _ => 0%nat) ["a"; "b"]%string PyFloat.one
         = Raise OverflowError).
Proof.
  split; [vm_compute; reflexivity|].
  apply (ratio_of_one_or_more_leaves_no_test_set (fun _ => 0%nat)
           ["a"; "b"]%string PyFloat.one); vm_compute; reflexivity.
Defined.

(** ** The exceptions of a run *)





Lemma raises_raise {A} (P : exn -> Prop) e : P e -> raises P (@raise A e).
Proof. intros H s e' E. injection E as <-. exact H. Qed.



















(** * The [extract] command *)

(** ** The names of the files *)

Lemma decode_zeros (k : nat) (s : string) :
  decode (zeros k ++ s) = decode s.
Proof.
  induction k as [|k IH]; [reflexivity|].
  revert IH. unfold decode. cbn [zeros String.append NilEmpty.uint_of_string].
  destruct (NilEmpty.uint_of_string (zeros k ++ s)) as [d|];
    destruct (NilEmpty.uint_of_string s) as [d'|]; cbn; intros IH; exact IH.
Qed.

Lemma decode_str_of_Z (i : nat) : decode (str_of_Z (Z.of_nat i)) = N.of_nat i.
Proof.
  unfold decode, str_of_Z. destruct i as [|i]; [reflexivity|].
  assert (E : NilEmpty.uint_of_string
                (NilZero.string_of_uint (Pos.to_uint (Pos.of_succ_nat i)))
              = Some (Pos.to_uint (Pos.of_succ_nat i))
              \/ Pos.to_uint (Pos.of_succ_nat i) = Decimal.Nil).
  { unfold NilZero.string_of_uint.
    destruct (Pos.to_uint (Pos.of_succ_nat i)) eqn:E;
      try (left; rewrite <- E at 2; rewrite <- NilEmpty.usu; rewrite E;
           reflexivity).
    right. reflexivity. }
  pose proof (DecimalPos.Unsigned.of_to (Pos.of_succ_nat i)) as R.
  change (NilZero.string_of_int (Z.to_int (Z.of_nat (S i))))
    with (NilZero.string_of_uint (Pos.to_uint (Pos.of_succ_nat i))).
  destruct E as [E|E].
  - rewrite E, R. lia.
  - rewrite E in R. discriminate R.
Qed.

Lemma decode_fmt06 (i : nat) : decode (fmt06 i) = N.of_nat i.
Proof. unfold fmt06. rewrite decode_zeros. apply decode_str_of_Z. Qed.

Lemma fmt06_inj (i j : nat) : fmt06 i = fmt06 j -> i = j.
Proof.
  intros E. apply Nat2N.inj. rewrite <- !decode_fmt06, E. reflexivity.
Qed.

Lemma append_inv_head (p s t : string) :
  (p ++ s = p ++ t)%string -> s = t.
Proof.
  induction p as [|c p IH]; cbn; [auto|]. intros E. injection E as E. auto.
Qed.

Lemma length_append (s t : string) :
  String.length (s ++ t) = (String.length s + String.length t)%nat.
Proof. induction s as [|c s IH]; cbn; [reflexivity | rewrite IH; reflexivity]. Qed.

Lemma append_inv_tail (s t q : string) :
  (s ++ q = t ++ q)%string -> s = t.
Proof.
  revert t. induction s as [|c s IH]; intros [|d t] E; cbn in E.
  - reflexivity.
  - apply (f_equal String.length) in E. cbn in E.
    rewrite length_append in E. lia.
  - apply (f_equal String.length) in E. cbn in E.
    rewrite length_append in E. lia.
  - injection E as -> E. f_equal. auto.
Qed.

Lemma png_name_inj (i j : nat) :
  Extract.png_name i = Extract.png_name j -> i = j.
Proof.
  unfold Extract.png_name. intros E.
  apply fmt06_inj, (append_inv_tail _ _ ".png"), E.
Qed.

Lemma png_path_inj (out : string) (i j : nat) :
  Extract.png_path out i = Extract.png_path out j -> i = j.
Proof.
  unfold Extract.png_path. intros E.
  apply append_inv_head, (append_inv_head "/") in E.
  apply fmt06_inj, (append_inv_tail _ _ ".png"), E.
Qed.

Lemma gt_path_inj (out : string) (i j : nat) :
  Extract.gt_path out i = Extract.gt_path out j -> i = j.
Proof.
  unfold Extract.gt_path. intros E.
  apply append_inv_head, (append_inv_head "/") in E.
  apply fmt06_inj, (append_inv_tail _ _ ".gt.txt"), E.
Qed.

(** ** What a part of the command does to the state *)

Lemma texts_from_cons (w : Extract.World) (a : Extract.Args) (i : nat)
    (line : Extract.Li) (K : list Extract.Li) :
  Extract.texts_from w a i (line :: K)
  = (Extract.gt_path (Extract.output a) i, Extract.gt_content w a line)
    :: Extract.texts_from w a (S i) K.
Proof.
  unfold Extract.texts_from. cbn [imap]. rewrite Nat.add_0_r. f_equal.
  apply imap_ext. intros j x _. cbn. rewrite Nat.add_succ_r. reflexivity.
Qed.

Lemma texts_from_app (w : Extract.World) (a : Extract.Args) (i : nat)
    (K1 K2 : list Extract.Li) :
  Extract.texts_from w a i (K1 ++ K2)
  = Extract.texts_from w a i K1
    ++ Extract.texts_from w a (i + length K1) K2.
Proof.
  revert i. induction K1 as [|x K1 IH]; intros i.
  - cbn [app length]. rewrite Nat.add_0_r. reflexivity.
  - cbn [app length]. rewrite !texts_from_cons, IH. cbn [app].
    rewrite Nat.add_succ_r. reflexivity.
Qed.

Lemma texts_from_names (w : Extract.World) (a : Extract.Args) (i : nat)
    (K : list Extract.Li) :
  map fst (Extract.texts_from w a i K)
  = map (Extract.gt_path (Extract.output a)) (seq i (length K)).
Proof.
  revert i. induction K as [|x K IH]; intros i; [reflexivity|].
  rewrite texts_from_cons. cbn [map length seq fst]. rewrite IH. reflexivity.
Qed.

Lemma texts_from_length (w : Extract.World) (a : Extract.Args) (i : nat)
    (K : list Extract.Li) :
  length (Extract.texts_from w a i K) = length K.
Proof. unfold Extract.texts_from. apply length_imap. Qed.

Section ExtractRun.

Variable w : Extract.World.
Variable a : Extract.Args.

#[local] Existing Instance Extract.EM_ret.
#[local] Existing Instance Extract.EM_bind.

Lemma extends_refl (s : Extract.State) : Extract.extends w a s s [].
Proof.
  unfold Extract.extends. cbn [length seq map Extract.texts_from imap].
  rewrite Nat.add_0_r, !app_nil_r. auto.
Qed.

Lemma extends_trans (s1 s2 s3 : Extract.State) (K1 K2 : list Extract.Li) :
  Extract.extends w a s1 s2 K1 -> Extract.extends w a s2 s3 K2 ->
  Extract.extends w a s1 s3 (K1 ++ K2).
Proof.
  intros (I1 & M1 & P1 & G1 & F1) (I2 & M2 & P2 & G2 & F2).
  unfold Extract.extends.
  rewrite length_app, seq_app, !map_app, texts_from_app, !app_assoc.
  rewrite <- I1, <- M1, <- P1, <- G1, <- F1.
  repeat split; try assumption. lia.
Qed.

Lemma extends_stalls (s s' : Extract.State) (K : list Extract.Li) :
  Extract.extends w a s s' K -> Extract.stalls a s s'.
Proof.
  intros (I1 & M1 & P1 & G1 & F1). exists (length K), (length K).
  repeat split; try assumption; [lia|].
  rewrite G1, map_app, texts_from_names. reflexivity.
Qed.

Lemma stalls_after (s1 s2 s3 : Extract.State) (K : list Extract.Li) :
  Extract.extends w a s1 s2 K -> Extract.stalls a s2 s3 ->
  Extract.stalls a s1 s3.
Proof.
  intros (I1 & M1 & P1 & G1 & F1) (k & k' & Hk & P2 & G2 & F2).
  exists (length K + k)%nat, (length K + k')%nat.
  rewrite !seq_app, !map_app, !app_assoc, <- I1, <- P1.
  repeat split; try assumption; try lia.
  - rewrite G2, G1, map_app, texts_from_names. reflexivity.
  - congruence.
Qed.

Lemma sound_ret : Extract.sound w a (mret tt) [].
Proof. intros s. apply extends_refl. Qed.

Lemma sound_emit (ev : Extract.event) :
  Extract.writes_nothing ev = true ->
  Extract.sound w a (Extract.emit ev) [].
Proof.
  intros Hq s. unfold Extract.emit, Extract.extends.
  cbn [Extract.idx Extract.manifest Extract.log length seq map
       Extract.texts_from imap].
  unfold Extract.pngs, Extract.gts, Extract.manifests.
  rewrite !omap_app, Nat.add_0_r, !app_nil_r.
  destruct ev; try discriminate Hq; cbn; rewrite !app_nil_r; auto.
Qed.

Lemma sound_seq (m1 m2 : Extract.EM unit) (K1 K2 : list Extract.Li) :
  Extract.sound w a m1 K1 -> Extract.sound w a m2 K2 ->
  Extract.sound w a (m1 ;; m2) (K1 ++ K2).
Proof.
  intros H1 H2 s. unfold mbind, Extract.EM_bind. specialize (H1 s).
  destruct (m1 s) as [[[]|e] s1]; [|exact H1].
  specialize (H2 s1). destruct (m2 s1) as [[[]|e] s2].
  - eapply extends_trans; eassumption.
  - eapply stalls_after; eassumption.
Qed.

Lemma sound_lift {A} (r : Extract.outcome A) (k : A -> Extract.EM unit)
    (K : list Extract.Li) :
  (forall x, r = Extract.Done x -> Extract.sound w a (k x) K) ->
  Extract.sound w a (Extract.lift r ≫= k) K.
Proof.
  intros H s. unfold mbind, Extract.EM_bind, Extract.lift.
  destruct r as [x|e]; [exact (H x eq_refl s)|].
  apply (extends_stalls _ _ []), extends_refl.
Qed.

Lemma sound_when (b : bool) (ev : Extract.event) :
  Extract.writes_nothing ev = true ->
  Extract.sound w a (if b then Extract.emit ev else mret tt) [].
Proof. intros H. destruct b; [apply sound_emit, H | apply sound_ret]. Qed.

Lemma sound_do_line (td : string) (im : Extract.Page) (line : Extract.Li) :
  Extract.sound w a (Extract.do_line w a td im line)
                (if Extract.kept line then [line] else []).
Proof.
  unfold Extract.do_line. destruct (Extract.kept line); [|apply sound_ret].
  apply sound_lift. intros box _.
  apply (sound_seq _ _ [] [line]); [apply sound_when; reflexivity|].
  intros s.
  unfold mbind, Extract.EM_bind, Extract.get_idx, Extract.attempt,
    Extract.lift, Extract.emit, Extract.manifest_append, Extract.incr_idx.
  destruct (Extract.save_png w _) as [e|].
  { apply (extends_stalls _ _ []), extends_refl. }
  cbn [Extract.idx Extract.manifest Extract.log].
  destruct (Extract.write_file w _ _) as [e|].
  - exists 1%nat, 0%nat.
    cbn [Extract.idx Extract.manifest Extract.log length seq map].
    unfold Extract.pngs, Extract.gts, Extract.manifests.
    rewrite !omap_app. cbn. rewrite !app_nil_r. repeat split. lia.
  - unfold Extract.extends.
    cbn [Extract.idx Extract.manifest Extract.log length seq map].
    rewrite texts_from_cons.
    unfold Extract.pngs, Extract.gts, Extract.manifests.
    rewrite !omap_app. cbn. rewrite !app_nil_r. repeat split. lia.
Qed.

Lemma sound_do_lines (td : string) (im : Extract.Page)
    (lines : list Extract.Li) :
  Extract.sound w a (Extract.do_lines w a td im lines)
                (List.filter Extract.kept lines).
Proof.
  induction lines as [|line rest IH]; [apply sound_ret|].
  cbn [Extract.do_lines List.filter].
  pose proof (sound_seq _ _ _ _ (sound_do_line td im line) IH) as H.
  destruct (Extract.kept line); exact H.
Qed.

Lemma sound_do_sections (name td : string) (secs : list Extract.Section) :
  Extract.sound w a (Extract.do_sections w a name td secs)
                (Extract.reached secs).
Proof.
  induction secs as [|sec rest IH]; [apply sound_ret|].
  cbn [Extract.do_sections Extract.reached].
  apply sound_lift. intros im ->.
  destruct (Extract.page_truthy im); cbn [negb].
  - apply sound_seq; [apply sound_do_lines | exact IH].
  - apply sound_when. reflexivity.
Qed.

Lemma sound_do_docs (docs : list Extract.Doc) :
  Extract.sound w a (Extract.do_docs w a docs) (Extract.extractable docs).
Proof.
  induction docs as [|doc rest IH]; [apply sound_ret|].
  cbn [Extract.do_docs]. unfold Extract.extractable.
  cbn [map concat]. apply sound_seq; [|exact IH].
  unfold Extract.do_doc.
  apply (sound_seq _ _ [] (Extract.reached (Extract.sections doc))).
  - destruct (Extract.verbose a >? 0); apply sound_emit; reflexivity.
  - apply sound_lift. intros td _. apply sound_do_sections.
Qed.

Lemma finish_summary (s : Extract.State) :
  match Extract.finish w a s with
  | (Extract.Done _, s') =>
      Extract.pngs (Extract.log s') = Extract.pngs (Extract.log s)
      /\ Extract.gts (Extract.log s') = Extract.gts (Extract.log s)
      /\ Extract.manifests (Extract.log s')
         = Extract.manifests (Extract.log s)
           ++ [(Extract.manifest_path (Extract.output a),
                Extract.manifest_text (Extract.manifest s))]
      /\ (0 < Extract.verbose a ->
          In (Extract.Echo (Extract.MsgExtracted (Extract.idx s)))
             (Extract.log s'))
  | (Extract.Failed _, s') =>
      Extract.pngs (Extract.log s') = Extract.pngs (Extract.log s)
      /\ Extract.gts (Extract.log s') = Extract.gts (Extract.log s)
      /\ Extract.manifests (Extract.log s')
         = Extract.manifests (Extract.log s)
  end.
Proof.
  unfold Extract.finish, mbind, Extract.EM_bind, Extract.get_idx,
    Extract.get_manifest, Extract.attempt, Extract.lift, Extract.emit,
    mret, Extract.EM_ret, Extract.pngs, Extract.gts, Extract.manifests.
  destruct (Extract.verbose a >? 0) eqn:Ev;
    cbn [Extract.idx Extract.manifest Extract.log];
    destruct (Extract.write_file w _ _);
    cbn [Extract.idx Extract.manifest Extract.log];
    try destruct (Extract.verbose a =? 0);
    cbn [Extract.idx Extract.manifest Extract.log];
    rewrite ?omap_app; cbn [omap list_omap]; rewrite ?app_nil_r;
    repeat split;
    try (intros Hpos; rewrite Z.gtb_ltb in Ev; apply Z.ltb_ge in Ev; lia);
    intros _; rewrite ?in_app_iff; cbn [In]; auto.
Qed.

End ExtractRun.

(** ** The whole command *)

Lemma run_summary (w : Extract.World) (a : Extract.Args) :
  let K := Extract.extractable (Extract.transcribs a) in
  match Extract.run w a with
  | (Extract.Done _, s') =>
      Extract.pngs (Extract.log s')
      = map (Extract.png_path (Extract.output a)) (seq 0 (length K))
      /\ Extract.gts (Extract.log s') = Extract.texts_from w a 0 K
      /\ Extract.manifests (Extract.log s')
         = [(Extract.manifest_path (Extract.output a),
             Extract.manifest_text
               (map Extract.png_name (seq 0 (length K))))]
      /\ (0 < Extract.verbose a ->
          In (Extract.Echo (Extract.MsgExtracted (length K)))
             (Extract.log s'))
  | (Extract.Failed _, s') =>
      Extract.stalls a Extract.init s'
  end.
Proof.
  intros K. unfold Extract.run, Extract.extract.
  unfold mbind, Extract.EM_bind, Extract.emit.
  cbn [Extract.init Extract.idx Extract.manifest Extract.log app].
  set (s0 := Extract.mkState 0 [] [Extract.MkDir (Extract.output a)]).
  pose proof (sound_do_docs w a (Extract.transcribs a) s0) as H.
  fold K in H.
  destruct (Extract.do_docs w a (Extract.transcribs a) s0) as [[[]|e] s1].
  2:{ destruct H as (k & k' & Hk & P & G & F). exists k, k'.
      repeat split; assumption. }
  destruct H as (I & M & P & G & F).
  cbn [Extract.idx Extract.manifest Extract.log s0 app Nat.add] in I, M, P, G, F.
  pose proof (finish_summary w a s1) as H.
  destruct (Extract.finish w a s1) as [[[]|e] s2].
  - destruct H as (P2 & G2 & F2 & V2).
    rewrite P2, G2, F2, P, G, F, M. rewrite I in V2.
    repeat split. exact V2.
  - destruct H as (P2 & G2 & F2). exists (length K), (length K).
    rewrite P2, G2, F2, P, G, F.
    cbn [Extract.init Extract.log Extract.idx Extract.pngs Extract.gts
         Extract.manifests omap list_omap map app].
    rewrite texts_from_names. repeat split. lia.
Qed.


(** The files of a run, whether it ends normally or not. *)
Lemma run_files (w : Extract.World) (a : Extract.Args) :
  exists k k' : nat,
    (k' <= k)%nat
    /\ Extract.pngs (Extract.log (Extract.run w a).2)
       = map (Extract.png_path (Extract.output a)) (seq 0 k)
    /\ map fst (Extract.gts (Extract.log (Extract.run w a).2))
       = map (Extract.gt_path (Extract.output a)) (seq 0 k').
Proof.
  pose proof (run_summary w a) as H.
  destruct (Extract.run w a) as [[[]|e] s']; cbn [snd].
  - destruct H as (P & G & _).
    exists (length (Extract.extractable (Extract.transcribs a))),
           (length (Extract.extractable (Extract.transcribs a))).
    rewrite P, G, texts_from_names. repeat split. lia.
  - destruct H as (k & k' & Hk & P & G & _). exists k, k'.
    rewrite P, G. repeat split. exact Hk.
Qed.



(** In a run that ends normally exactly one manifest is written, under
    [output], and it lists, one name on a line and in the order of writing,
    the images that were written: each image is the entry of the manifest
    with [output] and a slash in front.  With [-v] the number of lines that
    is printed is the number of these entries. *)
Theorem extract_manifest_lists_images (w : Extract.World) (a : Extract.Args)
    (s' : Extract.State) :
  Extract.run w a = (Extract.Done tt, s') ->
  exists names : list string,
    Extract.manifests (Extract.log s')
    = [(Extract.manifest_path (Extract.output a),
        Extract.manifest_text names)]
    /\ Extract.pngs (Extract.log s')
       = map (fun name => Extract.output a ++ "/" ++ name)%string names
    /\ (0 < Extract.verbose a ->
        In (Extract.Echo (Extract.MsgExtracted (length names)))
           (Extract.log s')).
Proof.
  intros E. pose proof (run_summary w a) as H. rewrite E in H.
  destruct H as (P & _ & F & V).
  exists (map Extract.png_name
              (seq 0 (length (Extract.extractable (Extract.transcribs a))))).
  rewrite length_map, length_seq, map_map. repeat split; assumption.
Qed.

Lemma extract_manifest_lists_images_witness :
  Extract.run Extract.plain_world Extract.example_args
  = (Extract.Done tt,
     (Extract.run Extract.plain_world Extract.example_args).2)
  /\ exists names : list string,
       Extract.manifests
         (Extract.log
            (Extract.run Extract.plain_world Extract.example_args).2)
       = [(Extract.manifest_path (Extract.output Extract.example_args),
           Extract.manifest_text names)]
       /\ Extract.pngs
            (Extract.log
               (Extract.run Extract.plain_world Extract.example_args).2)
          = map (fun name =>
                   Extract.output Extract.example_args ++ "/" ++ name)%string
                names
       /\ (0 < Extract.verbose Extract.example_args ->
           In (Extract.Echo (Extract.MsgExtracted (length names)))
              (Extract.log
                 (Extract.run Extract.plain_world Extract.example_args).2)).
Proof.
  assert (H : Extract.run Extract.plain_world Extract.example_args
              = (Extract.Done tt,
                 (Extract.run Extract.plain_world Extract.example_args).2))
    by (vm_compute; reflexivity).
  split; [exact H|].
  exact (extract_manifest_lists_images Extract.plain_world
           Extract.example_args _ H).
Defined.

(** No file is written twice, whether the run ends normally or not: the
    images have pairwise different names, and so have the texts. *)
Theorem extract_never_overwrites (w : Extract.World) (a : Extract.Args) :
  NoDup (Extract.pngs (Extract.log (Extract.run w a).2))
  /\ NoDup (map fst (Extract.gts (Extract.log (Extract.run w a).2))).
Proof.
  destruct (run_files w a) as (k & k' & _ & P & G). rewrite P, G.
  split; apply (NoDup_fmap_2_strong _); try apply NoDup_seq.
  - intros i j _ _. apply png_path_inj.
  - intros i j _ _. apply gt_path_inj.
Qed.

(** A text is never written without its image: whenever the text of a
    number is on disk, whether the run ends normally or not, the image of
    that number is. *)
Theorem extract_text_has_image (w : Extract.World) (a : Extract.Args)
    (i : nat) :
  In (Extract.gt_path (Extract.output a) i)
     (map fst (Extract.gts (Extract.log (Extract.run w a).2))) ->
  In (Extract.png_path (Extract.output a) i)
     (Extract.pngs (Extract.log (Extract.run w a).2)).
Proof.
  destruct (run_files w a) as (k & k' & Hk & P & G). rewrite P, G.
  rewrite !in_map_iff. intros (j & E & Hj). apply gt_path_inj in E.
  subst j. exists i. split; [reflexivity|].
  apply in_seq in Hj. apply in_seq. lia.
Qed.

Lemma extract_text_has_image_witness :
  In (Extract.gt_path (Extract.output Extract.example_args) 1)
     (map fst
        (Extract.gts
           (Extract.log
              (Extract.run Extract.third_image_fails
                           Extract.example_args).2)))
  /\ In (Extract.png_path (Extract.output Extract.example_args) 1)
        (Extract.pngs
           (Extract.log
              (Extract.run Extract.third_image_fails
                           Extract.example_args).2)).
Proof.
  assert (H : In (Extract.gt_path (Extract.output Extract.example_args) 1)
                (map fst
                   (Extract.gts
                      (Extract.log
                         (Extract.run Extract.third_image_fails
                                      Extract.example_args).2))))
    by (vm_compute; auto).
  split; [exact H|].
  exact (extract_text_has_image Extract.third_image_fails
           Extract.example_args 1 H).
Defined.

(** A run that fails writes no manifest, although the images and texts
    extracted before the failure stay on disk. *)
Theorem failed_extract_writes_no_manifest (w : Extract.World)
    (a : Extract.Args) (e : Extract.error) :
  (Extract.run w a).1 = Extract.Failed e ->
  Extract.manifests (Extract.log (Extract.run w a).2) = [].
Proof.
  pose proof (run_summary w a) as H.
  destruct (Extract.run w a) as [[[]|e'] s']; cbn [fst snd];
    [discriminate|].
  intros _. destruct H as (k & k' & _ & _ & _ & F). exact F.
Qed.

Lemma failed_extract_writes_no_manifest_witness :
  (Extract.run Extract.third_image_fails Extract.example_args).1
  = Extract.Failed (Extract.IOError "disk full")
  /\ Extract.manifests
       (Extract.log
          (Extract.run Extract.third_image_fails Extract.example_args).2)
     = []
  /\ Extract.pngs
       (Extract.log
          (Extract.run Extract.third_image_fails Extract.example_args).2)
     = ["out/000000.png"; "out/000001.png"]%string.
Proof.
  assert (H : (Extract.run Extract.third_image_fails Extract.example_args).1
              = Extract.Failed (Extract.IOError "disk full"))
    by (vm_compute; reflexivity).
  split; [exact H|]. split.
  - exact (failed_extract_writes_no_manifest Extract.third_image_fails
             Extract.example_args _ H).
  - vm_compute. reflexivity.
Defined.

(** ** The option [--rotate] *)

Section Rotation.

Variable w : Extract.World.
Variable a : Extract.Args.
Variable b : bool.

#[local] Existing Instance Extract.EM_ret.
#[local] Existing Instance Extract.EM_bind.

Lemma agree_ret : Extract.agree (mret tt) (mret tt).
Proof. intros s1 s2 H. split; [reflexivity | exact H]. Qed.

Lemma agree_emit (ev : Extract.event) :
  Extract.agree (Extract.emit ev) (Extract.emit ev).
Proof.
  intros s1 s2 (I & M & L). split; [reflexivity|].
  unfold Extract.emit, Extract.same_files, Extract.without_rotations.
  cbn [snd Extract.idx Extract.manifest Extract.log].
  rewrite !List.filter_app. repeat split; try assumption.
  f_equal. exact L.
Qed.

Lemma agree_rotation (b1 b2 : bool) (page : string) :
  Extract.agree
    (if b1 then Extract.emit (Extract.Rotate page) else mret tt)
    (if b2 then Extract.emit (Extract.Rotate page) else mret tt).
Proof.
  intros s1 s2 (I & M & L).
  destruct b1, b2; (split; [reflexivity|]);
    unfold Extract.emit, Extract.same_files, Extract.without_rotations,
      mret, Extract.EM_ret;
    cbn [snd Extract.idx Extract.manifest Extract.log];
    rewrite ?List.filter_app; cbn [List.filter]; rewrite ?app_nil_r;
    repeat split; assumption.
Qed.

Lemma agree_seq (m1 m1' m2 m2' : Extract.EM unit) :
  Extract.agree m1 m1' -> Extract.agree m2 m2' ->
  Extract.agree (m1 ;; m2) (m1' ;; m2').
Proof.
  intros H1 H2 s1 s2 H. unfold mbind, Extract.EM_bind.
  destruct (H1 s1 s2 H) as [R S].
  destruct (m1 s1) as [[[]|e] t1]; destruct (m1' s2) as [[[]|e'] t2];
    cbn [fst snd] in R, S; try discriminate R.
  - apply H2, S.
  - split; [exact R | exact S].
Qed.

Lemma agree_lift {A} (r : Extract.outcome A) (k k' : A -> Extract.EM unit) :
  (forall x, Extract.agree (k x) (k' x)) ->
  Extract.agree (Extract.lift r ≫= k) (Extract.lift r ≫= k').
Proof.
  intros H s1 s2 S. unfold mbind, Extract.EM_bind, Extract.lift.
  destruct r as [x|e]; [apply H, S|]. split; [reflexivity | exact S].
Qed.

Lemma agree_attempt (failure : option Extract.error) (ev : Extract.event) :
  Extract.agree (Extract.attempt failure ev) (Extract.attempt failure ev).
Proof.
  destruct failure as [e|]; [|apply agree_emit].
  intros s1 s2 S. split; [reflexivity | exact S].
Qed.

Lemma agree_get_idx (k k' : nat -> Extract.EM unit) :
  (forall i, Extract.agree (k i) (k' i)) ->
  Extract.agree (Extract.get_idx ≫= k) (Extract.get_idx ≫= k').
Proof.
  intros H s1 s2 S. unfold mbind, Extract.EM_bind, Extract.get_idx.
  rewrite (proj1 S). apply H, S.
Qed.

Lemma agree_get_manifest (k k' : list string -> Extract.EM unit) :
  (forall m, Extract.agree (k m) (k' m)) ->
  Extract.agree (Extract.get_manifest ≫= k) (Extract.get_manifest ≫= k').
Proof.
  intros H s1 s2 S. unfold mbind, Extract.EM_bind, Extract.get_manifest.
  rewrite (proj1 (proj2 S)). apply H, S.
Qed.

Lemma agree_manifest_append (name : string) :
  Extract.agree (Extract.manifest_append name)
                (Extract.manifest_append name).
Proof.
  intros s1 s2 (I & M & L). split; [reflexivity|].
  unfold Extract.manifest_append, Extract.same_files.
  cbn [snd Extract.idx Extract.manifest Extract.log].
  rewrite M. repeat split; assumption.
Qed.

Lemma agree_incr_idx : Extract.agree Extract.incr_idx Extract.incr_idx.
Proof.
  intros s1 s2 (I & M & L). split; [reflexivity|].
  unfold Extract.incr_idx, Extract.same_files.
  cbn [snd Extract.idx Extract.manifest Extract.log].
  rewrite I. repeat split; assumption.
Qed.

Lemma agree_do_line (td : string) (im : Extract.Page) (line : Extract.Li) :
  Extract.agree (Extract.do_line w (Extract.with_rotate b a) td im line)
                (Extract.do_line w a td im line).
Proof.
  unfold Extract.do_line. destruct (Extract.kept line); [|apply agree_ret].
  apply agree_lift. intros box.
  apply agree_seq; [apply agree_rotation|].
  apply agree_get_idx. intros i.
  change (Extract.output (Extract.with_rotate b a)) with (Extract.output a).
  change (Extract.gt_content w (Extract.with_rotate b a) line)
    with (Extract.gt_content w a line).
  repeat first [ apply agree_seq | apply agree_attempt
               | apply agree_manifest_append | apply agree_incr_idx ].
Qed.

Lemma agree_do_lines (td : string) (im : Extract.Page)
    (lines : list Extract.Li) :
  Extract.agree (Extract.do_lines w (Extract.with_rotate b a) td im lines)
                (Extract.do_lines w a td im lines).
Proof.
  induction lines as [|line rest IH]; [apply agree_ret|].
  cbn [Extract.do_lines]. apply agree_seq; [apply agree_do_line | exact IH].
Qed.

Lemma agree_do_sections (name td : string) (secs : list Extract.Section) :
  Extract.agree
    (Extract.do_sections w (Extract.with_rotate b a) name td secs)
    (Extract.do_sections w a name td secs).
Proof.
  induction secs as [|sec rest IH]; [apply agree_ret|].
  cbn [Extract.do_sections]. apply agree_lift. intros im.
  change (Extract.verbose (Extract.with_rotate b a))
    with (Extract.verbose a).
  destruct (Extract.page_truthy im); cbn [negb].
  - apply agree_seq; [apply agree_do_lines | exact IH].
  - destruct (Extract.verbose a >? 0); [apply agree_emit | apply agree_ret].
Qed.

Lemma agree_do_docs (docs : list Extract.Doc) :
  Extract.agree (Extract.do_docs w (Extract.with_rotate b a) docs)
                (Extract.do_docs w a docs).
Proof.
  induction docs as [|doc rest IH]; [apply agree_ret|].
  cbn [Extract.do_docs]. apply agree_seq; [|exact IH].
  unfold Extract.do_doc.
  change (Extract.verbose (Extract.with_rotate b a))
    with (Extract.verbose a).
  apply agree_seq.
  - destruct (Extract.verbose a >? 0); apply agree_emit.
  - apply agree_lift. intros td. apply agree_do_sections.
Qed.

Lemma agree_finish :
  Extract.agree (Extract.finish w (Extract.with_rotate b a))
                (Extract.finish w a).
Proof.
  unfold Extract.finish.
  change (Extract.verbose (Extract.with_rotate b a))
    with (Extract.verbose a).
  change (Extract.output (Extract.with_rotate b a)) with (Extract.output a).
  apply agree_get_idx. intros i. apply agree_seq.
  - destruct (Extract.verbose a >? 0); [apply agree_emit | apply agree_ret].
  - apply agree_get_manifest. intros m. apply agree_seq.
    + apply agree_attempt.
    + destruct (Extract.verbose a =? 0); [apply agree_emit | apply agree_ret].
Qed.

Lemma agree_extract :
  Extract.agree (Extract.extract w (Extract.with_rotate b a))
                (Extract.extract w a).
Proof.
  unfold Extract.extract.
  change (Extract.output (Extract.with_rotate b a)) with (Extract.output a).
  change (Extract.transcribs (Extract.with_rotate b a))
    with (Extract.transcribs a).
  apply agree_seq; [apply agree_emit|].
  apply agree_seq; [apply agree_do_docs | apply agree_finish].
Qed.

End Rotation.

(** The option [--rotate] changes nothing but the calls of [im.rotate],
    whose result the command drops: with the option set either way the run
    ends alike and writes the same images, texts and manifest, with the
    same names and contents, and prints the same messages. *)
Theorem rotate_option_changes_no_file (w : Extract.World) (a : Extract.Args)
    (b : bool) :
  (Extract.run w (Extract.with_rotate b a)).1 = (Extract.run w a).1
  /\ Extract.without_rotations
       (Extract.log (Extract.run w (Extract.with_rotate b a)).2)
     = Extract.without_rotations (Extract.log (Extract.run w a).2).
Proof.
  destruct (agree_extract w a b Extract.init Extract.init) as (R & _ & _ & L).
  - repeat split.
  - split; [exact R | exact L].
Qed.

(** * The [linegen] command *)

Lemma lg_png_path_inj (out : string) (i j : nat) :
  Linegen.png_path out i = Linegen.png_path out j -> i = j.
Proof.
  unfold Linegen.png_path. intros E.
  apply append_inv_head, (append_inv_head "/") in E.
  apply fmt06_inj, (append_inv_tail _ _ ".png"), E.
Qed.

Lemma lg_gt_path_inj (out : string) (i j : nat) :
  Linegen.gt_path out i = Linegen.gt_path out j -> i = j.
Proof.
  unfold Linegen.gt_path. intros E.
  apply append_inv_head, (append_inv_head "/") in E.
  apply fmt06_inj, (append_inv_tail _ _ ".gt.txt"), E.
Qed.

Section LinegenRun.

Variable w : Linegen.World.
Variable a : Linegen.Args.

#[local] Existing Instance Linegen.LM_ret.
#[local] Existing Instance Linegen.LM_bind.

Lemma lg_bind_unfold {A B} (m : Linegen.LM A) (k : A -> Linegen.LM B) :
  m ≫= k
  = match m with
    | (Linegen.Done x, l) => let (r, l') := k x in (r, l ++ l')
    | (Linegen.Failed e, l) => (Linegen.Failed e, l)
    end.
Proof. reflexivity. Qed.

Lemma lg_pngs_app (l1 l2 : list Linegen.event) :
  Linegen.pngs (l1 ++ l2) = Linegen.pngs l1 ++ Linegen.pngs l2.
Proof. apply omap_app. Qed.

Lemma lg_gts_app (l1 l2 : list Linegen.event) :
  Linegen.gts (l1 ++ l2) = Linegen.gts l1 ++ Linegen.gts l2.
Proof. apply omap_app. Qed.

(** One pass of the loop writes the two files of its line, or nothing, or
    the image alone when the text cannot be written. *)
Lemma do_line_files (idx : nat) (line : Linegen.text) :
  let r := (Linegen.do_line w a idx line).1 in
  let log := (Linegen.do_line w a idx line).2 in
  match Linegen.to_save w a idx line with
  | Some im =>
      (r = Linegen.Done tt
       /\ Linegen.pngs log = [Linegen.image_file a (idx, line, im)]
       /\ Linegen.gts log = [Linegen.text_file w a (idx, line, im)])
      \/ ((exists e, r = Linegen.Failed e)
          /\ Linegen.pngs log = [] /\ Linegen.gts log = [])
      \/ ((exists e, r = Linegen.Failed e)
          /\ Linegen.pngs log = [Linegen.image_file a (idx, line, im)]
          /\ Linegen.gts log = [])
  | None => Linegen.pngs log = [] /\ Linegen.gts log = []
  end.
Proof.
  unfold Linegen.do_line, Linegen.to_save, Linegen.save, Linegen.attempt,
    Linegen.image_file, Linegen.text_file.
  rewrite !lg_bind_unfold.
  destruct (Linegen.verbose a >? 0);
    unfold Linegen.emit; cbn [fst snd];
    (destruct (Linegen.render w a idx line) as [im|e];
     [|destruct e; cbn; auto]);
    rewrite ?lg_bind_unfold; unfold Linegen.lift;
    (destruct (Linegen.degrade w a idx im) as [im'|e]; [|cbn; auto]);
    (destruct (Linegen.binarize a);
     [destruct (Linegen.nlbin w idx im') as [im''|e];
      [|destruct e; cbn; auto]|]);
    rewrite ?lg_bind_unfold;
    (destruct (Linegen.save_png w _ _) as [e|];
     [cbn; right; left; eauto|]);
    (destruct (Linegen.write_file w _ _) as [e|];
     [cbn; right; right; eauto|]);
    cbn; left; auto.
Qed.

Lemma write_lines_files (idx : nat) (lines : list Linegen.text) :
  let r := (Linegen.write_lines w a idx lines).1 in
  let log := (Linegen.write_lines w a idx lines).2 in
  let prod := Linegen.producing w a idx lines in
  exists k k' : nat,
    (k' <= k <= length prod)%nat
    /\ Linegen.pngs log = map (Linegen.image_file a) (take k prod)
    /\ Linegen.gts log = map (Linegen.text_file w a) (take k' prod)
    /\ (r = Linegen.Done tt -> k = length prod /\ k' = length prod).
Proof.
  revert idx. induction lines as [|line rest IH]; intros idx.
  { exists 0%nat, 0%nat. cbn. repeat split; lia. }
  cbn [Linegen.write_lines Linegen.producing]. rewrite lg_bind_unfold.
  pose proof (do_line_files idx line) as H. cbn zeta in H.
  specialize (IH (S idx)). cbn zeta in IH.
  destruct IH as (k & k' & Hk & P & G & D).
  destruct (Linegen.do_line w a idx line) as [[[]|e] log1]; cbn [fst snd] in H;
    destruct (Linegen.write_lines w a (S idx) rest) as [r2 log2];
    cbn [fst snd] in *;
    destruct (Linegen.to_save w a idx line) as [im|].
  - destruct H as [(_ & P1 & G1)|[([e He] & _)|([e He] & _)]];
      try discriminate He.
    exists (S k), (S k'). rewrite lg_pngs_app, lg_gts_app, P1, G1, P, G.
    cbn [length take map app].
    split; [lia|]. split; [reflexivity|]. split; [reflexivity|].
    intros Hr. destruct (D Hr). lia.
  - destruct H as [P1 G1]. exists k, k'.
    rewrite lg_pngs_app, lg_gts_app, P1, G1, P, G. cbn [app].
    split; [lia|]. split; [reflexivity|]. split; [reflexivity|].
    intros Hr. destruct (D Hr). lia.
  - destruct H as [(He & _)|[(_ & P1 & G1)|(_ & P1 & G1)]];
      try discriminate He.
    + exists 0%nat, 0%nat. rewrite P1, G1. cbn.
      split; [lia|]. split; [reflexivity|]. split; [reflexivity|].
      discriminate.
    + exists 1%nat, 0%nat. rewrite P1, G1. cbn.
      split; [lia|]. split; [reflexivity|]. split; [reflexivity|].
      discriminate.
  - destruct H as [P1 G1]. exists 0%nat, 0%nat. rewrite P1, G1.
    rewrite !take_0. cbn.
    split; [lia|]. split; [reflexivity|]. split; [reflexivity|].
    discriminate.
Qed.

(** The numbers of the lines with an image go up, within the numbers of
    the lines. *)
Lemma producing_numbers (idx : nat) (lines : list Linegen.text) :
  map (fun p : nat * Linegen.text * Linegen.image => p.1.1)
      (Linegen.producing w a idx lines)
  `sublist_of` seq idx (length lines).
Proof.
  revert idx. induction lines as [|line rest IH]; intros idx.
  { constructor. }
  cbn [Linegen.producing length seq].
  destruct (Linegen.to_save w a idx line) as [im|].
  - cbn [map fst]. apply sublist_skip, IH.
  - apply sublist_cons, IH.
Qed.

Lemma producing_lookup (idx : nat) (lines : list Linegen.text)
    (p : nat * Linegen.text * Linegen.image) :
  In p (Linegen.producing w a idx lines) ->
  exists j : nat,
    p.1.1 = (idx + j)%nat /\ lines !! j = Some p.1.2
    /\ Linegen.to_save w a (idx + j) p.1.2 = Some p.2.
Proof.
  revert idx. induction lines as [|line rest IH]; intros idx; [intros []|].
  cbn [Linegen.producing].
  destruct (Linegen.to_save w a idx line) as [im|] eqn:E.
  - intros [<-|H].
    + exists 0%nat. cbn. rewrite Nat.add_0_r. auto.
    + destruct (IH _ H) as (j & Hj & Hl & Hs). exists (S j).
      rewrite Nat.add_succ_r. cbn. auto.
  - intros H. destruct (IH _ H) as (j & Hj & Hl & Hs). exists (S j).
    rewrite Nat.add_succ_r. cbn. auto.
Qed.

Lemma take_incl_le {A} (l : list A) (k' k : nat) (x : A) :
  (k' <= k)%nat -> In x (take k' l) -> In x (take k l).
Proof.
  intros Hk H. apply list_elem_of_In. apply list_elem_of_In in H.
  apply elem_of_take in H as (i & Hi & Hlt). apply elem_of_take.
  exists i. split; [exact Hi | lia].
Qed.

Lemma producing_NoDup (idx : nat) (lines : list Linegen.text) (k : nat) :
  NoDup (map (fun p : nat * Linegen.text * Linegen.image => p.1.1)
             (take k (Linegen.producing w a idx lines))).
Proof.
  eapply sublist_NoDup; [apply (NoDup_seq idx (length lines))|].
  etransitivity; [|apply producing_numbers].
  apply (fmap_sublist _), sublist_take.
Qed.

Lemma image_file_names (l : list (nat * Linegen.text * Linegen.image)) :
  map fst (map (Linegen.image_file a) l)
  = map (Linegen.png_path (Linegen.output a))
        (map (fun p : nat * Linegen.text * Linegen.image => p.1.1) l).
Proof.
  induction l as [|[[i line] im] l IH]; [reflexivity|].
  cbn. f_equal. exact IH.
Qed.

Lemma text_file_names (l : list (nat * Linegen.text * Linegen.image)) :
  map fst (map (Linegen.text_file w a) l)
  = map (Linegen.gt_path (Linegen.output a))
        (map (fun p : nat * Linegen.text * Linegen.image => p.1.1) l).
Proof.
  induction l as [|[[i line] im] l IH]; [reflexivity|].
  cbn. f_equal. exact IH.
Qed.

(** A part of the command that writes no image and no text. *)
Lemma lg_quiet_then (m k : Linegen.LM unit) :
  Linegen.pngs m.2 = [] -> Linegen.gts m.2 = [] ->
  (m.1 = Linegen.Done tt
   /\ (m ;; k).1 = k.1
   /\ Linegen.pngs (m ;; k).2 = Linegen.pngs k.2
   /\ Linegen.gts (m ;; k).2 = Linegen.gts k.2)
  \/ ((exists e, (m ;; k).1 = Linegen.Failed e)
      /\ Linegen.pngs (m ;; k).2 = [] /\ Linegen.gts (m ;; k).2 = []).
Proof.
  intros P G. rewrite lg_bind_unfold.
  destruct m as [[[]|e] l]; cbn [fst snd] in *.
  - left. destruct k as [r l']. cbn [fst snd].
    rewrite lg_pngs_app, lg_gts_app, P, G. auto.
  - right. eauto.
Qed.

Lemma lg_then_quiet (m k : Linegen.LM unit) :
  Linegen.pngs k.2 = [] -> Linegen.gts k.2 = [] ->
  Linegen.pngs (m ;; k).2 = Linegen.pngs m.2
  /\ Linegen.gts (m ;; k).2 = Linegen.gts m.2
  /\ ((m ;; k).1 = Linegen.Done tt -> m.1 = Linegen.Done tt).
Proof.
  intros P G. rewrite lg_bind_unfold.
  destruct m as [[[]|e] l]; cbn [fst snd] in *.
  - destruct k as [r l']. cbn [fst snd] in *.
    rewrite lg_pngs_app, lg_gts_app, P, G, !app_nil_r. auto.
  - auto.
Qed.

Lemma make_output_quiet :
  Linegen.pngs (Linegen.make_output w a).2 = []
  /\ Linegen.gts (Linegen.make_output w a).2 = [].
Proof.
  unfold Linegen.make_output.
  destruct (Linegen.makedirs w _) as [[]|]; cbn; auto.
  destruct (negb _); cbn; auto.
Qed.

Lemma show_alphabet_quiet (lines : list Linegen.text) :
  Linegen.pngs (Linegen.show_alphabet w lines).2 = []
  /\ Linegen.gts (Linegen.show_alphabet w lines).2 = [].
Proof.
  unfold Linegen.show_alphabet. rewrite lg_bind_unfold. unfold Linegen.lift.
  destruct (Linegen.split_alphabet w _) as [[chars names]|e]; [|cbn; auto].
  destruct (negb _); cbn; auto.
Qed.

Lemma generate_files (v : Linegen.lines_value) :
  let r := (Linegen.generate w a v).1 in
  let log := (Linegen.generate w a v).2 in
  let prod := Linegen.producing w a 0 (Linegen.final_lines w v) in
  exists k k' : nat,
    (k' <= k <= length prod)%nat
    /\ Linegen.pngs log = map (Linegen.image_file a) (take k prod)
    /\ Linegen.gts log = map (Linegen.text_file w a) (take k' prod)
    /\ (r = Linegen.Done tt -> k = length prod /\ k' = length prod).
Proof.
  cbn zeta. unfold Linegen.generate.
  set (lines := Linegen.final_lines w v).
  set (loop := Linegen.write_lines w a 0 lines).
  set (last := if Linegen.verbose a =? 0 then Linegen.emit Linegen.Tick
               else mret tt).
  assert (Q : Linegen.pngs last.2 = [] /\ Linegen.gts last.2 = [])
    by (unfold last; destruct (Linegen.verbose a =? 0); cbn; auto).
  destruct (lg_then_quiet loop last (proj1 Q) (proj2 Q)) as (P4 & G4 & D4).
  assert (T : exists k k' : nat,
            (k' <= k <= length (Linegen.producing w a 0 lines))%nat
            /\ Linegen.pngs (loop ;; last).2
               = map (Linegen.image_file a)
                     (take k (Linegen.producing w a 0 lines))
            /\ Linegen.gts (loop ;; last).2
               = map (Linegen.text_file w a)
                     (take k' (Linegen.producing w a 0 lines))
            /\ ((loop ;; last).1 = Linegen.Done tt ->
                k = length (Linegen.producing w a 0 lines)
                /\ k' = length (Linegen.producing w a 0 lines))).
  { destruct (write_lines_files 0 lines) as (k & k' & Hk & P & G & D).
    exists k, k'. rewrite P4, G4. fold loop in P, G, D.
    split; [exact Hk|]. split; [exact P|]. split; [exact G|].
    intros Hr. apply D, D4, Hr. }
  assert (Z : forall m : Linegen.LM unit,
            (exists e, m.1 = Linegen.Failed e) ->
            Linegen.pngs m.2 = [] -> Linegen.gts m.2 = [] ->
            exists k k' : nat,
              (k' <= k <= length (Linegen.producing w a 0 lines))%nat
              /\ Linegen.pngs m.2
                 = map (Linegen.image_file a)
                       (take k (Linegen.producing w a 0 lines))
              /\ Linegen.gts m.2
                 = map (Linegen.text_file w a)
                       (take k' (Linegen.producing w a 0 lines))
              /\ (m.1 = Linegen.Done tt ->
                  k = length (Linegen.producing w a 0 lines)
                  /\ k' = length (Linegen.producing w a 0 lines))).
  { intros m [e He] P G. exists 0%nat, 0%nat. rewrite P, G, He.
    split; [lia|]. split; [reflexivity|]. split; [reflexivity|].
    discriminate. }
  set (gen := Linegen.attempt (Linegen.new_generator w) _).
  assert (Qg : Linegen.pngs gen.2 = [] /\ Linegen.gts gen.2 = [])
    by (unfold gen, Linegen.attempt; destruct (Linegen.new_generator w);
        cbn; auto).
  destruct (lg_quiet_then gen (loop ;; last) (proj1 Qg) (proj2 Qg))
    as [(_ & R3 & P3 & G3)|(E3 & P3 & G3)].
  2:{ pose proof (Z _ E3 P3 G3) as Z3.
      destruct (show_alphabet_quiet lines) as [Pa Ga].
      destruct (lg_quiet_then (Linegen.show_alphabet w lines)
                  (gen ;; loop ;; last) Pa Ga)
        as [(_ & R2 & P2 & G2)|(E2 & P2 & G2)].
      2:{ pose proof (Z _ E2 P2 G2) as Z2.
          destruct make_output_quiet as [Pm Gm].
          destruct (lg_quiet_then (Linegen.make_output w a)
                      (Linegen.show_alphabet w lines ;; gen ;; loop ;; last)
                      Pm Gm)
            as [(_ & R1 & P1 & G1)|(E1 & P1 & G1)].
          - rewrite R1, P1, G1. exact Z2.
          - exact (Z _ E1 P1 G1). }
      destruct make_output_quiet as [Pm Gm].
      destruct (lg_quiet_then (Linegen.make_output w a)
                  (Linegen.show_alphabet w lines ;; gen ;; loop ;; last)
                  Pm Gm)
        as [(_ & R1 & P1 & G1)|(E1 & P1 & G1)].
      - rewrite R1, P1, G1, R2, P2, G2. exact Z3.
      - exact (Z _ E1 P1 G1). }
  destruct (show_alphabet_quiet lines) as [Pa Ga].
  destruct (lg_quiet_then (Linegen.show_alphabet w lines)
              (gen ;; loop ;; last) Pa Ga)
    as [(_ & R2 & P2 & G2)|(E2 & P2 & G2)].
  2:{ pose proof (Z _ E2 P2 G2) as Z2.
      destruct make_output_quiet as [Pm Gm].
      destruct (lg_quiet_then (Linegen.make_output w a)
                  (Linegen.show_alphabet w lines ;; gen ;; loop ;; last)
                  Pm Gm)
        as [(_ & R1 & P1 & G1)|(E1 & P1 & G1)].
      - rewrite R1, P1, G1. exact Z2.
      - exact (Z _ E1 P1 G1). }
  destruct make_output_quiet as [Pm Gm].
  destruct (lg_quiet_then (Linegen.make_output w a)
              (Linegen.show_alphabet w lines ;; gen ;; loop ;; last)
              Pm Gm)
    as [(_ & R1 & P1 & G1)|(E1 & P1 & G1)].
  - rewrite R1, P1, G1, R2, P2, G2, R3, P3, G3. exact T.
  - exact (Z _ E1 P1 G1).
Qed.

Lemma lg_bind_quiet {A} (m : Linegen.LM A) (k : A -> Linegen.LM unit) :
  Linegen.pngs m.2 = [] -> Linegen.gts m.2 = [] ->
  (exists x, m.1 = Linegen.Done x
             /\ (m ≫= k).1 = (k x).1
             /\ Linegen.pngs (m ≫= k).2 = Linegen.pngs (k x).2
             /\ Linegen.gts (m ≫= k).2 = Linegen.gts (k x).2)
  \/ ((exists e, (m ≫= k).1 = Linegen.Failed e)
      /\ Linegen.pngs (m ≫= k).2 = [] /\ Linegen.gts (m ≫= k).2 = []).
Proof.
  intros P G. rewrite lg_bind_unfold.
  destruct m as [[x|e] l]; cbn [fst snd] in *.
  - left. exists x. destruct (k x) as [r l']. cbn [fst snd].
    rewrite lg_pngs_app, lg_gts_app, P, G. auto.
  - right. eauto.
Qed.

Lemma lg_bind_done {A B} (m : Linegen.LM A) (k : A -> Linegen.LM B) (y : B) :
  (m ≫= k).1 = Linegen.Done y ->
  exists x, m.1 = Linegen.Done x /\ (k x).1 = Linegen.Done y.
Proof.
  rewrite lg_bind_unfold. destruct m as [[x|e] l]; cbn [fst snd].
  - destruct (k x) as [r l'] eqn:E. cbn [fst]. intros ->. exists x.
    rewrite E. auto.
  - discriminate.
Qed.

Lemma quiet_ret {A} (x : A) : Linegen.quiet (mret x).
Proof. split; reflexivity. Qed.

Lemma quiet_lift {A} (r : Linegen.outcome A) : Linegen.quiet (Linegen.lift r).
Proof. split; reflexivity. Qed.

Lemma quiet_raise {A} (e : Linegen.error) :
  Linegen.quiet (@Linegen.raise A e).
Proof. split; reflexivity. Qed.

Lemma quiet_echo (msg : Linegen.message) :
  Linegen.quiet (Linegen.emit (Linegen.Echo msg)).
Proof. split; reflexivity. Qed.

Lemma quiet_spin (msg : string) :
  Linegen.quiet (Linegen.emit (Linegen.Spin msg)).
Proof. split; reflexivity. Qed.

Lemma quiet_tick : Linegen.quiet (Linegen.emit Linegen.Tick).
Proof. split; reflexivity. Qed.

Lemma quiet_check_mark : Linegen.quiet (Linegen.emit Linegen.CheckMark).
Proof. split; reflexivity. Qed.

Lemma quiet_bind {A B} (m : Linegen.LM A) (k : A -> Linegen.LM B) :
  Linegen.quiet m -> (forall x, Linegen.quiet (k x)) ->
  Linegen.quiet (m ≫= k).
Proof.
  intros [P G] Hk. unfold Linegen.quiet. rewrite lg_bind_unfold.
  destruct m as [[x|e] l]; cbn [fst snd] in *; [|auto].
  destruct (Hk x) as [P' G']. destruct (k x) as [r l']. cbn [fst snd] in *.
  rewrite lg_pngs_app, lg_gts_app, P, G, P', G'. auto.
Qed.

Ltac quiet_step :=
  match goal with
  | |- Linegen.quiet (_ ≫= _) => apply quiet_bind; [|intros]
  | |- Linegen.quiet (if ?c then _ else _) => destruct c
  | |- Linegen.quiet (mret _) => apply quiet_ret
  | |- Linegen.quiet (Linegen.lift _) => apply quiet_lift
  | |- Linegen.quiet (Linegen.raise _) => apply quiet_raise
  | |- Linegen.quiet (Linegen.emit (Linegen.Echo _)) => apply quiet_echo
  | |- Linegen.quiet (Linegen.emit (Linegen.Spin _)) => apply quiet_spin
  | |- Linegen.quiet (Linegen.emit Linegen.Tick) => apply quiet_tick
  | |- Linegen.quiet (Linegen.emit Linegen.CheckMark) =>
      apply quiet_check_mark
  end.

Lemma read_files_quiet (files : list string) (lines : list Linegen.text) :
  Linegen.quiet (Linegen.read_files w a files lines).
Proof.
  revert lines. induction files as [|t rest IH]; intros lines.
  { apply quiet_ret. }
  cbn [Linegen.read_files].
  destruct (Linegen.open_file w t); [apply quiet_raise|].
  repeat quiet_step. apply IH.
Qed.

Lemma prepare_quiet : Linegen.quiet (Linegen.prepare w a).
Proof.
  unfold Linegen.prepare.
  apply quiet_bind; [apply read_files_quiet|]. intros lines.
  repeat quiet_step.
Qed.

Lemma line_generator_files :
  exists (lines : list Linegen.text) (k k' : nat),
    (k' <= k)%nat
    /\ Linegen.pngs (Linegen.line_generator w a).2
       = map (Linegen.image_file a)
             (take k (Linegen.producing w a 0 lines))
    /\ Linegen.gts (Linegen.line_generator w a).2
       = map (Linegen.text_file w a)
             (take k' (Linegen.producing w a 0 lines))
    /\ (lines = []
        \/ exists v, (Linegen.prepare w a).1 = Linegen.Done v
                     /\ lines = Linegen.final_lines w v).
Proof.
  unfold Linegen.line_generator.
  destruct (Linegen.texts a) as [|t ts].
  { exists [], 0%nat, 0%nat. cbn. auto. }
  destruct prepare_quiet as [P G].
  destruct (lg_bind_quiet (Linegen.prepare w a)
              (fun v => Linegen.generate w a v) P G)
    as [(v & Hv & _ & P1 & G1)|(_ & P1 & G1)].
  - destruct (generate_files v) as (k & k' & Hk & P2 & G2 & _).
    exists (Linegen.final_lines w v), k, k'. rewrite P1, G1.
    split; [lia|]. split; [exact P2|]. split; [exact G2|]. right. eauto.
  - exists [], 0%nat, 0%nat. rewrite P1, G1. cbn. auto.
Qed.

Lemma do_line_benign (idx : nat) (line : Linegen.text) :
  Linegen.benign w -> (Linegen.do_line w a idx line).1 = Linegen.Done tt.
Proof.
  intros (Hr & Hn & Hd1 & Hd2 & Hd3 & Hs & Hw).
  unfold Linegen.do_line, Linegen.save, Linegen.attempt.
  rewrite !lg_bind_unfold.
  assert (R : (exists im, Linegen.render w a idx line = Linegen.Done im)
              \/ exists msg width height,
                   Linegen.render w a idx line
                   = Linegen.Failed
                       (Linegen.KrakenCairoSurfaceException msg width height)).
  { unfold Linegen.render.
    destruct (Linegen.renormalize a) as [nf|];
      match goal with
      | |- context [Linegen.render_line w idx ?x] =>
          destruct (Linegen.render_line w idx x) as [im|e] eqn:E;
          [left; eauto
          |right; destruct (Hr _ _ _ E) as (m & wd & ht & ->); eauto]
      end. }
  assert (D : forall im, exists im',
             Linegen.degrade w a idx im = Linegen.Done im').
  { intros im. unfold Linegen.degrade.
    destruct (negb _ && negb _).
    - destruct (Linegen.distort_line w idx im) as [im1|e] eqn:E1;
        [|destruct (Hd1 _ _ _ E1)].
      destruct (Linegen.degrade_line w idx im1) as [im2|e] eqn:E2;
        [eauto | destruct (Hd2 _ _ _ E2)].
    - destruct (Linegen.legacy a); [|eauto].
      destruct (Linegen.ocropy_degrade w idx im) as [im1|e] eqn:E1;
        [eauto | destruct (Hd3 _ _ _ E1)]. }
  destruct R as [[im ->]|(m & wd & ht & ->)].
  2:{ destruct (Linegen.verbose a >? 0); reflexivity. }
  destruct (D im) as [im' ->]. rewrite !lg_bind_unfold. unfold Linegen.lift.
  destruct (Linegen.binarize a).
  - destruct (Linegen.nlbin w idx im') as [im''|e] eqn:En.
    + rewrite !lg_bind_unfold, Hs, Hw.
      destruct (Linegen.verbose a >? 0); reflexivity.
    + destruct (Hn _ _ _ En) as [msg ->].
      destruct (Linegen.verbose a >? 0); reflexivity.
  - rewrite !lg_bind_unfold, Hs, Hw.
    destruct (Linegen.verbose a >? 0); reflexivity.
Qed.

End LinegenRun.

(** ** The files that the loop writes *)

(** In a run of lines 488-548 that ends normally, the files written are
    those of the lines that were rendered, degraded and binarized without
    an exception.  Each carries the position of its line in the list, so a
    line that was skipped leaves a gap in the numbering; the text written
    is the stripped line, reordered if asked, and never renormalized. *)
Theorem linegen_files_carry_line_numbers (w : Linegen.World)
    (a : Linegen.Args) (v : Linegen.lines_value)
    (log : list Linegen.event) :
  Linegen.generate w a v = (Linegen.Done tt, log) ->
  Linegen.pngs log
  = map (Linegen.image_file a)
        (Linegen.producing w a 0 (Linegen.final_lines w v))
  /\ Linegen.gts log
     = map (Linegen.text_file w a)
           (Linegen.producing w a 0 (Linegen.final_lines w v)).
Proof.
  intros E. destruct (generate_files w a v) as (k & k' & Hk & P & G & D).
  rewrite E in P, G, D. cbn [fst snd] in P, G, D.
  destruct (D eq_refl) as [-> ->]. rewrite firstn_all in P, G. auto.
Qed.

Lemma linegen_files_carry_line_numbers_witness :
  Linegen.generate Linegen.example_world Linegen.example_args
    (Linegen.ASet [[10]; [121; 111; 10]]%N)
  = (Linegen.Done tt,
     (Linegen.generate Linegen.example_world Linegen.example_args
        (Linegen.ASet [[10]; [121; 111; 10]]%N)).2)
  /\ Linegen.pngs
       (Linegen.generate Linegen.example_world Linegen.example_args
          (Linegen.ASet [[10]; [121; 111; 10]]%N)).2
     = [("out/000001.png", "image")]%string
  /\ Linegen.gts
       (Linegen.generate Linegen.example_world Linegen.example_args
          (Linegen.ASet [[10]; [121; 111; 10]]%N)).2
     = [("out/000001.gt.txt"%string, [121; 111]%N)].
Proof.
  assert (H : Linegen.generate Linegen.example_world Linegen.example_args
                (Linegen.ASet [[10]; [121; 111; 10]]%N)
              = (Linegen.Done tt,
                 (Linegen.generate Linegen.example_world Linegen.example_args
                    (Linegen.ASet [[10]; [121; 111; 10]]%N)).2))
    by (vm_compute; reflexivity).
  split; [exact H|].
  exact (linegen_files_carry_line_numbers Linegen.example_world
           Linegen.example_args _ _ H).
Defined.

(** The exceptions that the loop catches never end it: when the renderer
    fails with KrakenCairoSurfaceException only and the binarization with
    KrakenInputException only, and the degradations and the disk work, the
    loop goes through all the lines and ends normally. *)
Theorem skipped_lines_do_not_stop (w : Linegen.World) (a : Linegen.Args)
    (idx : nat) (lines : list Linegen.text) :
  Linegen.benign w ->
  (Linegen.write_lines w a idx lines).1 = Linegen.Done tt.
Proof.
  intros B. revert idx. induction lines as [|line rest IH]; intros idx.
  { reflexivity. }
  cbn [Linegen.write_lines]. rewrite lg_bind_unfold.
  pose proof (do_line_benign w a idx line B) as H.
  destruct (Linegen.do_line w a idx line) as [[[]|e] l]; cbn [fst] in H;
    [|discriminate H].
  specialize (IH (S idx)).
  destruct (Linegen.write_lines w a (S idx) rest) as [r l']. exact IH.
Qed.

Lemma skipped_lines_do_not_stop_witness :
  Linegen.benign Linegen.example_world
  /\ (Linegen.write_lines Linegen.example_world Linegen.example_args 0
        [[]; [121; 111]]%N).1
     = Linegen.Done tt.
Proof.
  assert (B : Linegen.benign Linegen.example_world).
  { unfold Linegen.benign, Linegen.example_world.
    cbn [Linegen.render_line Linegen.nlbin Linegen.distort_line
         Linegen.degrade_line Linegen.ocropy_degrade Linegen.save_png
         Linegen.write_file].
    split; [|repeat (split; [intros; discriminate|]); split; reflexivity].
    intros idx [|c line] e H; [|discriminate H].
    injection H as <-. eauto. }
  split; [exact B|].
  exact (skipped_lines_do_not_stop Linegen.example_world Linegen.example_args
           0 [[]; [121; 111]]%N B).
Defined.

(** Whether the command ends normally or not, no image and no text is
    written twice, and a text is never written without the image of the
    same number. *)
Theorem linegen_never_overwrites (w : Linegen.World) (a : Linegen.Args) :
  NoDup (map fst (Linegen.pngs (Linegen.line_generator w a).2))
  /\ NoDup (map fst (Linegen.gts (Linegen.line_generator w a).2))
  /\ forall (i : nat) (c : Linegen.text),
       In (Linegen.gt_path (Linegen.output a) i, c)
          (Linegen.gts (Linegen.line_generator w a).2) ->
       exists im,
         In (Linegen.png_path (Linegen.output a) i, im)
            (Linegen.pngs (Linegen.line_generator w a).2).
Proof.
  destruct (line_generator_files w a) as (lines & k & k' & Hk & P & G & _).
  rewrite P, G, image_file_names, text_file_names.
  split; [|split].
  - apply (NoDup_fmap_2_strong _); [|apply producing_NoDup].
    intros i j _ _. apply lg_png_path_inj.
  - apply (NoDup_fmap_2_strong _); [|apply producing_NoDup].
    intros i j _ _. apply lg_gt_path_inj.
  - intros i c H. apply in_map_iff in H as ([[j line] im] & E & Hin).
    cbn in E. injection E as E _. apply lg_gt_path_inj in E. subst j.
    exists im. apply in_map_iff. exists (i, line, im).
    split; [reflexivity|]. eapply take_incl_le; eassumption.
Qed.


(** ** The option [--max-length] *)

Lemma lstrip_length (sp : N -> bool) (s : Linegen.text) :
  (length (Linegen.lstrip sp s) <= length s)%nat.
Proof.
  induction s as [|c s IH]; cbn; [lia|]. destruct (sp c); cbn; lia.
Qed.

Lemma strip_text_length (sp : N -> bool) (s : Linegen.text) :
  (length (Linegen.strip_text sp s) <= length s)%nat.
Proof.
  unfold Linegen.strip_text. rewrite length_rev.
  etransitivity; [apply lstrip_length|]. rewrite length_rev.
  apply lstrip_length.
Qed.

Lemma py_index_In (l : list Linegen.text) (idx : Z) (x : Linegen.text) :
  Linegen.py_index l idx = Linegen.Done x -> In x l.
Proof.
  unfold Linegen.py_index. destruct (_ && _); [|discriminate].
  destruct (l !! _) as [y|] eqn:E; [|discriminate].
  intros H. injection H as <-.
  apply list_elem_of_In. eapply list_elem_of_lookup_2. exact E.
Qed.

Lemma py_indices_In (l : list Linegen.text) (idxs : list Z)
    (xs : list Linegen.text) :
  Linegen.py_indices l idxs = Linegen.Done xs ->
  forall x, In x xs -> In x l.
Proof.
  revert xs. induction idxs as [|idx rest IH]; intros xs; cbn.
  { intros H. injection H as <-. intros x []. }
  destruct (Linegen.py_index l idx) as [y|e] eqn:E; [|discriminate].
  destruct (Linegen.py_indices l rest) as [ys|e]; [|discriminate].
  intros H. injection H as <-. intros x [<-|Hx].
  - eapply py_index_In, E.
  - eapply IH; [reflexivity | exact Hx].
Qed.

Lemma shortened_short (a : Linegen.Args) (n : Z) (lines : list Linegen.text)
    (x : Linegen.text) :
  Linegen.max_length a = Some n -> n <> 0 ->
  In x (Linegen.shortened a lines) -> Z.of_nat (length x) < n.
Proof.
  intros Hm Hn. unfold Linegen.shortened. rewrite Hm.
  destruct (n =? 0) eqn:E; [apply Z.eqb_eq in E; contradiction|].
  unfold Linegen.to_set. intros H.
  rewrite <- list_elem_of_In, elem_of_remove_dups, list_elem_of_In in H.
  apply filter_In in H as [_ H]. apply Z.ltb_lt. exact H.
Qed.

Section MaxLength.

Variable w : Linegen.World.
Variable a : Linegen.Args.
Variable n : Z.

Hypothesis Hmax : Linegen.max_length a = Some n.
Hypothesis Hn : n <> 0.
Hypothesis Hiter : forall l x, In x (Linegen.iteration w l) -> In x l.

#[local] Existing Instance Linegen.LM_ret.
#[local] Existing Instance Linegen.LM_bind.

Lemma prepare_short (v : Linegen.lines_value) (x : Linegen.text) :
  (Linegen.prepare w a).1 = Linegen.Done v ->
  In x (Linegen.final_lines w v) -> Z.of_nat (length x) < n.
Proof.
  unfold Linegen.prepare. intros H.
  apply lg_bind_done in H as (lines & _ & H).
  set (L := Linegen.shortened a
              (Linegen.stripped w a (Linegen.normalized w a lines))) in H.
  apply lg_bind_done in H as ([] & _ & H).
  assert (S : forall y, In y L -> Z.of_nat (length y) < n)
    by (intros y; apply (shortened_short a n _ y Hmax Hn)).
  assert (F : forall l : list Linegen.text,
            (forall y, In y l -> Z.of_nat (length y) < n) ->
            In x (map (Linegen.strip_text (Linegen.is_space w)) l) ->
            Z.of_nat (length x) < n).
  { intros l Hl Hx. apply in_map_iff in Hx as (y & <- & Hy).
    pose proof (strip_text_length (Linegen.is_space w) y).
    specialize (Hl y Hy). lia. }
  destruct (negb _ && _).
  - apply lg_bind_done in H as ([] & _ & H).
    apply lg_bind_done in H as (idxs & _ & H).
    apply lg_bind_done in H as (sample & Hs & H).
    apply lg_bind_done in H as ([] & _ & H).
    cbn in H. injection H as <-. cbn [Linegen.final_lines].
    apply F. intros y Hy. apply S, Hiter.
    eapply py_indices_In; [exact Hs | exact Hy].
  - cbn in H. injection H as <-. cbn [Linegen.final_lines].
    apply F. intros y Hy. apply S, Hiter, Hy.
Qed.

End MaxLength.

(** With [--max-length n], [n] other than 0, every text that the command
    writes is the text of a line shorter than [n] code points (reordered
    if asked), provided that iterating over a set yields elements of the
    set: the lines are measured before the final stripping, which can only
    shorten them, and the sample is drawn from the lines that are left. *)
Theorem linegen_respects_max_length (w : Linegen.World) (a : Linegen.Args)
    (n : Z) (f : string) (c : Linegen.text) :
  Linegen.max_length a = Some n -> n <> 0 ->
  (forall l x, In x (Linegen.iteration w l) -> In x l) ->
  In (f, c) (Linegen.gts (Linegen.line_generator w a).2) ->
  exists line,
    c = Linegen.gt_content w a line /\ Z.of_nat (length line) < n.
Proof.
  intros Hmax Hn Hiter.
  destruct (line_generator_files w a)
    as (lines & k & k' & Hk & _ & G & [->|(v & Hv & ->)]); rewrite G.
  - cbn. rewrite take_nil. intros [].
  - intros H. apply in_map_iff in H as ([[j line] im] & E & Hin).
    cbn in E. injection E as _ <-. exists line. split; [reflexivity|].
    assert (Hp : In (j, line, im)
                   (Linegen.producing w a 0 (Linegen.final_lines w v))).
    { apply list_elem_of_In. apply list_elem_of_In in Hin.
      apply elem_of_take in Hin as (i & Hi & _).
      eapply list_elem_of_lookup_2. exact Hi. }
    apply producing_lookup in Hp as (i & _ & Hl & _). cbn in Hl.
    apply (prepare_short w a n Hmax Hn Hiter v line Hv).
    apply list_elem_of_In. eapply list_elem_of_lookup_2. exact Hl.
Qed.

Lemma linegen_respects_max_length_witness :
  Linegen.max_length Linegen.example_args = Some 4
  /\ In ("out/000001.gt.txt"%string, [121; 111]%N)
        (Linegen.gts
           (Linegen.line_generator Linegen.example_world
                                   Linegen.example_args).2)
  /\ exists line,
       [121; 111]%N = Linegen.gt_content Linegen.example_world
                        Linegen.example_args line
       /\ Z.of_nat (length line) < 4.
Proof.
  assert (H : In ("out/000001.gt.txt"%string, [121; 111]%N)
                (Linegen.gts
                   (Linegen.line_generator Linegen.example_world
                                           Linegen.example_args).2))
    by (vm_compute; left; reflexivity).
  split; [reflexivity|]. split; [exact H|].
  apply (linegen_respects_max_length Linegen.example_world
           Linegen.example_args 4 "out/000001.gt.txt"%string [121; 111]%N).
  - reflexivity.
  - lia.
  - intros l x Hx. exact Hx.
  - exact H.
Defined.

